(** * FLIP fluid engine: the frame pipeline of [FluidSimulation]

    A shallow embedding of [src/engine/fluidsimulation.cpp] and the
    properties its specification states about it.

    Numbers.  The engine computes with [float] and [double].  Here both
    are exact rationals ([Q]) and a cast [(float)x] is the identity.
    Rounding is modelled where a stated result depends on it ([Binary]):
    the number of extrapolation layers, the particle count of the speed
    percentile, and the [float] constants that results are compared
    with.  Numeric results are compared with [==] ([Qeq]), structures
    with [=].  [int] values are [Z]; the conversion of a [double] to
    [int] is [Engine.int_of_double], which leaves the values of the range
    of [int] as they are.

    Collaborators.  Classes whose sources live in other files of the
    engine (the MAC velocity field, level sets, the pressure solver, the
    mesh sources, ...) enter as section variables, or as definitions whose
    comment starts with "Modelled from the spec". *)

From Stdlib Require Import ZArith QArith Qround Qminmax Qabs Lia Psatz Reals String.
From stdpp Require Import base list gmap.

Local Open Scope Z_scope.
Local Open Scope Q_scope.

(** ** Outcomes of a call

    A C++ member function either returns or throws.  [Raise e s] carries
    the object state at the moment the exception leaves the function, so
    that "nothing was mutated" is a statement about [s]. *)

Inductive exn : Type :=
| RuntimeError (msg : string)   (* std::runtime_error *)
| DomainError (msg : string)    (* std::domain_error *)
| OutOfRange (msg : string).    (* std::out_of_range *)

Inductive outcome (S A : Type) : Type :=
| Return (a : A)
| Raise (e : exn) (s : S)
| Diverge.                       (* the loop budget of the model ran out *)

Arguments Return {S A} a.
Arguments Raise {S A} e s.
Arguments Diverge {S A}.

(** ** Rational helpers *)

Definition Qltb (a b : Q) : bool := negb (Qle_bool b a).
Definition Qleb (a b : Q) : bool := Qle_bool a b.

Lemma Qltb_true (a b : Q) : Qltb a b = true <-> a < b.
Proof.
  unfold Qltb. rewrite negb_true_iff. split.
  - intros H. apply Qnot_le_lt. intros Hle.
    apply Qle_bool_iff in Hle. congruence.
  - intros H. destruct (Qle_bool b a) eqn:E; [|reflexivity].
    apply Qle_bool_iff in E. lra.
Qed.

Lemma Qltb_false (a b : Q) : Qltb a b = false <-> b <= a.
Proof.
  unfold Qltb. rewrite negb_false_iff. apply Qle_bool_iff.
Qed.

Lemma Qleb_true (a b : Q) : Qleb a b = true <-> a <= b.
Proof. apply Qle_bool_iff. Qed.

Lemma Qleb_false (a b : Q) : Qleb a b = false <-> b < a.
Proof.
  unfold Qleb. split.
  - intros H. apply Qnot_le_lt. intros Hle.
    apply Qle_bool_iff in Hle. congruence.
  - intros H. destruct (Qle_bool a b) eqn:E; [|reflexivity].
    apply Qle_bool_iff in E. lra.
Qed.

(** ** vmath::vec3 *)

Module vmath.

Record vec3 : Type := mkvec3 { x : Q; y : Q; z : Q }.

Definition add (a b : vec3) : vec3 := mkvec3 (x a + x b) (y a + y b) (z a + z b).
Definition sub (a b : vec3) : vec3 := mkvec3 (x a - x b) (y a - y b) (z a - z b).
Definition scale (c : Q) (a : vec3) : vec3 := mkvec3 (c * x a) (c * y a) (c * z a).
Definition dot (a b : vec3) : Q := x a * x b + y a * y b + z a * z b.

(** Componentwise numeric equality. *)
Definition veq (a b : vec3) : Prop := x a == x b /\ y a == y b /\ z a == z b.

Lemma veq_refl (a : vec3) : veq a a.
Proof. repeat split; reflexivity. Qed.

Lemma veq_sym (a b : vec3) : veq a b -> veq b a.
Proof. intros (?&?&?). repeat split; symmetry; assumption. Qed.

Lemma veq_trans (a b c : vec3) : veq a b -> veq b c -> veq a c.
Proof. intros (?&?&?) (?&?&?). repeat split; etransitivity; eassumption. Qed.

End vmath.

Import vmath.

Declare Scope vec_scope.
Delimit Scope vec_scope with vec.
Bind Scope vec_scope with vec3.
Infix "+" := vmath.add : vec_scope.
Infix "-" := vmath.sub : vec_scope.
Infix "*" := vmath.scale : vec_scope.
Infix "=v=" := vmath.veq (at level 70, no associativity).

(** [std::vector::at]: a checked read at an [int] index. *)
Definition at_ {A : Type} (l : list A) (i : Z) : option A :=
  if (i <? 0)%Z then None else l !! Z.to_nat i.

(** ** Grid to particle transfer, FLIP (lines 6405-6418) *)

Module Transfer.
Section PICFLIP.

(** The MAC velocity field class is declared in another file; only its
    trilinear evaluation is used here. *)
Variable MACVelocityField : Type.
Variable evaluateVelocityAtPositionLinear : MACVelocityField -> vec3 -> vec3.

Variable _ratioPICFLIP : Q.
Variable _MACVelocity : MACVelocityField.
Variable _savedVelocityField : MACVelocityField.

(** The body of the [for] loop, for the particle at [pos] with velocity
    [vel]. *)
Definition picflip_velocity (pos vel : vec3) : vec3 :=
  let vPIC := evaluateVelocityAtPositionLinear _MACVelocity pos in
  let vFLIP :=
    ((vel + vPIC) - evaluateVelocityAtPositionLinear _savedVelocityField pos)%vec in
  (_ratioPICFLIP * vPIC + (1 - _ratioPICFLIP) * vFLIP)%vec.

(** [for (int i = startidx; i < endidx; i++)], with [n] iterations left.
    [positions->at(i)] and [velocities->at(i)] throw when [i] is not a
    slot of the column: the result is [None]. *)
Fixpoint picflip_loop (n : nat) (i : Z) (positions velocities : list vec3)
  : option (list vec3) :=
  match n with
  | O => Some velocities
  | S n' =>
      match at_ positions i, at_ velocities i with
      | Some pos, Some vel =>
          picflip_loop n' (i + 1)%Z positions
            (<[Z.to_nat i := picflip_velocity pos vel]> velocities)
      | _, _ => None
      end
  end.

Definition _updatePICFLIPMarkerParticleVelocitiesThread
    (startidx endidx : Z) (positions velocities : list vec3)
  : option (list vec3) :=
  picflip_loop (Z.to_nat (endidx - startidx)) startidx positions velocities.

(** *** Properties *)

Lemma at_nat {A : Type} (l : list A) (i : Z) :
  (0 <= i)%Z -> at_ l i = l !! Z.to_nat i.
Proof.
  intros Hi. unfold at_. destruct (Z.ltb_spec i 0); [lia | reflexivity].
Qed.

Lemma picflip_loop_spec (n : nat) :
  forall (i : Z) (positions velocities : list vec3),
    (0 <= i)%Z ->
    (Z.to_nat i + n <= length positions)%nat ->
    (Z.to_nat i + n <= length velocities)%nat ->
    exists velocities',
      picflip_loop n i positions velocities = Some velocities'
      /\ length velocities' = length velocities
      /\ (forall j, (j < Z.to_nat i \/ Z.to_nat i + n <= j)%nat ->
                    velocities' !! j = velocities !! j)
      /\ (forall j pos vel, (Z.to_nat i <= j < Z.to_nat i + n)%nat ->
             positions !! j = Some pos -> velocities !! j = Some vel ->
             velocities' !! j = Some (picflip_velocity pos vel)).
Proof.
  induction n as [|n IH]; intros i positions velocities Hi Hp Hv.
  - exists velocities. simpl.
    split; [reflexivity|]. split; [reflexivity|].
    split; [reflexivity | intros; lia].
  - simpl. rewrite !at_nat by lia.
    destruct (lookup_lt_is_Some_2 positions (Z.to_nat i)) as [pos Hpos]; [lia|].
    destruct (lookup_lt_is_Some_2 velocities (Z.to_nat i)) as [vel Hvel]; [lia|].
    rewrite Hpos, Hvel.
    set (velocities1 := <[Z.to_nat i := picflip_velocity pos vel]> velocities).
    assert (Hlen1 : length velocities1 = length velocities)
      by apply length_insert.
    destruct (IH (i + 1)%Z positions velocities1) as (v' & Hrun & Hlen & Hout & Hin);
      [lia | lia | lia |].
    exists v'. split; [exact Hrun|]. split; [congruence|]. split.
    + intros j Hj. rewrite Hout by lia.
      unfold velocities1. apply list_lookup_insert_ne. lia.
    + intros j p v Hj Hpj Hvj.
      destruct (decide (j = Z.to_nat i)) as [->|Hne].
      * rewrite Hout by lia. unfold velocities1.
        rewrite list_lookup_insert_eq by lia. congruence.
      * apply Hin; [lia | exact Hpj |].
        unfold velocities1. rewrite list_lookup_insert_ne by lia. exact Hvj.
Qed.

(** The blend of the specification,
    [ratio * v_grid + (1 - ratio) * (v_old + (v_grid - v_saved))]. *)
Definition spec_blend (v_grid v_saved v_old : vec3) : vec3 :=
  (_ratioPICFLIP * v_grid + (1 - _ratioPICFLIP) * (v_old + (v_grid - v_saved)))%vec.

Lemma picflip_velocity_blend (pos vel : vec3) :
  picflip_velocity pos vel
  =v= spec_blend (evaluateVelocityAtPositionLinear _MACVelocity pos)
                 (evaluateVelocityAtPositionLinear _savedVelocityField pos) vel.
Proof.
  unfold picflip_velocity, spec_blend, veq; simpl. repeat split; ring.
Qed.

Lemma picflip_velocity_pure_PIC (pos vel : vec3) :
  _ratioPICFLIP == 1 ->
  picflip_velocity pos vel =v= evaluateVelocityAtPositionLinear _MACVelocity pos.
Proof.
  intros Hr. unfold picflip_velocity, veq; simpl.
  repeat split; rewrite Hr; ring.
Qed.

(** C1.  For every slot [i] of the thread's range, the FLIP update stores
    [ratio * v_grid(p) + (1 - ratio) * (v_old + (v_grid(p) - v_saved(p)))]
    as the new velocity, where [v_grid] and [v_saved] are the evaluations of
    the current and the saved field at the particle position; with
    [ratio = 1] the stored value is [v_grid(p)], whatever the old velocity
    was.  Slots outside the range keep their velocity. *)
Theorem C1_picflip_velocity_update
    (startidx endidx : Z) (positions velocities : list vec3) :
  (0 <= startidx <= endidx)%Z ->
  (Z.to_nat endidx <= length positions)%nat ->
  (Z.to_nat endidx <= length velocities)%nat ->
  exists velocities',
    _updatePICFLIPMarkerParticleVelocitiesThread startidx endidx positions velocities
      = Some velocities'
    /\ length velocities' = length velocities
    /\ (forall i pos v_old,
          (startidx <= i < endidx)%Z ->
          at_ positions i = Some pos -> at_ velocities i = Some v_old ->
          exists v_new,
            at_ velocities' i = Some v_new
            /\ v_new =v= spec_blend
                           (evaluateVelocityAtPositionLinear _MACVelocity pos)
                           (evaluateVelocityAtPositionLinear _savedVelocityField pos)
                           v_old
            /\ (_ratioPICFLIP == 1 ->
                forall v_other,
                  v_new =v= evaluateVelocityAtPositionLinear _MACVelocity pos
                  /\ picflip_velocity pos v_other =v= v_new))
    /\ (forall i, (0 <= i < startidx \/ endidx <= i)%Z ->
                  at_ velocities' i = at_ velocities i).
Proof.
  intros Hidx Hp Hv.
  unfold _updatePICFLIPMarkerParticleVelocitiesThread.
  destruct (picflip_loop_spec (Z.to_nat (endidx - startidx)) startidx
              positions velocities) as (v' & Hrun & Hlen & Hout & Hin);
    [lia | lia | lia |].
  exists v'. split; [exact Hrun|]. split; [exact Hlen|]. split.
  - intros i pos v_old Hi Hpos Hvel.
    rewrite at_nat in Hpos, Hvel by lia.
    exists (picflip_velocity pos v_old). rewrite at_nat by lia.
    split; [apply Hin; [lia | exact Hpos | exact Hvel]|].
    split; [apply picflip_velocity_blend|].
    intros Hr v_other. split.
    + apply picflip_velocity_pure_PIC, Hr.
    + eapply veq_trans; [apply picflip_velocity_pure_PIC, Hr|].
      apply veq_sym, picflip_velocity_pure_PIC, Hr.
  - intros i Hi. rewrite !at_nat by lia. apply Hout. lia.
Qed.

End PICFLIP.

(** A two-particle store, constant fields, ratio 1/2, the whole range. *)
Lemma C1_witness :
  exists velocities',
    _updatePICFLIPMarkerParticleVelocitiesThread
      (vec3 -> vec3) (fun f p => f p) (1#2)
      (fun _ => mkvec3 1 0 0) (fun _ => mkvec3 0 0 0) 0 2
      [mkvec3 0 0 0; mkvec3 1 1 1] [mkvec3 4 0 0; mkvec3 0 2 0]
    = Some velocities'
    /\ length velocities' = 2%nat.
Proof.
  destruct (C1_picflip_velocity_update
              (vec3 -> vec3) (fun f p => f p) (1#2)
              (fun _ => mkvec3 1 0 0) (fun _ => mkvec3 0 0 0) 0 2
              [mkvec3 0 0 0; mkvec3 1 1 1] [mkvec3 4 0 0; mkvec3 0 2 0])
    as (v' & Hrun & Hlen & _); [lia | simpl; lia | simpl; lia |].
  exists v'. split; [exact Hrun | exact Hlen].
Defined.

End Transfer.

(** ** Rounding to a binary floating-point format *)

Module Binary.

(** [2^e] for an integer [e]. *)
Definition pow2 (e : Z) : Q :=
  if (0 <=? e)%Z then inject_Z (2 ^ e) else 1 / inject_Z (2 ^ (- e)).

(** The binary exponent of a positive number: [2^e <= q < 2^(e+1)]. *)
Definition exponent (q : Q) : Z :=
  if Qleb 1 q then Z.log2 (Qfloor q) else (- Z.log2_up (Qceiling (1 / q)))%Z.

(** The nearest integer, the even one of two that are equally near. *)
Definition round_half_even (t : Q) : Z :=
  let f := Qfloor t in
  let r := t - inject_Z f in
  if Qltb r (1 # 2) then f
  else if Qltb (1 # 2) r then (f + 1)%Z
  else if Z.even f then f else (f + 1)%Z.

(** The number with [prec] significant bits that is nearest to [q], as the
    arithmetic of IEEE 754 returns it in the default rounding mode
    ([prec] is 53 for [double] and 24 for [float]).  The exponent is not
    bounded: overflow and subnormal numbers are not part of the model. *)
Definition round (prec : Z) (q : Q) : Q :=
  if Qeq_bool q 0 then 0
  else
    let a := Qabs q in
    let ulp := pow2 (exponent a - (prec - 1)) in
    let m := inject_Z (round_half_even (a / ulp)) * ulp in
    if Qltb q 0 then - m else m.

Lemma round_half_even_le (t : Q) (k : Z) : t <= inject_Z k -> (round_half_even t <= k)%Z.
Proof.
  intros Ht. unfold round_half_even. cbv zeta.
  assert (Hf : (Qfloor t <= k)%Z).
  { rewrite <- (Qfloor_Z k). by apply Qfloor_resp_le. }
  destruct (Z.eq_dec (Qfloor t) k) as [E|E].
  - assert (Hr : t - inject_Z (Qfloor t) <= 0) by (rewrite E; lra).
    assert (Hlt : Qltb (t - inject_Z (Qfloor t)) (1 # 2) = true) by (apply Qltb_true; lra).
    rewrite Hlt. lia.
  - destruct (Qltb _ _); [lia|]. destruct (Qltb _ _); [lia|]. destruct (Z.even _); lia.
Qed.

Lemma round_half_even_gt (t : Q) (k : Z) :
  inject_Z k + (1 # 2) < t -> (k + 1 <= round_half_even t)%Z.
Proof.
  intros Ht. unfold round_half_even. cbv zeta.
  assert (Hf : (k <= Qfloor t)%Z).
  { rewrite <- (Qfloor_Z k). apply Qfloor_resp_le. lra. }
  destruct (Z.eq_dec (Qfloor t) k) as [E|E].
  - assert (Hlt : Qltb (t - inject_Z (Qfloor t)) (1 # 2) = false)
      by (apply Qltb_false; rewrite E; lra).
    assert (Hgt : Qltb (1 # 2) (t - inject_Z (Qfloor t)) = true)
      by (apply Qltb_true; rewrite E; lra).
    rewrite Hlt, Hgt. lia.
  - destruct (Qltb _ _); [lia|]. destruct (Qltb _ _); [lia|]. destruct (Z.even _); lia.
Qed.

Lemma round_half_even_error (t : Q) :
  inject_Z (round_half_even t) - (1 # 2) <= t <= inject_Z (round_half_even t) + (1 # 2).
Proof.
  unfold round_half_even. cbv zeta.
  pose proof (Qfloor_le t) as H1. pose proof (Qlt_floor t) as H2.
  rewrite inject_Z_plus in H2. change (inject_Z 1) with 1 in H2.
  destruct (Qltb _ _) eqn:E1.
  - apply Qltb_true in E1. split; lra.
  - apply Qltb_false in E1. destruct (Qltb (1 # 2) _) eqn:E2.
    + apply Qltb_true in E2. rewrite inject_Z_plus. change (inject_Z 1) with 1. split; lra.
    + apply Qltb_false in E2. destruct (Z.even _).
      * split; lra.
      * rewrite inject_Z_plus. change (inject_Z 1) with 1. split; lra.
Qed.

Lemma Qdiv_le_mono (a b u : Q) : 0 < u -> a <= b -> a / u <= b / u.
Proof.
  intros Hu Hab. unfold Qdiv. apply Qmult_le_compat_r; [exact Hab|].
  apply Qlt_le_weak, Qinv_lt_0_compat, Hu.
Qed.

Lemma Qdiv_lt_mono (a b u : Q) : 0 < u -> a < b -> a / u < b / u.
Proof.
  intros Hu Hab. unfold Qdiv. apply Qmult_lt_compat_r; [|exact Hab].
  apply Qinv_lt_0_compat, Hu.
Qed.

(** A number from 1 on lies between the power of two of its exponent and
    the next one. *)
Lemma exponent_spec (q : Q) :
  1 <= q ->
  (0 <= exponent q)%Z
  /\ inject_Z (2 ^ exponent q) <= q < inject_Z (2 ^ (exponent q + 1)).
Proof.
  intros Hq. unfold exponent.
  assert (E : Qleb 1 q = true) by (by apply Qleb_true). rewrite E.
  assert (Hf : (1 <= Qfloor q)%Z).
  { rewrite <- (Qfloor_Z 1). by apply Qfloor_resp_le. }
  destruct (Z.log2_spec (Qfloor q) ltac:(lia)) as [Hlo Hhi].
  split; [apply Z.log2_nonneg|].
  split.
  - eapply Qle_trans; [|apply Qfloor_le]. by rewrite <- Zle_Qle.
  - eapply Qlt_le_trans; [apply Qlt_floor|]. rewrite <- Zle_Qle.
    unfold Z.succ in Hhi. lia.
Qed.

(** The unit in the last place of a number from 1 on, for a precision
    that its exponent does not exceed. *)
Lemma ulp_spec (prec : Z) (q : Q) :
  1 <= q -> (exponent q <= prec - 1)%Z ->
  let k := (prec - 1 - exponent q)%Z in
  (0 <= k)%Z
  /\ pow2 (exponent q - (prec - 1)) == 1 / inject_Z (2 ^ k)
  /\ pow2 (exponent q - (prec - 1)) * inject_Z (2 ^ (prec - 1)) <= q.
Proof.
  intros Hq He k.
  destruct (exponent_spec q Hq) as (He0 & Hlo & _).
  assert (Hk : (0 <= k)%Z) by (unfold k; lia).
  assert (Hpk : (0 < 2 ^ k)%Z) by (apply Z.pow_pos_nonneg; lia).
  assert (HpkQ : 0 < inject_Z (2 ^ k)).
  { change 0 with (inject_Z 0). by rewrite <- Zlt_Qlt. }
  assert (Hpow : pow2 (exponent q - (prec - 1)) == 1 / inject_Z (2 ^ k)).
  { unfold pow2. destruct (Z.leb_spec 0 (exponent q - (prec - 1))) as [Hpos|Hneg].
    - assert (exponent q - (prec - 1) = 0)%Z as -> by lia.
      assert (k = 0)%Z as -> by (unfold k; lia). reflexivity.
    - replace (- (exponent q - (prec - 1)))%Z with k by (unfold k; lia). reflexivity. }
  split; [exact Hk|]. split; [exact Hpow|].
  rewrite Hpow.
  assert (Hsplit : (2 ^ (prec - 1) = 2 ^ exponent q * 2 ^ k)%Z).
  { rewrite <- Z.pow_add_r by lia. f_equal. unfold k. lia. }
  rewrite Hsplit, inject_Z_mult.
  assert (Hsimp : 1 / inject_Z (2 ^ k) * (inject_Z (2 ^ exponent q) * inject_Z (2 ^ k))
                  == inject_Z (2 ^ exponent q)) by (field; lra).
  rewrite Hsimp. exact Hlo.
Qed.

(** Rounding a number from 1 on that lies between two neighbouring whole
    numbers [m] and [m + 1]: the result is not above [m + 1], and it is
    above [m] when the number is more than half a unit in the last place
    above [m]. *)
Lemma round_between (prec : Z) (q : Q) (m : Z) :
  1 <= q -> (exponent q <= prec - 1)%Z ->
  inject_Z m + pow2 (exponent q - (prec - 1)) / 2 < q ->
  q <= inject_Z (m + 1) ->
  inject_Z m < round prec q <= inject_Z (m + 1).
Proof.
  intros Hq He Hlo Hhi.
  destruct (ulp_spec prec q Hq He) as (Hk & Hpow & _).
  set (k := (prec - 1 - exponent q)%Z) in *.
  set (u := pow2 (exponent q - (prec - 1))) in *.
  assert (Hpk : (0 < 2 ^ k)%Z) by (apply Z.pow_pos_nonneg; lia).
  assert (HpkQ : 0 < inject_Z (2 ^ k)).
  { change 0 with (inject_Z 0). by rewrite <- Zlt_Qlt. }
  assert (Hu : 0 < u) by (rewrite Hpow; apply Qlt_shift_div_l; lra).
  assert (Hdiv : forall z : Z, inject_Z z / u == inject_Z (z * 2 ^ k)).
  { intros z. rewrite inject_Z_mult, Hpow. field. lra. }
  unfold round. cbv zeta.
  assert (E0 : Qeq_bool q 0 = false).
  { destruct (Qeq_bool q 0) eqn:E; [|reflexivity]. apply Qeq_bool_iff in E. lra. }
  assert (E1 : Qltb q 0 = false) by (apply Qltb_false; lra).
  rewrite E0, E1.
  assert (Ea : Qabs q = q).
  { destruct q as [n d]. unfold Qabs. f_equal. apply Z.abs_eq.
    unfold Qle in Hq. cbn in Hq. lia. }
  rewrite Ea. fold u.
  assert (Hup : (round_half_even (q / u) <= (m + 1) * 2 ^ k)%Z).
  { apply round_half_even_le. rewrite <- Hdiv. by apply Qdiv_le_mono. }
  assert (Hdown : (m * 2 ^ k + 1 <= round_half_even (q / u))%Z).
  { apply round_half_even_gt. rewrite <- Hdiv.
    assert (H1 : inject_Z m / u + (1 # 2) == (inject_Z m + u / 2) / u) by (field; lra).
    rewrite H1. by apply Qdiv_lt_mono. }
  set (r := round_half_even (q / u)) in *.
  assert (Hr1 : inject_Z (m * 2 ^ k + 1) <= inject_Z r) by (by rewrite <- Zle_Qle).
  assert (Hr2 : inject_Z r <= inject_Z ((m + 1) * 2 ^ k)) by (by rewrite <- Zle_Qle).
  rewrite inject_Z_plus, <- Hdiv in Hr1. rewrite <- Hdiv in Hr2.
  change (inject_Z 1) with 1 in Hr1.
  split.
  - assert (H1 : (inject_Z m / u + 1) * u <= inject_Z r * u)
      by (apply Qmult_le_compat_r; lra).
    assert (H2 : (inject_Z m / u + 1) * u == inject_Z m + u) by (field; lra).
    lra.
  - assert (H1 : inject_Z r * u <= inject_Z (m + 1) / u * u)
      by (apply Qmult_le_compat_r; lra).
    assert (H2 : inject_Z (m + 1) / u * u == inject_Z (m + 1)) by (field; lra).
    lra.
Qed.




End Binary.

(** ** The simulation object: settings, frame clock, solver status *)

Module Engine.

(** [fmin], [fmax] and the speed accumulation
    [maxu = 0.0; for (...) maxu = fmax(v, maxu);]. *)
Definition fmin (a b : Q) : Q := if Qleb a b then a else b.
Definition fmax (a b : Q) : Q := if Qleb a b then b else a.
Definition fmax_all (l : list Q) : Q := fold_left (fun maxu v => fmax v maxu) l 0.

(** [(int)x] for a [double] [x] with a whole value [z]: [z] itself when it
    is in the range of a 32-bit [int].  Outside the range the conversion is
    undefined in C++; the model takes the value that the conversion
    instruction of x86-64 leaves, [INT_MIN]. *)
Definition INT_MAX : Z := 2147483647.
Definition INT_MIN : Z := -2147483648.

Definition int_of_double (z : Z) : Z :=
  if ((INT_MIN <=? z) && (z <=? INT_MAX))%Z then z else INT_MIN.

(** [std::sqrt(3)]: the [double] nearest to the square root of 3,
    [0x3FFBB67AE8584CAA] ([sqrt3_double_nearest] below). *)
Definition sqrt3_double : Q := 7800463371553962 # 4503599627370496.

(** The stages of [_stepFluid], in the order of lines 9521-9563. *)
Inductive Stage : Type :=
| UpdateObstacleObjects
| UpdateLiquidLevelSet
| AdvectVelocityField
| CalculateFluidCurvatureGrid
| SaveVelocityField
| ApplyBodyForcesToVelocityField
| ApplyViscosityToVelocityField
| PressureSolve
| ConstrainVelocityFields
| UpdateDiffuseMaterial
| UpdateSheetSeeding
| UpdateMarkerParticleVelocities
| DeleteSavedVelocityField
| AdvanceMarkerParticles
| UpdateFluidObjects
| UpdateMarkerParticleAttributes
| OutputSimulationData.

(** What the object did, in order: the lines it wrote to [_logfile], the
    stage functions it entered and the extrapolations it asked of a MAC
    velocity field. *)
Inductive Event : Type :=
| LogSetter (name : string)
| LogSubstep (number : Z) (timeStep : Q)     (* "Substep: n / Substep Time: t" *)
| CallStage (st : Stage)                     (* the stage function was entered *)
| LogStepInfo
| LogFrameInfo
| CallExtrapolateVelocityField (numLayers : Z).

Record Settings : Type := mkSettings {
  _dx : Q;
  _density : Q;
  _markerParticleJitterFactor : Q;
  _CFLConditionNumber : Z;
  _surfaceTensionConditionNumber : Q;
  _surfaceTensionConstant : Q;
  _isSurfaceTensionEnabled : bool;
  _isSheetSeedingEnabled : bool;
  _isDiffuseMaterialOutputEnabled : bool;
  _minFrameTimeSteps : Z;
  _maxFrameTimeSteps : Z;
  _ratioPICFLIP : Q;
  _ratioPICAPIC : Q;
  _isFluidParticleDebugOutputEnabled : bool;
  _isInternalObstacleMeshOutputEnabled : bool;
  _isForceFieldDebugOutputEnabled : bool
}.

Record FrameClock : Type := mkClock {
  _currentFrame : Z;
  _currentFrameTimeStepNumber : Z;
  _currentFrameDeltaTime : Q;
  _currentFrameDeltaTimeRemaining : Q;
  _currentFrameTimeStep : Q;
  _isLastFrameTimeStep : bool;
  _isZeroLengthDeltaTime : bool;
  _isSkippedFrame : bool;
  _isCurrentFrameFinished : bool
}.

(** [_pressureSolverSuccess], [_pressureSolverIterations],
    [_pressureSolverError]. *)
Record SolverStatus : Type := mkStatus {
  success : bool;
  iterations : Z;
  error : Q
}.

(** The part of [_outputData.frameData] that [update] fills from the
    clock and the pressure solver. *)
Record FrameData : Type := mkFrameData {
  frame : Z;
  substeps : Z;
  deltaTime : Q;
  pressureSolverSuccess : Z;
  pressureSolverError : Q;
  pressureSolverIterations : Z
}.

(** [W] is everything the collaborators own: the particle store, the
    grids and level sets, the sources, the random number generator. *)
Record Sim (W : Type) : Type := mkSim {
  _isSimulationInitialized : bool;
  cfg : Settings;
  clock : FrameClock;
  _pressureSolver : SolverStatus;
  _outputData_isInitialized : bool;
  _outputData_frameData : FrameData;
  world : W;
  trace : list Event
}.

Arguments mkSim {W}.
Arguments _isSimulationInitialized {W}.
Arguments cfg {W}.
Arguments clock {W}.
Arguments _pressureSolver {W}.
Arguments _outputData_isInitialized {W}.
Arguments _outputData_frameData {W}.
Arguments world {W}.
Arguments trace {W}.

(** The collaborators of the time stepper and of the two stages that are
    embedded in full, [_advectVelocityField] and [_pressureSolve]. *)
Class Collaborators (W : Type) : Type := {
  (* <cmath> *)
  Qsqrt : Q -> Q;
  (* the random number generator of the C library *)
  srand : Z -> W -> W;
  (* the VELOCITY column of _markerParticles, and _markerParticles.empty() *)
  VELOCITY : W -> list vec3;
  markerParticles_empty : W -> bool;
  (* _isFluidGeneratingThisFrame *)
  isFluidGeneratingThisFrame : W -> bool;
  (* the speeds _predictMaximumMarkerParticleSpeed takes the maximum of,
     and the length of the constant body force *)
  predictedSourceSpeeds : W -> Q -> list Q;
  constantBodyForce : W -> vec3;
  (* the vertex speeds _getMaximumObstacleSpeed takes the maximum of
     (none when adaptive obstacle time stepping is off) *)
  obstacleVertexSpeeds : W -> Z -> Q -> list Q;
  (* a stage that is not embedded: settings, clock, dt, world *)
  runStage : Stage -> Settings -> FrameClock -> Q -> W -> W;
  (* _validVelocities.reset(); _MACVelocity.clear() *)
  clearVelocityField : W -> W;
  (* _velocityAdvector.advect(params) *)
  advect : Settings -> W -> W;
  (* MACVelocityField::extrapolateVelocityField(valid, numLayers) *)
  extrapolateVelocityField : Z -> W -> W;
  (* _updateWeightGrid *)
  updateWeightGrid : W -> W;
  (* PressureSolver::solve, getIterations, getError *)
  psolver_solve : Settings -> Q -> W -> SolverStatus;
  (* PressureSolver::applySolutionToVelocityField *)
  applySolutionToVelocityField : Settings -> Q -> W -> W
}.

Section WithWorld.

Context {W : Type} {collaborators : Collaborators W}.

(** *** Field updates *)

Definition set_cfg (c : Settings) (s : Sim W) : Sim W :=
  mkSim (_isSimulationInitialized s) c (clock s) (_pressureSolver s)
        (_outputData_isInitialized s) (_outputData_frameData s) (world s) (trace s).

Definition set_clock (c : FrameClock) (s : Sim W) : Sim W :=
  mkSim (_isSimulationInitialized s) (cfg s) c (_pressureSolver s)
        (_outputData_isInitialized s) (_outputData_frameData s) (world s) (trace s).

Definition set_pressureSolver (p : SolverStatus) (s : Sim W) : Sim W :=
  mkSim (_isSimulationInitialized s) (cfg s) (clock s) p
        (_outputData_isInitialized s) (_outputData_frameData s) (world s) (trace s).

Definition set_outputData (init : bool) (fd : FrameData) (s : Sim W) : Sim W :=
  mkSim (_isSimulationInitialized s) (cfg s) (clock s) (_pressureSolver s)
        init fd (world s) (trace s).

Definition set_world (w : W) (s : Sim W) : Sim W :=
  mkSim (_isSimulationInitialized s) (cfg s) (clock s) (_pressureSolver s)
        (_outputData_isInitialized s) (_outputData_frameData s) w (trace s).

Definition log (e : Event) (s : Sim W) : Sim W :=
  mkSim (_isSimulationInitialized s) (cfg s) (clock s) (_pressureSolver s)
        (_outputData_isInitialized s) (_outputData_frameData s) (world s)
        (trace s ++ [e]).

Definition eps6 : Q := 1 # 1000000.      (* 1e-6 *)
Definition eps9 : Q := 1 # 1000000000.   (* 1e-9 *)

(** *** Validating setters

    Every validating setter of the class has one shape: test the
    argument, throw [std::domain_error] when the test fails, otherwise
    write the log line and store the value. *)

Definition validating (bad : bool) (msg name : string)
    (store : Settings -> Settings) (s : Sim W) : outcome (Sim W) (Sim W) :=
  if bad then Raise (DomainError msg) s
  else Return (set_cfg (store (cfg s)) (log (LogSetter name) s)).

(** Lines 227-238. *)
Definition setDensity (p : Q) : Sim W -> outcome (Sim W) (Sim W) :=
  validating (Qleb p 0) "Error: density must be greater than 0." "setDensity"
    (fun c => mkSettings (_dx c) p (_markerParticleJitterFactor c)
       (_CFLConditionNumber c) (_surfaceTensionConditionNumber c)
       (_surfaceTensionConstant c) (_isSurfaceTensionEnabled c)
       (_isSheetSeedingEnabled c) (_isDiffuseMaterialOutputEnabled c)
       (_minFrameTimeSteps c) (_maxFrameTimeSteps c) (_ratioPICFLIP c)
       (_ratioPICAPIC c) (_isFluidParticleDebugOutputEnabled c)
       (_isInternalObstacleMeshOutputEnabled c) (_isForceFieldDebugOutputEnabled c)).

Definition getDensity (s : Sim W) : Q := _density (cfg s).

(** Lines 261-272. *)
Definition setMarkerParticleJitterFactor (jit : Q) : Sim W -> outcome (Sim W) (Sim W) :=
  validating (Qltb jit 0)
    "Error: marker particle jitter must be greater than or equal to 0."
    "setMarkerParticleJitterFactor"
    (fun c => mkSettings (_dx c) (_density c) jit
       (_CFLConditionNumber c) (_surfaceTensionConditionNumber c)
       (_surfaceTensionConstant c) (_isSurfaceTensionEnabled c)
       (_isSheetSeedingEnabled c) (_isDiffuseMaterialOutputEnabled c)
       (_minFrameTimeSteps c) (_maxFrameTimeSteps c) (_ratioPICFLIP c)
       (_ratioPICAPIC c) (_isFluidParticleDebugOutputEnabled c)
       (_isInternalObstacleMeshOutputEnabled c) (_isForceFieldDebugOutputEnabled c)).

Definition getMarkerParticleJitterFactor (s : Sim W) : Q :=
  _markerParticleJitterFactor (cfg s).

(** Lines 2563-2575. *)
Definition setSurfaceTension (k : Q) : Sim W -> outcome (Sim W) (Sim W) :=
  validating (Qltb k 0)
    "Error: surface tension must be greater than or equal to 0." "setSurfaceTension"
    (fun c => mkSettings (_dx c) (_density c) (_markerParticleJitterFactor c)
       (_CFLConditionNumber c) (_surfaceTensionConditionNumber c)
       k (Qltb eps6 k)
       (_isSheetSeedingEnabled c) (_isDiffuseMaterialOutputEnabled c)
       (_minFrameTimeSteps c) (_maxFrameTimeSteps c) (_ratioPICFLIP c)
       (_ratioPICAPIC c) (_isFluidParticleDebugOutputEnabled c)
       (_isInternalObstacleMeshOutputEnabled c) (_isForceFieldDebugOutputEnabled c)).

Definition getSurfaceTension (s : Sim W) : Q := _surfaceTensionConstant (cfg s).

(** Lines 2652-2664. *)
Definition setCFLConditionNumber (n : Z) : Sim W -> outcome (Sim W) (Sim W) :=
  validating (n <? 1)%Z "Error: CFL must be greater than or equal to 1."
    "setCFLConditionNumber"
    (fun c => mkSettings (_dx c) (_density c) (_markerParticleJitterFactor c)
       n (_surfaceTensionConditionNumber c)
       (_surfaceTensionConstant c) (_isSurfaceTensionEnabled c)
       (_isSheetSeedingEnabled c) (_isDiffuseMaterialOutputEnabled c)
       (_minFrameTimeSteps c) (_maxFrameTimeSteps c) (_ratioPICFLIP c)
       (_ratioPICAPIC c) (_isFluidParticleDebugOutputEnabled c)
       (_isInternalObstacleMeshOutputEnabled c) (_isForceFieldDebugOutputEnabled c)).

Definition getCFLConditionNumber (s : Sim W) : Z := _CFLConditionNumber (cfg s).

(** Lines 2670-2682. *)
Definition setSurfaceTensionConditionNumber (n : Q) : Sim W -> outcome (Sim W) (Sim W) :=
  validating (Qleb n 0) "Error: condition number must be greater than 0.0."
    "setSurfaceTensionConditionNumber"
    (fun c => mkSettings (_dx c) (_density c) (_markerParticleJitterFactor c)
       (_CFLConditionNumber c) n
       (_surfaceTensionConstant c) (_isSurfaceTensionEnabled c)
       (_isSheetSeedingEnabled c) (_isDiffuseMaterialOutputEnabled c)
       (_minFrameTimeSteps c) (_maxFrameTimeSteps c) (_ratioPICFLIP c)
       (_ratioPICAPIC c) (_isFluidParticleDebugOutputEnabled c)
       (_isInternalObstacleMeshOutputEnabled c) (_isForceFieldDebugOutputEnabled c)).

Definition getSurfaceTensionConditionNumber (s : Sim W) : Q :=
  _surfaceTensionConditionNumber (cfg s).

(** Lines 2706-2718. *)
Definition setMinTimeStepsPerFrame (n : Z) : Sim W -> outcome (Sim W) (Sim W) :=
  validating (n <? 1)%Z "Error: min step count must be greater than or equal to 1."
    "setMinTimeStepsPerFrame"
    (fun c => mkSettings (_dx c) (_density c) (_markerParticleJitterFactor c)
       (_CFLConditionNumber c) (_surfaceTensionConditionNumber c)
       (_surfaceTensionConstant c) (_isSurfaceTensionEnabled c)
       (_isSheetSeedingEnabled c) (_isDiffuseMaterialOutputEnabled c)
       n (_maxFrameTimeSteps c) (_ratioPICFLIP c)
       (_ratioPICAPIC c) (_isFluidParticleDebugOutputEnabled c)
       (_isInternalObstacleMeshOutputEnabled c) (_isForceFieldDebugOutputEnabled c)).

Definition getMinTimeStepsPerFrame (s : Sim W) : Z := _minFrameTimeSteps (cfg s).

(** Lines 2724-2736. *)
Definition setMaxTimeStepsPerFrame (n : Z) : Sim W -> outcome (Sim W) (Sim W) :=
  validating (n <? 1)%Z "Error: max step count must be greater than or equal to 1."
    "setMaxTimeStepsPerFrame"
    (fun c => mkSettings (_dx c) (_density c) (_markerParticleJitterFactor c)
       (_CFLConditionNumber c) (_surfaceTensionConditionNumber c)
       (_surfaceTensionConstant c) (_isSurfaceTensionEnabled c)
       (_isSheetSeedingEnabled c) (_isDiffuseMaterialOutputEnabled c)
       (_minFrameTimeSteps c) n (_ratioPICFLIP c)
       (_ratioPICAPIC c) (_isFluidParticleDebugOutputEnabled c)
       (_isInternalObstacleMeshOutputEnabled c) (_isForceFieldDebugOutputEnabled c)).

Definition getMaxTimeStepsPerFrame (s : Sim W) : Z := _maxFrameTimeSteps (cfg s).

(** Lines 2818-2830. *)
Definition setPICFLIPRatio (r : Q) : Sim W -> outcome (Sim W) (Sim W) :=
  validating (Qltb r 0 || Qltb 1 r)
    "Error: PICFLIP ratio must be in range [0.0, 1.0]." "setPICFLIPRatio"
    (fun c => mkSettings (_dx c) (_density c) (_markerParticleJitterFactor c)
       (_CFLConditionNumber c) (_surfaceTensionConditionNumber c)
       (_surfaceTensionConstant c) (_isSurfaceTensionEnabled c)
       (_isSheetSeedingEnabled c) (_isDiffuseMaterialOutputEnabled c)
       (_minFrameTimeSteps c) (_maxFrameTimeSteps c) r
       (_ratioPICAPIC c) (_isFluidParticleDebugOutputEnabled c)
       (_isInternalObstacleMeshOutputEnabled c) (_isForceFieldDebugOutputEnabled c)).

Definition getPICFLIPRatio (s : Sim W) : Q := _ratioPICFLIP (cfg s).

(** Lines 2836-2848. *)
Definition setPICAPICRatio (r : Q) : Sim W -> outcome (Sim W) (Sim W) :=
  validating (Qltb r 0 || Qltb 1 r)
    "Error: PICAPIC ratio must be in range [0.0, 1.0]." "setPICAPICRatio"
    (fun c => mkSettings (_dx c) (_density c) (_markerParticleJitterFactor c)
       (_CFLConditionNumber c) (_surfaceTensionConditionNumber c)
       (_surfaceTensionConstant c) (_isSurfaceTensionEnabled c)
       (_isSheetSeedingEnabled c) (_isDiffuseMaterialOutputEnabled c)
       (_minFrameTimeSteps c) (_maxFrameTimeSteps c) (_ratioPICFLIP c)
       r (_isFluidParticleDebugOutputEnabled c)
       (_isInternalObstacleMeshOutputEnabled c) (_isForceFieldDebugOutputEnabled c)).

Definition getPICAPICRatio (s : Sim W) : Q := _ratioPICAPIC (cfg s).

(** *** Speeds (lines 9586-9672) *)

Definition vlength (v : vec3) : Q := Qsqrt (dot v v).

Definition _isFluidInSimulation (s : Sim W) : bool :=
  negb (markerParticles_empty (world s)).

Definition _isFluidGeneratingThisFrame (s : Sim W) : bool :=
  isFluidGeneratingThisFrame (world s).

Definition _predictMaximumMarkerParticleSpeed (s : Sim W) (dt : Q) : Q :=
  fmax_all (predictedSourceSpeeds (world s) dt)
  + vlength (constantBodyForce (world s)) * dt.

(** [if (distsq > maxsq) maxsq = distsq;] over the velocities. *)
Fixpoint max_speed_sq (velocities : list vec3) (maxsq : Q) : Q :=
  match velocities with
  | [] => maxsq
  | v :: rest =>
      let distsq := dot v v in
      max_speed_sq rest (if Qltb maxsq distsq then distsq else maxsq)
  end.

Definition _getMaximumMarkerParticleSpeed (s : Sim W) : Q :=
  Qsqrt (max_speed_sq (VELOCITY (world s)) 0).

Definition _getMaximumObstacleSpeed (s : Sim W) (dt : Q) : Q :=
  fmax_all (obstacleVertexSpeeds (world s) (_currentFrame (clock s)) dt).

(** *** [_calculateNextTimeStep] (lines 9674-9701) *)

(** The value of [maxu] that enters the CFL quotient. *)
Definition maximumSpeed (s : Sim W) (dt : Q) : Q :=
  let maxu :=
    if ((_currentFrame (clock s) =? 0) && (_currentFrameTimeStepNumber (clock s) =? 0))%Z
    then
      (* Fluid has not yet been added to the simulation, so estimate the
         fluid speed *)
      _predictMaximumMarkerParticleSpeed s dt
    else _getMaximumMarkerParticleSpeed s in
  if _isFluidInSimulation s || _isFluidGeneratingThisFrame s
  then fmax (_getMaximumObstacleSpeed s dt) maxu
  else maxu.

(** [sqrt(dx^3) * sqrt(1 / (sigma + eps))]. *)
Definition surfaceTensionRestriction (c : Settings) : Q :=
  Qsqrt (_dx c * _dx c * _dx c) * Qsqrt (1 / (_surfaceTensionConstant c + eps6)).

(** The value of [timeStep] before it is turned into an equal division of
    the frame: the CFL limit, lowered to the surface tension limit when
    surface tension is on and fluid is present or being generated. *)
Definition stabilityLimit (s : Sim W) (dt : Q) : Q :=
  let c := cfg s in
  let timeStep := inject_Z (_CFLConditionNumber c) * _dx c / (maximumSpeed s dt + eps6) in
  if _isSurfaceTensionEnabled c
     && (_isFluidInSimulation s || _isFluidGeneratingThisFrame s)
  then fmin timeStep (_surfaceTensionConditionNumber c * surfaceTensionRestriction c)
  else timeStep.

Definition _calculateNextTimeStep (s : Sim W) (dt : Q) : Q :=
  let timeStep := stabilityLimit s dt in
  let estimatedNumFrameSubsteps :=
    Z.max (int_of_double (Qceiling (dt / timeStep))) 1 in
  dt / inject_Z estimatedNumFrameSubsteps.

(** *** Extrapolation (lines 5942-5946)

    [ceil(sqrt(3) * n)], the number that the specification names, computed
    on integers: the least [m] with [3 n^2 <= m^2] when [n] is positive,
    minus the integer square root of [3 n^2] otherwise.
    [ceil_sqrt3_times_spec] below shows that this is the ceiling of the
    real number. *)
Definition ceil_sqrt3_times (n : Z) : Z :=
  if (0 <? n)%Z then Z.sqrt_up (3 * n * n) else (- Z.sqrt (3 * n * n))%Z.

(** [(int)std::ceil(std::sqrt(3) * n) + 3] for an [int] [n], as the code
    computes it: [n] is converted to [double], which is exact, and the
    product is rounded to [double] before the ceiling is taken. *)
Definition extrapolationLayers (n : Z) : Z :=
  (int_of_double (Qceiling (Binary.round 53 (sqrt3_double * inject_Z n))) + 3)%Z.

Definition _extrapolateFluidVelocities (s : Sim W) : Sim W :=
  let numLayers := extrapolationLayers (_CFLConditionNumber (cfg s)) in
  set_world (extrapolateVelocityField numLayers (world s))
            (log (CallExtrapolateVelocityField numLayers) s).

(** *** Stages *)

(** A stage that is not embedded. *)
Definition stage (st : Stage) (dt : Q) (s : Sim W) : Sim W :=
  set_world (runStage st (cfg s) (clock s) dt (world s)) (log (CallStage st) s).

(** [_advectVelocityField] (lines 5292-5330): the particle to grid
    transfer and its extrapolation. *)
Definition _advectVelocityField (s : Sim W) : Sim W :=
  let s := log (CallStage AdvectVelocityField) s in
  let s :=
    if _isFluidInSimulation s || _isFluidGeneratingThisFrame s
    then set_world (clearVelocityField (world s)) s
    else s in
  if _isFluidInSimulation s
  then _extrapolateFluidVelocities (set_world (advect (cfg s) (world s)) s)
  else s.

(** [_pressureSolve] (lines 5820-5936). *)
Definition _pressureSolve (dt : Q) (s : Sim W) : Sim W :=
  let s := log (CallStage PressureSolve) s in
  let s := set_pressureSolver (mkStatus true 0 0) s in
  if _isFluidInSimulation s
  then
    let s := set_world (updateWeightGrid (world s)) s in
    let r := psolver_solve (cfg s) dt (world s) in
    let s :=
      if success r
      then set_world (applySolutionToVelocityField (cfg s) dt (world s)) s
      else s in
    let s :=
      if (_currentFrameTimeStepNumber (clock s) =? 0)%Z
      then set_pressureSolver r s
      else
        (* Solver status should capture the first failure state
           Otherwise, it should capture the substep with max iterations *)
        if success (_pressureSolver s)
           && (negb (success r)
               || (iterations (_pressureSolver s) <? iterations r)%Z)
        then set_pressureSolver r s
        else s in
    _extrapolateFluidVelocities s
  else s.

(** [_stepFluid] (lines 9521-9563).  The curvature grid is computed on a
    thread of its own that is joined before its first reader; here it
    runs where it is launched. *)
Definition _stepFluid (dt : Q) (s : Sim W) : Sim W :=
  let s :=
    set_world (srand (_currentFrame (clock s) + _currentFrameTimeStepNumber (clock s))%Z
                     (world s)) s in
  if _isSkippedFrame (clock s) then s
  else
    let s := stage UpdateObstacleObjects dt s in
    let s := stage UpdateLiquidLevelSet dt s in
    let s := _advectVelocityField s in
    let s :=
      if _isSurfaceTensionEnabled (cfg s) || _isSheetSeedingEnabled (cfg s)
         || _isDiffuseMaterialOutputEnabled (cfg s)
      then stage CalculateFluidCurvatureGrid dt s
      else s in
    let s := stage SaveVelocityField dt s in
    let s := stage ApplyBodyForcesToVelocityField dt s in
    let s := stage ApplyViscosityToVelocityField dt s in
    let s := _pressureSolve dt s in
    let s := stage ConstrainVelocityFields dt s in
    let s := stage UpdateDiffuseMaterial dt s in
    let s := stage UpdateSheetSeeding dt s in
    let s := stage UpdateMarkerParticleVelocities dt s in
    let s := stage DeleteSavedVelocityField dt s in
    let s := stage AdvanceMarkerParticles dt s in
    let s := stage UpdateFluidObjects dt s in
    let s := stage UpdateMarkerParticleAttributes dt s in
    stage OutputSimulationData dt s.

(** *** [update] (lines 9848-9980) *)

(** The value of [_currentFrameTimeStep] chosen at the top of the loop
    body: the next time step capped by the remaining time, then by the
    schedule of [_minFrameTimeSteps] equal substeps, and the whole of the
    remaining time on the last permitted substep. *)
Definition chooseTimeStep (substepTime dt : Q) (s : Sim W) : Q :=
  let k := clock s in
  let remaining := _currentFrameDeltaTimeRemaining k in
  let timeStep := fmin (_calculateNextTimeStep s dt) remaining in
  let timeCompleted := _currentFrameDeltaTime k - remaining in
  let stepLimit := inject_Z (_currentFrameTimeStepNumber k + 1) * substepTime in
  let timeStep :=
    if Qltb stepLimit (timeCompleted + timeStep)
    then fmin substepTime remaining
    else timeStep in
  if (_currentFrameTimeStepNumber k =? _maxFrameTimeSteps (cfg s) - 1)%Z
  then remaining
  else timeStep.

(** The body of the [do ... while] loop. *)
Definition update_body (substepTime dt : Q) (s : Sim W) : Sim W :=
  let k := clock s in
  let timeStep := chooseTimeStep substepTime dt s in
  let remaining := _currentFrameDeltaTimeRemaining k - timeStep in
  let s :=
    set_clock (mkClock (_currentFrame k) (_currentFrameTimeStepNumber k)
                       (_currentFrameDeltaTime k) remaining timeStep
                       (Qltb (Qabs remaining) eps9)
                       (_isZeroLengthDeltaTime k) (_isSkippedFrame k)
                       (_isCurrentFrameFinished k)) s in
  let s := log (LogSubstep (_currentFrameTimeStepNumber k + 1) timeStep) s in
  let s := _stepFluid timeStep s in
  let s := log LogStepInfo s in
  let k := clock s in
  set_clock (mkClock (_currentFrame k) (_currentFrameTimeStepNumber k + 1)
                     (_currentFrameDeltaTime k) (_currentFrameDeltaTimeRemaining k)
                     (_currentFrameTimeStep k) (_isLastFrameTimeStep k)
                     (_isZeroLengthDeltaTime k) (_isSkippedFrame k)
                     (_isCurrentFrameFinished k)) s.

(** [do body while (_currentFrameDeltaTimeRemaining > eps)], with a budget
    of iterations; [None] when the budget does not suffice. *)
Fixpoint update_loop (budget : nat) (substepTime dt : Q) (s : Sim W)
  : option (Sim W) :=
  match budget with
  | O => None
  | S budget' =>
      let s := update_body substepTime dt s in
      if Qltb eps9 (_currentFrameDeltaTimeRemaining (clock s))
      then update_loop budget' substepTime dt s
      else Some s
  end.

(** The state on entry to the loop. *)
Definition update_begin (dt : Q) (s : Sim W) : Sim W :=
  let c := cfg s in
  let k := clock s in
  let isZero := Qltb dt eps6 in
  let dt := fmax dt eps6 in
  let isDebuggingEnabled :=
    _isFluidParticleDebugOutputEnabled c || _isInternalObstacleMeshOutputEnabled c
    || _isForceFieldDebugOutputEnabled c in
  let s :=
    set_clock (mkClock (_currentFrame k) 0 dt dt (_currentFrameTimeStep k)
                       (_isLastFrameTimeStep k) isZero
                       (isZero && _outputData_isInitialized s && negb isDebuggingEnabled)
                       false) s in
  set_pressureSolver (mkStatus true 0 0) s.

(** The statements after the loop. *)
Definition update_end (s : Sim W) : Sim W :=
  let s := log LogFrameInfo s in
  let k := clock s in
  let p := _pressureSolver s in
  let s :=
    set_outputData true
      (mkFrameData (_currentFrame k) (_currentFrameTimeStepNumber k)
                   (_currentFrameDeltaTime k)
                   (if success p then 1 else 0)%Z (error p) (iterations p)) s in
  set_clock (mkClock (_currentFrame k + 1) (_currentFrameTimeStepNumber k)
                     (_currentFrameDeltaTime k) (_currentFrameDeltaTimeRemaining k)
                     (_currentFrameTimeStep k) (_isLastFrameTimeStep k)
                     (_isZeroLengthDeltaTime k) (_isSkippedFrame k) true) s.

Definition update (budget : nat) (dt : Q) (s : Sim W) : outcome (Sim W) (Sim W) :=
  if negb (_isSimulationInitialized s)
  then Raise (RuntimeError "Error: FluidSimulation must be initialized before update.") s
  else if Qltb dt 0
  then Raise (DomainError "Error: delta time must be greater than or equal to 0.") s
  else
    let s := update_begin dt s in
    let dt := _currentFrameDeltaTime (clock s) in
    let substepTime := dt / inject_Z (_minFrameTimeSteps (cfg s)) in
    match update_loop budget substepTime dt s with
    | None => Diverge
    | Some s => Return (update_end s)
    end.

Arguments update_body : simpl never.
Arguments chooseTimeStep : simpl never.
Arguments stabilityLimit : simpl never.
Arguments maximumSpeed : simpl never.
Arguments _stepFluid : simpl never.

(** Reduce projections of an explicit clock, and nothing else. *)
Ltac clock_simpl :=
  cbn [_currentFrame _currentFrameTimeStepNumber _currentFrameDeltaTime
       _currentFrameDeltaTimeRemaining _currentFrameTimeStep _isLastFrameTimeStep
       _isZeroLengthDeltaTime _isSkippedFrame _isCurrentFrameFinished] in *.

(** *** Properties: arithmetic *)










(** *** Properties: what the stages leave alone *)

(** The stages neither touch the settings nor the frame clock nor the
    output record. *)
Definition same_control (s s' : Sim W) : Prop :=
  _isSimulationInitialized s' = _isSimulationInitialized s
  /\ cfg s' = cfg s
  /\ clock s' = clock s
  /\ _outputData_isInitialized s' = _outputData_isInitialized s
  /\ _outputData_frameData s' = _outputData_frameData s.

(** The events of the pipeline: stage entries, and extrapolations with
    the layer count of the settings. *)
Definition pipeline_event (c : Settings) (e : Event) : Prop :=
  match e with
  | CallStage _ => True
  | CallExtrapolateVelocityField n =>
      n = extrapolationLayers (_CFLConditionNumber c)
  | _ => False
  end.

Definition runs_pipeline (s s' : Sim W) : Prop :=
  same_control s s'
  /\ exists evs, trace s' = trace s ++ evs /\ Forall (pipeline_event (cfg s)) evs.

Lemma runs_pipeline_refl (s : Sim W) : runs_pipeline s s.
Proof.
  split; [repeat split|]. exists []. split; [by rewrite app_nil_r | constructor].
Qed.

Lemma runs_pipeline_trans (s1 s2 s3 : Sim W) :
  runs_pipeline s1 s2 -> runs_pipeline s2 s3 -> runs_pipeline s1 s3.
Proof.
  intros [(Hi1 & Hc1 & Hk1 & Ho1 & Hf1) (e1 & Ht1 & He1)]
         [(Hi2 & Hc2 & Hk2 & Ho2 & Hf2) (e2 & Ht2 & He2)].
  split; [repeat split; congruence|].
  exists (e1 ++ e2). split.
  - rewrite Ht2, Ht1. by rewrite app_assoc.
  - apply Forall_app. split; [exact He1|]. by rewrite <- Hc1.
Qed.

Lemma runs_pipeline_set_world (w : W) (s : Sim W) : runs_pipeline s (set_world w s).
Proof.
  split; [repeat split|]. exists []. split; [by rewrite app_nil_r | constructor].
Qed.

Lemma runs_pipeline_log (e : Event) (s : Sim W) :
  pipeline_event (cfg s) e -> runs_pipeline s (log e s).
Proof.
  intros He. split; [repeat split|]. exists [e]. split; [reflexivity|].
  by constructor.
Qed.

Lemma runs_pipeline_stage (st : Stage) (dt : Q) (s : Sim W) :
  runs_pipeline s (stage st dt s).
Proof.
  unfold stage. eapply runs_pipeline_trans; [|apply runs_pipeline_set_world].
  by apply runs_pipeline_log.
Qed.

Lemma runs_pipeline_extrapolate (s : Sim W) :
  runs_pipeline s (_extrapolateFluidVelocities s).
Proof.
  unfold _extrapolateFluidVelocities.
  eapply runs_pipeline_trans; [|apply runs_pipeline_set_world].
  by apply runs_pipeline_log.
Qed.

Lemma runs_pipeline_advect (s : Sim W) : runs_pipeline s (_advectVelocityField s).
Proof.
  unfold _advectVelocityField.
  eapply runs_pipeline_trans; [by apply (runs_pipeline_log (CallStage AdvectVelocityField))|].
  set (s1 := log _ s).
  eapply runs_pipeline_trans with
    (s2 := if _isFluidInSimulation s1 || _isFluidGeneratingThisFrame s1
           then set_world (clearVelocityField (world s1)) s1 else s1).
  { destruct (_ || _); [apply runs_pipeline_set_world | apply runs_pipeline_refl]. }
  match goal with |- runs_pipeline ?a _ => set (s2 := a) end.
  destruct (_isFluidInSimulation s2); [|apply runs_pipeline_refl].
  eapply runs_pipeline_trans; [apply runs_pipeline_set_world|].
  apply runs_pipeline_extrapolate.
Qed.

Lemma runs_pipeline_set_pressureSolver (p : SolverStatus) (s : Sim W) :
  runs_pipeline s (set_pressureSolver p s).
Proof.
  split; [repeat split|]. exists []. split; [by rewrite app_nil_r | constructor].
Qed.

Lemma runs_pipeline_pressureSolve (dt : Q) (s : Sim W) :
  runs_pipeline s (_pressureSolve dt s).
Proof.
  unfold _pressureSolve.
  eapply runs_pipeline_trans; [by apply (runs_pipeline_log (CallStage PressureSolve))|].
  set (s1 := log _ s).
  eapply runs_pipeline_trans; [apply (runs_pipeline_set_pressureSolver (mkStatus true 0 0))|].
  set (s2 := set_pressureSolver _ s1).
  destruct (_isFluidInSimulation s2); [|apply runs_pipeline_refl].
  eapply runs_pipeline_trans; [apply (runs_pipeline_set_world (updateWeightGrid (world s2)))|].
  set (s3 := set_world _ s2).
  set (r := psolver_solve (cfg s3) dt (world s3)).
  eapply runs_pipeline_trans with
    (s2 := if success r
           then set_world (applySolutionToVelocityField (cfg s3) dt (world s3)) s3
           else s3).
  { destruct (success r); [apply runs_pipeline_set_world | apply runs_pipeline_refl]. }
  match goal with |- runs_pipeline ?a _ => set (s4 := a) end.
  eapply runs_pipeline_trans; [|apply runs_pipeline_extrapolate].
  destruct (_currentFrameTimeStepNumber (clock s4) =? 0)%Z;
    [apply runs_pipeline_set_pressureSolver|].
  destruct (_ && _); [apply runs_pipeline_set_pressureSolver | apply runs_pipeline_refl].
Qed.

Lemma runs_pipeline_stepFluid (dt : Q) (s : Sim W) : runs_pipeline s (_stepFluid dt s).
Proof.
  unfold _stepFluid. cbv zeta.
  set (s0 := set_world (srand _ (world s)) s).
  assert (H0 : runs_pipeline s s0) by apply runs_pipeline_set_world.
  destruct (_isSkippedFrame (clock s0)); [exact H0|].
  eapply runs_pipeline_trans; [exact H0|]. clear H0. generalize s0. clear s0. intros t.
  repeat match goal with
    | |- runs_pipeline ?a ?a => apply runs_pipeline_refl
    | |- runs_pipeline ?a (stage ?st ?d ?b) =>
        apply (runs_pipeline_trans a b); [|apply runs_pipeline_stage]
    | |- runs_pipeline ?a (_pressureSolve ?d ?b) =>
        apply (runs_pipeline_trans a b); [|apply runs_pipeline_pressureSolve]
    | |- runs_pipeline ?a (_advectVelocityField ?b) =>
        apply (runs_pipeline_trans a b); [|apply runs_pipeline_advect]
    | |- runs_pipeline ?a (if ?c then _ else _) => destruct c
    end.
Qed.

(** The stages entered, in order. *)
Fixpoint stagesEntered (tr : list Event) : list Stage :=
  match tr with
  | [] => []
  | CallStage st :: rest => st :: stagesEntered rest
  | _ :: rest => stagesEntered rest
  end.

Lemma stagesEntered_app (a b : list Event) :
  stagesEntered (a ++ b) = stagesEntered a ++ stagesEntered b.
Proof.
  induction a as [|e a IH]; [reflexivity|].
  destruct e; simpl; rewrite ?IH; reflexivity.
Qed.

(** [s'] is [s] after entering the stages [l], with the settings and the
    clock untouched. *)
Definition enters (s s' : Sim W) (l : list Stage) : Prop :=
  cfg s' = cfg s /\ clock s' = clock s
  /\ stagesEntered (trace s') = stagesEntered (trace s) ++ l.

Lemma enters_trans (s1 s2 s3 : Sim W) (l1 l2 : list Stage) :
  enters s1 s2 l1 -> enters s2 s3 l2 -> enters s1 s3 (l1 ++ l2).
Proof.
  intros (Hc1 & Hk1 & Ht1) (Hc2 & Hk2 & Ht2).
  split; [congruence|]. split; [congruence|].
  rewrite Ht2, Ht1. by rewrite app_assoc.
Qed.

Lemma enters_stage (st : Stage) (dt : Q) (s : Sim W) : enters s (stage st dt s) [st].
Proof.
  split; [reflexivity|]. split; [reflexivity|].
  unfold stage. cbn. by rewrite stagesEntered_app.
Qed.

Lemma enters_quiet (s s' : Sim W) :
  cfg s' = cfg s -> clock s' = clock s ->
  stagesEntered (trace s') = stagesEntered (trace s) -> enters s s' [].
Proof. intros Hc Hk Ht. split; [exact Hc|]. split; [exact Hk|]. by rewrite app_nil_r. Qed.

Lemma enters_extrapolate (s : Sim W) : enters s (_extrapolateFluidVelocities s) [].
Proof.
  apply enters_quiet; try reflexivity.
  unfold _extrapolateFluidVelocities. cbn. rewrite stagesEntered_app. cbn.
  by rewrite app_nil_r.
Qed.

Lemma enters_advect (s : Sim W) : enters s (_advectVelocityField s) [AdvectVelocityField].
Proof.
  unfold _advectVelocityField. cbv zeta.
  set (s1 := log (CallStage AdvectVelocityField) s).
  assert (H1 : enters s s1 [AdvectVelocityField]).
  { split; [reflexivity|]. split; [reflexivity|].
    subst s1. cbn. by rewrite stagesEntered_app. }
  set (s2 := if _isFluidInSimulation s1 || _isFluidGeneratingThisFrame s1
             then set_world (clearVelocityField (world s1)) s1 else s1).
  assert (H2 : enters s1 s2 []).
  { subst s2. destruct (_ || _); by apply enters_quiet. }
  assert (H3 : enters s2 (if _isFluidInSimulation s2
                          then _extrapolateFluidVelocities
                                 (set_world (advect (cfg s2) (world s2)) s2)
                          else s2) []).
  { destruct (_isFluidInSimulation s2); [|by apply enters_quiet].
    apply (enters_trans _ (set_world (advect (cfg s2) (world s2)) s2) _ [] []);
      [by apply enters_quiet | apply enters_extrapolate]. }
  exact (enters_trans _ _ _ _ _ H1 (enters_trans _ _ _ _ _ H2 H3)).
Qed.

Lemma enters_pressureSolve (dt : Q) (s : Sim W) :
  enters s (_pressureSolve dt s) [PressureSolve].
Proof.
  destruct (runs_pipeline_pressureSolve dt s) as [(_ & Hc & Hk & _) _].
  split; [exact Hc|]. split; [exact Hk|].
  unfold _pressureSolve. cbv zeta.
  set (s2 := set_pressureSolver _ (log (CallStage PressureSolve) s)).
  assert (H2 : stagesEntered (trace s2) = stagesEntered (trace s) ++ [PressureSolve]).
  { subst s2. cbn. by rewrite stagesEntered_app. }
  destruct (_isFluidInSimulation s2); [|exact H2].
  set (s3 := set_world (updateWeightGrid (world s2)) s2).
  set (r := psolver_solve (cfg s3) dt (world s3)).
  set (s4 := if success r then _ else s3).
  assert (H4 : stagesEntered (trace s4) = stagesEntered (trace s2)).
  { subst s4. by destruct (success r). }
  set (s5 := if (_currentFrameTimeStepNumber (clock s4) =? 0)%Z then _ else _).
  assert (H5 : stagesEntered (trace s5) = stagesEntered (trace s4)).
  { subst s5. destruct (_ =? _)%Z; [reflexivity|]. by destruct (_ && _). }
  destruct (enters_extrapolate s5) as (_ & _ & H6).
  rewrite H6, app_nil_r. congruence.
Qed.

Lemma enters_if_stage (c : bool) (st : Stage) (dt : Q) (s : Sim W) :
  enters s (if c then stage st dt s else s) (if c then [st] else []).
Proof. destruct c; [apply enters_stage | by apply enters_quiet]. Qed.

(** X4.  The order of the pipeline: a frame that is not skipped enters the
    stages of [_stepFluid] in this order.  In particular the velocity field
    is saved after the particle to grid transfer and before body forces,
    viscosity and the pressure solve, and the particle velocities are
    updated after the pressure solve. *)
Lemma stepFluid_stage_order (dt : Q) (s : Sim W) :
  _isSkippedFrame (clock s) = false ->
  stagesEntered (trace (_stepFluid dt s))
  = stagesEntered (trace s)
    ++ [UpdateObstacleObjects; UpdateLiquidLevelSet; AdvectVelocityField]
    ++ (if _isSurfaceTensionEnabled (cfg s) || _isSheetSeedingEnabled (cfg s)
           || _isDiffuseMaterialOutputEnabled (cfg s)
        then [CalculateFluidCurvatureGrid] else [])
    ++ [SaveVelocityField; ApplyBodyForcesToVelocityField; ApplyViscosityToVelocityField;
        PressureSolve; ConstrainVelocityFields; UpdateDiffuseMaterial;
        UpdateSheetSeeding; UpdateMarkerParticleVelocities; DeleteSavedVelocityField;
        AdvanceMarkerParticles; UpdateFluidObjects; UpdateMarkerParticleAttributes;
        OutputSimulationData].
Proof.
  intros Hsk. unfold _stepFluid. cbv zeta.
  set (s0 := set_world (srand _ (world s)) s).
  change (_isSkippedFrame (clock s0)) with (_isSkippedFrame (clock s)). rewrite Hsk.
  change (trace s) with (trace s0). change (cfg s) with (cfg s0).
  generalize s0. clear s0 Hsk. intros t.
  set (t3 := _advectVelocityField (stage UpdateLiquidLevelSet dt
                                     (stage UpdateObstacleObjects dt t))).
  assert (H3 : enters t t3 ([UpdateObstacleObjects] ++ [UpdateLiquidLevelSet]
                            ++ [AdvectVelocityField])).
  { eapply enters_trans; [apply enters_stage|].
    eapply enters_trans; [apply enters_stage | apply enters_advect]. }
  pose proof H3 as (Hc3 & _).
  set (c := _isSurfaceTensionEnabled (cfg t3) || _isSheetSeedingEnabled (cfg t3)
            || _isDiffuseMaterialOutputEnabled (cfg t3)).
  set (t4 := if c then stage CalculateFluidCurvatureGrid dt t3 else t3).
  assert (H4 : enters t3 t4 (if c then [CalculateFluidCurvatureGrid] else []))
    by apply enters_if_stage.
  set (t8 := _pressureSolve dt _).
  assert (H8 : enters t4 t8 ([SaveVelocityField] ++ [ApplyBodyForcesToVelocityField]
                             ++ [ApplyViscosityToVelocityField] ++ [PressureSolve])).
  { subst t8. repeat (eapply enters_trans; [apply enters_stage|]).
    apply enters_pressureSolve. }
  match goal with |- stagesEntered (trace ?X) = _ =>
    assert (H17 : enters t8 X
              ([ConstrainVelocityFields] ++ [UpdateDiffuseMaterial]
               ++ [UpdateSheetSeeding] ++ [UpdateMarkerParticleVelocities]
               ++ [DeleteSavedVelocityField] ++ [AdvanceMarkerParticles]
               ++ [UpdateFluidObjects] ++ [UpdateMarkerParticleAttributes]
               ++ [OutputSimulationData]))
  end.
  { repeat (eapply enters_trans; [apply enters_stage|]). apply enters_stage. }
  destruct (enters_trans _ _ _ _ _ H3 (enters_trans _ _ _ _ _ H4
              (enters_trans _ _ _ _ _ H8 H17))) as (_ & _ & Ht).
  rewrite Ht. subst c. rewrite Hc3. reflexivity.
Qed.


(** *** Properties: one iteration of the substep loop *)





(** *** Properties: the size of a substep *)

(** What the validating setters guarantee of the settings, and what is
    assumed of [std::sqrt]. *)
Definition well_configured (c : Settings) : Prop :=
  0 < _dx c
  /\ (1 <= _CFLConditionNumber c)%Z
  /\ 0 < _surfaceTensionConditionNumber c
  /\ 0 <= _surfaceTensionConstant c
  /\ (1 <= _minFrameTimeSteps c)%Z
  /\ (1 <= _maxFrameTimeSteps c)%Z.

Definition sqrt_laws : Prop :=
  (forall q, 0 <= q -> 0 <= Qsqrt q) /\ (forall q, 0 < q -> 0 < Qsqrt q).

Lemma inject_Z_pos (n : Z) : (1 <= n)%Z -> 1 <= inject_Z n.
Proof. intros Hn. change 1 with (inject_Z 1). by rewrite <- Zle_Qle. Qed.









Lemma int_of_double_in_range (z : Z) :
  (INT_MIN <= z <= INT_MAX)%Z -> int_of_double z = z.
Proof.
  intros [Hlo Hhi]. unfold int_of_double.
  apply Z.leb_le in Hlo, Hhi. by rewrite Hlo, Hhi.
Qed.






(** *** Properties: the whole frame *)

(** The substep sizes written to the log. *)
Fixpoint substepSizes (tr : list Event) : list Q :=
  match tr with
  | [] => []
  | LogSubstep _ ts :: rest => ts :: substepSizes rest
  | _ :: rest => substepSizes rest
  end.
























(** *** Properties: the setters *)

(** The contract of a validating setter [set] with getter [get] and the
    set [bad] of rejected arguments. *)
Definition setter_contract {A : Type}
    (set : A -> Sim W -> outcome (Sim W) (Sim W)) (get : Sim W -> A)
    (bad : A -> Prop) : Prop :=
  forall (v : A) (s : Sim W),
    (bad v -> exists msg, set v s = Raise (DomainError msg) s)
    /\ (~ bad v ->
        exists s', set v s = Return s' /\ get s' = v
                   /\ _isSimulationInitialized s' = _isSimulationInitialized s
                   /\ clock s' = clock s /\ world s' = world s
                   /\ _pressureSolver s' = _pressureSolver s)
    /\ (forall e s', set v s = Raise e s' -> s' = s /\ bad v).

Lemma validating_contract {A : Type} (test : A -> bool) (bad : A -> Prop)
    (msg name : string) (store : A -> Settings -> Settings) (get : Settings -> A) :
  (forall v, test v = true <-> bad v) ->
  (forall v c, get (store v c) = v) ->
  setter_contract (fun v => validating (test v) msg name (store v))
                  (fun s => get (cfg s)) bad.
Proof.
  intros Htest Hget v s. unfold validating.
  destruct (test v) eqn:E.
  - assert (Hb : bad v) by (by apply Htest).
    split; [eauto|]. split; [tauto|]. intros e s' [= <- <-]. auto.
  - assert (Hb : ~ bad v) by (rewrite <- Htest; congruence).
    split; [tauto|]. split; [|discriminate].
    intros _. eexists. split; [reflexivity|]. simpl. rewrite Hget. auto.
Qed.

Lemma ratio_test (r : Q) : Qltb r 0 || Qltb 1 r = true <-> r < 0 \/ 1 < r.
Proof. rewrite orb_true_iff, !Qltb_true. tauto. Qed.

(** C8.  [setPICFLIPRatio r] throws a domain error exactly when [r < 0] or
    [r > 1]; the object is then as it was before the call, and after a
    call that returns [getPICFLIPRatio] gives [r].  The other validating
    setters keep the same contract, each with its own range:
    [setDensity] rejects [p <= 0], [setPICAPICRatio] rejects ratios outside
    [0, 1], [setCFLConditionNumber] and the two [set...TimeStepsPerFrame]
    reject [n < 1], [setSurfaceTensionConditionNumber] rejects [n <= 0],
    [setSurfaceTension] and [setMarkerParticleJitterFactor] reject
    negative values. *)
Theorem C8_validating_setters :
  setter_contract setPICFLIPRatio getPICFLIPRatio (fun r => r < 0 \/ 1 < r)
  /\ setter_contract setDensity getDensity (fun p => p <= 0)
  /\ setter_contract setPICAPICRatio getPICAPICRatio (fun r => r < 0 \/ 1 < r)
  /\ setter_contract setCFLConditionNumber getCFLConditionNumber (fun n => (n < 1)%Z)
  /\ setter_contract setMinTimeStepsPerFrame getMinTimeStepsPerFrame (fun n => (n < 1)%Z)
  /\ setter_contract setMaxTimeStepsPerFrame getMaxTimeStepsPerFrame (fun n => (n < 1)%Z)
  /\ setter_contract setSurfaceTensionConditionNumber getSurfaceTensionConditionNumber
       (fun n => n <= 0)
  /\ setter_contract setSurfaceTension getSurfaceTension (fun k => k < 0)
  /\ setter_contract setMarkerParticleJitterFactor getMarkerParticleJitterFactor
       (fun jit => jit < 0).
Proof.
  repeat match goal with |- _ /\ _ => split end.
  - apply (validating_contract (fun r => Qltb r 0 || Qltb 1 r) _ _ _ _ _ratioPICFLIP);
      [apply ratio_test | reflexivity].
  - apply (validating_contract (fun p => Qleb p 0) _ _ _ _ _density);
      [intros; apply Qleb_true | reflexivity].
  - apply (validating_contract (fun r => Qltb r 0 || Qltb 1 r) _ _ _ _ _ratioPICAPIC);
      [apply ratio_test | reflexivity].
  - apply (validating_contract (fun n => (n <? 1)%Z) _ _ _ _ _CFLConditionNumber);
      [intros; apply Z.ltb_lt | reflexivity].
  - apply (validating_contract (fun n => (n <? 1)%Z) _ _ _ _ _minFrameTimeSteps);
      [intros; apply Z.ltb_lt | reflexivity].
  - apply (validating_contract (fun n => (n <? 1)%Z) _ _ _ _ _maxFrameTimeSteps);
      [intros; apply Z.ltb_lt | reflexivity].
  - apply (validating_contract (fun n => Qleb n 0) _ _ _ _ _surfaceTensionConditionNumber);
      [intros; apply Qleb_true | reflexivity].
  - apply (validating_contract (fun k => Qltb k 0) _ _ _ _ _surfaceTensionConstant);
      [intros; apply Qltb_true | reflexivity].
  - apply (validating_contract (fun j => Qltb j 0) _ _ _ _ _markerParticleJitterFactor);
      [intros; apply Qltb_true | reflexivity].
Qed.

(** *** Properties: the pressure solver status *)

(** After the first substep, a solve that succeeds with at least one
    iteration becomes the recorded status whatever was recorded before:
    [_pressureSolve] starts by setting the status to (success, 0, 0). *)
Lemma pressureSolve_records_last (dt : Q) (s : Sim W) :
  let r := psolver_solve (cfg s) dt (updateWeightGrid (world s)) in
  _currentFrameTimeStepNumber (clock s) <> 0%Z ->
  _isFluidInSimulation s = true ->
  success r = true -> (0 < iterations r)%Z ->
  _pressureSolver (_pressureSolve dt s) = r.
Proof.
  intros r Hk Hfluid Hok Hit. unfold _pressureSolve. cbv zeta.
  change (_isFluidInSimulation (set_pressureSolver _ (log _ s)))
    with (_isFluidInSimulation s).
  rewrite Hfluid. cbn. fold r. rewrite Hok. cbn.
  apply Z.eqb_neq in Hk. rewrite Hk.
  apply Z.ltb_lt in Hit. rewrite Hit. reflexivity.
Qed.

(** *** Properties: extrapolation *)

(** [sqrt3_double] has 53 significant bits, and the square root of 3 is
    less than half a unit in its last place away. *)
Lemma sqrt3_double_nearest :
  (2 ^ 52 <= 7800463371553962 < 2 ^ 53)%Z
  /\ (sqrt3_double - (1 # 2 ^ 53)) * (sqrt3_double - (1 # 2 ^ 53)) < 3
  /\ 3 < (sqrt3_double + (1 # 2 ^ 53)) * (sqrt3_double + (1 # 2 ^ 53)).
Proof. vm_compute. repeat split; discriminate. Qed.

Lemma half_ulp_bound (x u : Q) :
  u * 4503599627370496 <= x -> x * (1 - (1 # 9007199254740992)) <= x - u / 2.
Proof.
  intros H. assert (E : u / 2 == u * (1 # 2)) by field. rewrite E. lra.
Qed.

Section Sqrt3.
Local Open Scope Z_scope.

Lemma sqrt3_times (n : Z) : 0 <= n -> (sqrt 3 * IZR n = sqrt (IZR (3 * n * n)))%R.
Proof.
  intros Hn.
  replace (IZR (3 * n * n)) with (3 * (IZR n * IZR n))%R
    by (rewrite !mult_IZR; ring).
  rewrite sqrt_mult_alt by lra.
  rewrite sqrt_square; [reflexivity | by apply IZR_le].
Qed.

Lemma IZR_le_sqrt (a r : Z) : 0 <= r -> r * r <= a -> (IZR r <= sqrt (IZR a))%R.
Proof.
  intros Hr Ha.
  rewrite <- (sqrt_square (IZR r)) by (by apply IZR_le).
  apply sqrt_le_1_alt. rewrite <- mult_IZR. by apply IZR_le.
Qed.

Lemma IZR_lt_sqrt (a r : Z) : 0 <= r -> r * r < a -> (IZR r < sqrt (IZR a))%R.
Proof.
  intros Hr Ha.
  rewrite <- (sqrt_square (IZR r)) by (by apply IZR_le).
  apply sqrt_lt_1_alt. rewrite <- mult_IZR.
  split; [apply IZR_le | apply IZR_lt]; lia.
Qed.

Lemma sqrt_lt_IZR (a r : Z) : 0 <= r -> 0 <= a < r * r -> (sqrt (IZR a) < IZR r)%R.
Proof.
  intros Hr Ha.
  rewrite <- (sqrt_square (IZR r)) by (by apply IZR_le).
  apply sqrt_lt_1_alt. rewrite <- mult_IZR.
  split; [apply IZR_le | apply IZR_lt]; lia.
Qed.

Lemma sqrt_le_IZR (a r : Z) : 0 <= r -> 0 <= a <= r * r -> (sqrt (IZR a) <= IZR r)%R.
Proof.
  intros Hr Ha.
  rewrite <- (sqrt_square (IZR r)) by (by apply IZR_le).
  apply sqrt_le_1_alt. rewrite <- mult_IZR. apply IZR_le; lia.
Qed.

(** [ceil_sqrt3_times n] is the ceiling of the real number [sqrt 3 * n]. *)
Lemma ceil_sqrt3_times_spec (n : Z) :
  (IZR (ceil_sqrt3_times n) - 1 < sqrt 3 * IZR n <= IZR (ceil_sqrt3_times n))%R.
Proof.
  unfold ceil_sqrt3_times. destruct (Z.ltb_spec 0 n) as [Hn|Hn].
  - rewrite sqrt3_times by lia.
    assert (Ha : 0 < 3 * n * n) by nia.
    pose proof (Z.sqrt_up_spec _ Ha) as [H1 H2].
    assert (Hm : 0 < Z.sqrt_up (3 * n * n)) by (apply Z.sqrt_up_pos; lia).
    set (m := Z.sqrt_up (3 * n * n)) in *.
    split.
    + replace (IZR m - 1)%R with (IZR (m - 1)) by (rewrite minus_IZR; reflexivity).
      apply IZR_lt_sqrt; [lia|]. unfold Z.pred in H1.
      replace (m - 1) with (m + -1) by lia. nia.
    + apply sqrt_le_IZR; [lia|]. nia.
  - replace (IZR n) with (- IZR (- n))%R by (rewrite opp_IZR; ring).
    replace (sqrt 3 * - IZR (- n))%R with (- (sqrt 3 * IZR (- n)))%R by ring.
    rewrite sqrt3_times by lia.
    replace (3 * - n * - n) with (3 * n * n) by ring.
    assert (Ha : 0 <= 3 * n * n) by nia.
    pose proof (Z.sqrt_spec _ Ha) as [H1 H2].
    pose proof (Z.sqrt_nonneg (3 * n * n)) as Hs.
    set (m := Z.sqrt (3 * n * n)) in *.
    rewrite opp_IZR.
    assert (IZR m <= sqrt (IZR (3 * n * n)))%R by (apply IZR_le_sqrt; lia).
    assert (sqrt (IZR (3 * n * n)) < IZR (m + 1))%R.
    { apply sqrt_lt_IZR; [lia|]. unfold Z.succ in H2. nia. }
    rewrite plus_IZR in *. lra.
Qed.

Lemma Qceiling_unique (q : Q) (r : Z) :
  (inject_Z (r - 1) < q)%Q -> (q <= inject_Z r)%Q -> Qceiling q = r.
Proof.
  intros Hlo Hhi.
  assert (H1 : Qceiling q <= r).
  { rewrite <- (Qceiling_Z r). by apply Qceiling_resp_le. }
  pose proof (Qle_ceiling q) as H2.
  assert (H3 : (inject_Z (r - 1) < inject_Z (Qceiling q))%Q) by lra.
  rewrite <- Zlt_Qlt in H3. lia.
Qed.

(** The rounding of the product does not change the ceiling as long as
    the CFL number is at most 30 000 000. *)
Lemma extrapolationLayers_exact (n : Z) :
  1 <= n <= 30000000 -> extrapolationLayers n = ceil_sqrt3_times n + 3.
Proof.
  intros [Hn1 HnB]. unfold extrapolationLayers, ceil_sqrt3_times.
  destruct (Z.ltb_spec 0 n) as [_|?]; [|lia].
  assert (Ha : 0 < 3 * n * n) by nia.
  destruct (Z.sqrt_up_spec _ Ha) as [Hlo Hhi].
  set (r := Z.sqrt_up (3 * n * n)) in *. unfold Z.pred in Hlo.
  assert (Hr : 2 <= r) by nia.
  set (x := (sqrt3_double * inject_Z n)%Q).
  set (N := inject_Z n).
  assert (HN1 : (1 <= N)%Q) by (unfold N; change 1%Q with (inject_Z 1); by rewrite <- Zle_Qle).
  assert (HNB : (N <= 30000000)%Q)
    by (unfold N; change 30000000%Q with (inject_Z 30000000); by rewrite <- Zle_Qle).
  assert (Hc : (1 < sqrt3_double /\ sqrt3_double < 2
                /\ sqrt3_double * sqrt3_double < 3)%Q).
  { unfold sqrt3_double. repeat split; reflexivity. }
  destruct Hc as (Hc1 & Hc2 & Hc3).
  assert (Hx1 : (1 <= x)%Q) by (unfold x; fold N; nra).
  assert (Hx2 : (x < 60000000)%Q) by (unfold x; fold N; nra).
  assert (HM : (inject_Z ((r - 1) * (r - 1)) <= 3 * N * N - 1)%Q).
  { unfold N. change 3%Q with (inject_Z 3). change 1%Q with (inject_Z 1).
    rewrite <- !inject_Z_mult. unfold Qminus. change (- inject_Z 1)%Q with (inject_Z (-1)).
    rewrite <- inject_Z_plus, <- Zle_Qle. replace (r - 1) with (r + -1) by lia. lia. }
  assert (HR : (3 * N * N <= inject_Z (r * r))%Q).
  { unfold N. change 3%Q with (inject_Z 3). rewrite <- !inject_Z_mult, <- Zle_Qle. lia. }
  rewrite inject_Z_mult in HM, HR.
  set (R := inject_Z r) in *. set (M := inject_Z (r - 1)) in *.
  assert (HR0 : (2 <= R)%Q) by (unfold R; change 2%Q with (inject_Z 2); by rewrite <- Zle_Qle).
  assert (HM0 : (0 <= M)%Q) by (unfold M; change 0%Q with (inject_Z 0); rewrite <- Zle_Qle; lia).
  assert (Hxx : (x * x < 3 * N * N)%Q).
  { unfold x. fold N.
    assert (E : (sqrt3_double * N * (sqrt3_double * N)
                 == sqrt3_double * sqrt3_double * (N * N))%Q) by ring.
    rewrite E. assert (0 < N * N)%Q by nra. nra. }
  assert (HxR : (x <= R)%Q).
  { destruct (Qlt_le_dec R x) as [Hgt|Hle]; [|exact Hle]. exfalso. nra. }
  (* the exponent and the unit in the last place *)
  destruct (Binary.exponent_spec x Hx1) as (He0 & Helo & _).
  assert (He : Binary.exponent x <= 53 - 1).
  { destruct (Z_le_gt_dec (Binary.exponent x) 52) as [?|Hbig]; [lia|]. exfalso.
    assert (2 ^ 53 <= 2 ^ Binary.exponent x) by (apply Z.pow_le_mono_r; lia).
    assert (inject_Z (2 ^ 53) <= inject_Z (2 ^ Binary.exponent x))%Q by (by rewrite <- Zle_Qle).
    change (inject_Z (2 ^ 53)) with 9007199254740992%Q in *. lra. }
  destruct (Binary.ulp_spec 53 x Hx1 He) as (_ & _ & Hulp).
  set (u := Binary.pow2 (Binary.exponent x - (53 - 1))) in *.
  change (inject_Z (2 ^ (53 - 1))) with 4503599627370496%Q in Hulp.
  assert (Hu0 : (0 < u)%Q).
  { destruct (Binary.ulp_spec 53 x Hx1 He) as (Hk & Hpow & _). fold u in Hpow.
    rewrite Hpow. apply Qlt_shift_div_l; [|lra].
    change 0%Q with (inject_Z 0). rewrite <- Zlt_Qlt. apply Z.pow_pos_nonneg; lia. }
  (* x is more than half a unit above r - 1 *)
  set (d := (1 - (1 # 9007199254740992))%Q).
  assert (Hy : (x * d <= x - u / 2)%Q) by (by apply half_ulp_bound).
  assert (Hg : (0 < 3 - sqrt3_double * sqrt3_double * (d * d)
                /\ (3 - sqrt3_double * sqrt3_double * (d * d)) * (30000000 * 30000000) < 1)%Q).
  { unfold d, sqrt3_double. split; reflexivity. }
  set (g := (3 - sqrt3_double * sqrt3_double * (d * d))%Q) in *.
  destruct Hg as [Hg0 HgB].
  assert (HNN : (N * N <= 30000000 * 30000000)%Q) by nra.
  assert (HgN : (g * (N * N) < 1)%Q).
  { assert (g * (N * N) <= g * (30000000 * 30000000))%Q by (apply Qmult_le_l; lra). lra. }
  assert (Hd0 : (0 < d)%Q) by (unfold d; reflexivity).
  assert (Hyy : (M * M < x * d * (x * d))%Q).
  { assert (E : (x * d * (x * d) == 3 * N * N - g * (N * N))%Q).
    { unfold x, g. fold N. ring. }
    rewrite E. lra. }
  assert (HMy : (M < x * d)%Q).
  { destruct (Qlt_le_dec M (x * d)) as [Hlt|Hle]; [exact Hlt|]. exfalso.
    assert (0 < x * d)%Q by nra. nra. }
  destruct (Binary.round_between 53 x (r - 1) Hx1 He) as [Hrlo Hrhi].
  { fold u M. lra. }
  { replace (r - 1 + 1) with r by lia. exact HxR. }
  replace (r - 1 + 1) with r in Hrhi by lia.
  rewrite (Qceiling_unique _ r Hrlo Hrhi).
  rewrite int_of_double_in_range; [reflexivity|].
  assert (inject_Z r <= inject_Z 60000000)%Q.
  { destruct (Qlt_le_dec 60000000 R) as [Hgt|Hle]; [|exact Hle]. exfalso.
    assert (HMbig : (60000000 <= M)%Q).
    { unfold M. change 60000000%Q with (inject_Z 60000000). rewrite <- Zle_Qle.
      unfold R in Hgt. change 60000000%Q with (inject_Z 60000000) in Hgt.
      rewrite <- Zlt_Qlt in Hgt. lia. }
    assert (Eh : (u / 2 == u * (1 # 2))%Q) by field. rewrite Eh in Hy. lra. }
  rewrite <- Zle_Qle in H. unfold INT_MIN, INT_MAX. lia.
Qed.


End Sqrt3.

(** C7 (as amended).  Every extrapolation of fluid velocities passes
    [(int)ceil(sqrt(3) * CFL) + 3] layers to the MAC grid, the product
    being rounded to [double]: [_extrapolateFluidVelocities] does, and it
    is the only extrapolation that the particle to grid transfer
    ([_advectVelocityField]), the pressure solve and the whole of
    [_stepFluid] ask for.  For a CFL condition number from 1 to
    30 000 000 that number is the ceiling of the real number
    [sqrt(3) * CFL], plus 3. *)
Theorem C7_extrapolation_layers (dt : Q) (s : Sim W) :
  let layers := extrapolationLayers (_CFLConditionNumber (cfg s)) in
  trace (_extrapolateFluidVelocities s)
  = trace s ++ [CallExtrapolateVelocityField layers]
  /\ world (_extrapolateFluidVelocities s) = extrapolateVelocityField layers (world s)
  /\ (forall s',
        s' = _advectVelocityField s \/ s' = _pressureSolve dt s \/ s' = _stepFluid dt s ->
        exists evs,
          trace s' = trace s ++ evs
          /\ forall m, In (CallExtrapolateVelocityField m) evs -> m = layers)
  /\ ((1 <= _CFLConditionNumber (cfg s) <= 30000000)%Z ->
      (IZR layers - 3 - 1 < sqrt 3 * IZR (_CFLConditionNumber (cfg s)) <= IZR layers - 3)%R).
Proof.
  intros layers.
  split; [reflexivity|]. split; [reflexivity|]. split.
  - intros s' Hs'.
    assert (Hrun : runs_pipeline s s').
    { destruct Hs' as [->|[->| ->]];
        [apply runs_pipeline_advect | apply runs_pipeline_pressureSolve
        | apply runs_pipeline_stepFluid]. }
    destruct Hrun as [_ (evs & Ht & He)].
    exists evs. split; [exact Ht|].
    intros m Hm. apply list_elem_of_In in Hm.
    rewrite Forall_forall in He. exact (He _ Hm).
  - intros Hcfl. subst layers. rewrite (extrapolationLayers_exact _ Hcfl).
    pose proof (ceil_sqrt3_times_spec (_CFLConditionNumber (cfg s))) as Hc.
    rewrite plus_IZR. lra.
Qed.

End WithWorld.
End Engine.

(** ** A small scene: one particle, scripted pressure solves *)

Module Scenario.
Import Engine.

(** The world of the scene: the speed of its particle at each substep
    (3/4 where the list ends), the number of substeps advanced so far, and
    the results the pressure solver will report, one per substep. *)
Record World : Type := mkWorld {
  speeds : list Q;
  substepsDone : nat;
  solves : list SolverStatus
}.

(** A square root that is exact on squares of rationals:
    [floor(sqrt(n * d)) / d] for [n / d]. *)
Definition Qsqrt_floor (q : Q) : Q := Z.sqrt (Qnum q * Zpos (Qden q)) # Qden q.

#[local] Instance scene : Collaborators World := {|
  Qsqrt := Qsqrt_floor;
  srand := fun _ w => w;
  VELOCITY := fun w => [mkvec3 (nth (substepsDone w) (speeds w) (3 # 4)) 0 0];
  markerParticles_empty := fun _ => false;
  isFluidGeneratingThisFrame := fun _ => false;
  predictedSourceSpeeds := fun _ _ => [];
  constantBodyForce := fun _ => mkvec3 0 0 0;
  obstacleVertexSpeeds := fun _ _ _ => [];
  runStage := fun st _ _ _ w =>
    match st with
    | AdvanceMarkerParticles => mkWorld (speeds w) (S (substepsDone w)) (solves w)
    | _ => w
    end;
  clearVelocityField := fun w => w;
  advect := fun _ w => w;
  extrapolateVelocityField := fun _ w => w;
  updateWeightGrid := fun w => w;
  psolver_solve := fun _ _ w => nth (substepsDone w) (solves w) (mkStatus true 0 0);
  applySolutionToVelocityField := fun _ _ w => w
|}.

(** dx = 0.1, CFL 5, between 1 and 8 substeps per frame, no surface
    tension, no debug output. *)
Definition settings : Settings :=
  mkSettings (1 # 10) 1000 1 5 6 0 false false false 1 8 (97 # 100) (97 # 100)
             false false false.

(** Frame 3 of a simulation whose only particle moves at speed 3/4: the
    CFL quotient is [0.5 / (0.75 + 1e-6)], a little under 2/3.  The
    pressure solver fails on the first substep (200 iterations, error 1/2)
    and succeeds on the second (7 iterations). *)
Definition scene_state : Sim World :=
  mkSim true settings
        (mkClock 3 0 0 0 0 false false false true)
        (mkStatus true 0 0) true (mkFrameData 2 1 1 1 0 0)
        (mkWorld [] 0 [mkStatus false 200 (1 # 2); mkStatus true 7 (1 # 1000)])
        [].


Lemma scene_sqrt_laws : sqrt_laws.
Proof.
  split; intros [n d] Hq; unfold Qle, Qlt in *; simpl in *.
  - pose proof (Z.sqrt_nonneg (n * Z.pos d)). lia.
  - assert (0 < Z.sqrt (n * Z.pos d))%Z by (apply Z.sqrt_pos; nia). lia.
Qed.


(** The frame of length 1 takes two substeps of 1/2. *)
Lemma scene_substeps :
  match update 8 1 scene_state with
  | Return s' => substepSizes (trace s') = [1 # 2; 1 # 2]
  | _ => False
  end.
Proof. vm_compute. reflexivity. Qed.



(** The scene with the CFL condition number 80198051. *)
Definition large_cfl_state : Sim World :=
  mkSim true
        (mkSettings (1 # 10) 1000 1 80198051 6 0 false false false 1 8 (97 # 100)
                    (97 # 100) false false false)
        (mkClock 3 0 0 0 0 false false false true)
        (mkStatus true 0 0) true (mkFrameData 2 1 1 1 0 0)
        (mkWorld [] 0 [])
        [].

(** C7 as the specification states it fails for the CFL condition number
    80198051: [sqrt(3) * 80198051] is a little above 138907099, the
    product of the two [double] numbers rounds to 138907099, and the
    extrapolation is asked for 138907102 layers where
    [ceil(sqrt(3) * CFL) + 3] is 138907103. *)
Lemma C7_counterexample :
  trace (_extrapolateFluidVelocities large_cfl_state)
  = trace large_cfl_state ++ [CallExtrapolateVelocityField 138907102]
  /\ ~ (IZR 138907102 - 3 - 1
        < sqrt 3 * IZR (_CFLConditionNumber (cfg large_cfl_state))
        <= IZR 138907102 - 3)%R.
Proof.
  split; [vm_compute; reflexivity|].
  pose proof (ceil_sqrt3_times_spec 80198051) as [Hlo _].
  assert (E : ceil_sqrt3_times 80198051 = 138907100%Z) by (vm_compute; reflexivity).
  rewrite E in Hlo.
  change (_CFLConditionNumber (cfg large_cfl_state)) with 80198051%Z.
  intros [_ Hhi]. lra.
Qed.

(** On the scene, with the CFL condition number 5, the 12 layers are
    [ceil(sqrt(3) * 5) + 3]. *)
Lemma C7_witness :
  extrapolationLayers 5 = 12%Z
  /\ (IZR (extrapolationLayers 5) - 3 - 1 < sqrt 3 * IZR 5
      <= IZR (extrapolationLayers 5) - 3)%R.
Proof.
  split; [vm_compute; reflexivity|].
  destruct (C7_extrapolation_layers 1 scene_state) as (_ & _ & _ & Hreal).
  apply Hreal. cbn. lia.
Defined.


(** *** The pressure solver status over the two substeps

    The reduction that the comment in [_pressureSolve] and the
    specification describe: the first failure, otherwise the success with
    the most iterations. *)
Definition spec_status_step (recorded r : SolverStatus) : SolverStatus :=
  if success recorded && (negb (success r) || (iterations recorded <? iterations r)%Z)
  then r
  else recorded.

Definition spec_status_reduce (results : list SolverStatus) : SolverStatus :=
  match results with
  | [] => mkStatus true 0 0
  | r :: rest => fold_left spec_status_step rest r
  end.

(** C3 (the code differs).  On the scene the first substep's solve fails
    and the second succeeds.  The reduction of the specification keeps the
    failure; the frame statistics written by [update] report success with
    the 7 iterations of the second substep. *)
Theorem C3_first_failure_is_lost :
  spec_status_reduce (solves (world scene_state)) = mkStatus false 200 (1 # 2)
  /\ match update 8 1 scene_state with
     | Return s' =>
         substeps (_outputData_frameData s') = 2%Z
         /\ pressureSolverSuccess (_outputData_frameData s') = 1%Z
         /\ pressureSolverIterations (_outputData_frameData s') = 7%Z
         /\ _pressureSolver s' = mkStatus true 7 (1 # 1000)
     | _ => False
     end.
Proof. vm_compute. repeat split. Qed.

End Scenario.

(** ** Grid indices and boxes *)

Module Grid3d.

Record GridIndex : Type := mkGridIndex { i : Z; j : Z; k : Z }.

#[global] Instance GridIndex_eq_dec : EqDecision GridIndex.
Proof. solve_decision. Defined.

#[global] Instance GridIndex_countable : Countable GridIndex.
Proof.
  apply (inj_countable' (fun g => (i g, j g, k g))
                        (fun t => mkGridIndex t.1.1 t.1.2 t.2)).
  by intros [].
Defined.

(** Modelled from the spec: [Grid3d::positionToGridIndex] (grid3d.h is not
    under src/).  The domain is a grid of cubical cells with edge length
    [dx]; the index of the cell that contains [p] is the floor of [p / dx]
    on each axis. *)
Definition positionToGridIndex (p : vec3) (dx : Q) : GridIndex :=
  mkGridIndex (Qfloor (x p / dx)) (Qfloor (y p / dx)) (Qfloor (z p / dx)).

(** Modelled from the spec: [Grid3d::GridIndexToCellCenter], the centre of
    cell [g]. *)
Definition GridIndexToCellCenter (g : GridIndex) (dx : Q) : vec3 :=
  mkvec3 (inject_Z (i g) * dx + (1 # 2) * dx)
         (inject_Z (j g) * dx + (1 # 2) * dx)
         (inject_Z (k g) * dx + (1 # 2) * dx).

(** Modelled from the spec: [Grid3d::isGridIndexInRange], membership in the
    [imax x jmax x kmax] index range. *)
Definition isGridIndexInRange (g : GridIndex) (imax jmax kmax : Z) : bool :=
  ((0 <=? i g) && (0 <=? j g) && (0 <=? k g)
   && (i g <? imax) && (j g <? jmax) && (k g <? kmax))%Z.

End Grid3d.

Module AABB.

(** Modelled from the spec: the axis aligned box class [AABB] (aabb.h is
    not under src/), built as [AABB(x, y, z, width, height, depth)].  The
    spec only says that positions are kept "inside" a box: a point is
    inside from the minimum corner up to, not including, the maximum
    corner; [expand v] grows every extent by [v] about the centre; the
    nearest inside point clamps each coordinate into the box, staying
    1e-6 below the maximum corner. *)
Record t : Type := mk { position : vec3; width : Q; height : Q; depth : Q }.

Definition getMinPoint (b : t) : vec3 := position b.

Definition getMaxPoint (b : t) : vec3 :=
  (position b + mkvec3 (width b) (height b) (depth b))%vec.

Definition expand (v : Q) (b : t) : t :=
  let h := (1 # 2) * v in
  mk (position b - mkvec3 h h h)%vec (width b + v) (height b + v) (depth b + v).

Definition isPointInside (b : t) (p : vec3) : bool :=
  Qleb (x (position b)) (x p) && Qleb (y (position b)) (y p)
  && Qleb (z (position b)) (z p)
  && Qltb (x p) (x (position b) + width b) && Qltb (y p) (y (position b) + height b)
  && Qltb (z p) (z (position b) + depth b).








End AABB.

(** ** The particle store and particle advancement *)

Module Particles.

Record MarkerParticle : Type := mkMarkerParticle { position : vec3; velocity : vec3 }.

(** [_markerParticles]: the POSITION and VELOCITY columns.  The optional
    attribute columns (source id, viscosity, lifetime, colour, id) are
    pushed to under the same guard as these two and are left out. *)
Record ParticleSystem : Type := mkParticleSystem {
  POSITION : list vec3;
  VELOCITY : list vec3
}.

Section Store.

Variable _isize _jsize _ksize : Z.
Variable _dx : Q.

Definition inGrid (p : vec3) : bool :=
  Grid3d.isGridIndexInRange (Grid3d.positionToGridIndex p _dx) _isize _jsize _ksize.

(** [_addMarkerParticles] (lines 4121-4183). *)
Definition _addMarkerParticles (particles : list MarkerParticle) (ps : ParticleSystem)
  : ParticleSystem :=
  fold_left
    (fun ps mp =>
       if inGrid (position mp)
       then mkParticleSystem (POSITION ps ++ [position mp]) (VELOCITY ps ++ [velocity mp])
       else ps)
    particles ps.

(** [_getBoundaryAABB] (lines 4844-4849). *)
Definition _getBoundaryAABB : AABB.t :=
  let eps := 1 # 10000 in
  let domainAABB :=
    AABB.mk (mkvec3 0 0 0) (inject_Z _isize * _dx) (inject_Z _jsize * _dx)
            (inject_Z _ksize * _dx) in
  AABB.expand (- (3) * _dx - eps) domainAABB.

(** *** Collisions (lines 7145-7229) *)

(** The solid level set, the near-solid grid and the vector norm belong to
    other files of the engine. *)
Variable solidSDF_trilinearInterpolate : vec3 -> Q.
Variable solidSDF_trilinearInterpolateGradient : vec3 -> vec3.
Variable _nearSolidGrid : Grid3d.GridIndex -> bool.
Variable length : vec3 -> Q.
Variable normalize : vec3 -> vec3.

Variable _nearSolidGridCellSize : Q.
Variable _markerParticleStepDistanceFactor : Q.
Variable _CFLConditionNumber : Z.
Variable _solidBufferWidth : Q.





(** *** The quantities that decide what [_resolveCollision] returns *)





(** *** Properties *)

Lemma addMarkerParticles_columns (particles : list MarkerParticle) :
  forall ps,
    POSITION (_addMarkerParticles particles ps)
    = POSITION ps ++ map position (List.filter (fun mp => inGrid (position mp)) particles)
    /\ VELOCITY (_addMarkerParticles particles ps)
       = VELOCITY ps ++ map velocity (List.filter (fun mp => inGrid (position mp)) particles).
Proof.
  unfold _addMarkerParticles.
  induction particles as [|mp l IH]; intros ps; simpl.
  - by rewrite !app_nil_r.
  - destruct (inGrid (position mp)); simpl.
    + destruct (IH (mkParticleSystem (POSITION ps ++ [position mp])
                                     (VELOCITY ps ++ [velocity mp]))) as [H1 H2].
      rewrite H1, H2. simpl. by rewrite <- !app_assoc.
    + apply IH.
Qed.


(** A position is clear: inside the boundary and not in the solid. *)
Definition clear (boundary : AABB.t) (p : vec3) : Prop :=
  AABB.isPointInside boundary p = true /\ 0 <= solidSDF_trilinearInterpolate p.








End Store.







End Particles.

(** ** Fluid sources: outflow *)

Module Outflow.
Import Particles.

(** Modelled from the spec: [Array3d<bool>] (array3d.h is not under src/),
    a dense grid with get and set by (i, j, k); an index outside
    [width x height x depth] is refused ([None] stands for the
    out-of-range exception). *)
Record Array3d_bool : Type := mkArray3d {
  width : Z; height : Z; depth : Z;
  cell : Grid3d.GridIndex -> bool
}.

Definition isIndexInRange (a : Array3d_bool) (g : Grid3d.GridIndex) : bool :=
  Grid3d.isGridIndexInRange g (width a) (height a) (depth a).

Definition fill (v : bool) (a : Array3d_bool) : Array3d_bool :=
  mkArray3d (width a) (height a) (depth a) (fun _ => v).

Definition set (g : Grid3d.GridIndex) (v : bool) (a : Array3d_bool) : option Array3d_bool :=
  if isIndexInRange a g
  then Some (mkArray3d (width a) (height a) (depth a)
                       (fun g' => if decide (g' = g) then v else cell a g'))
  else None.

Fixpoint set_all (cells : list Grid3d.GridIndex) (v : bool) (a : Array3d_bool)
  : option Array3d_bool :=
  match cells with
  | [] => Some a
  | g :: rest => match set g v a with Some a' => set_all rest v a' | None => None end
  end.

Definition get (a : Array3d_bool) (g : Grid3d.GridIndex) : option bool :=
  if isIndexInRange a g then Some (cell a g) else None.

(** Modelled from the spec: [ParticleSystem::removeParticles(mask)] deletes
    the slots whose mask entry is true and keeps the relative order of the
    others, in every column. *)
Fixpoint remove_masked {A : Type} (mask : list bool) (column : list A) : list A :=
  match mask, column with
  | m :: mask', a :: column' =>
      if m then remove_masked mask' column' else a :: remove_masked mask' column'
  | _, _ => []
  end.

Definition removeParticles (isRemoved : list bool) (ps : ParticleSystem) : ParticleSystem :=
  mkParticleSystem (remove_masked isRemoved (POSITION ps))
                   (remove_masked isRemoved (VELOCITY ps)).

(** What [_updateOutflowMeshFluidSource] reads of a [MeshFluidSource]
    once it has been moved to the current frame ([setFrame], [update]):
    its flags, the cells of [getCells], the interpolation of its level set
    and the offset of that level set. *)
Record MeshFluidSource : Type := mkSource {
  isEnabled : bool;
  isFluidOutflowEnabled : bool;
  isDiffuseOutflowEnabled : bool;
  isOutflowInversed : bool;
  getCells : list Grid3d.GridIndex;
  trilinearInterpolate : vec3 -> Q;
  getMeshLevelSetOffset : vec3
}.

Section Outflow.

Variable _isize _jsize _ksize : Z.
Variable _dx : Q.

(** The test of the loop body, once the cell is known to be an outflow
    cell. *)
Definition beyond (source : MeshFluidSource) (p : vec3) : bool :=
  let d := trilinearInterpolate source (p - getMeshLevelSetOffset source)%vec in
  if isOutflowInversed source then Qleb 0 d else Qltb d 0.

(** The mask of the marker particles: [isOutflowCell(g)] is read without
    a range test. *)
Fixpoint markerMask (source : MeshFluidSource) (isOutflowCell : Array3d_bool)
    (positions : list vec3) : option (list bool) :=
  match positions with
  | [] => Some []
  | p :: rest =>
      let g := Grid3d.positionToGridIndex p _dx in
      match get isOutflowCell g with
      | None => None
      | Some marked =>
          match markerMask source isOutflowCell rest with
          | None => None
          | Some mask => Some ((marked && beyond source p) :: mask)
          end
      end
  end.

(** The mask of the whitewater particles: indices out of range are
    skipped. *)
Definition diffuseMask (source : MeshFluidSource) (isOutflowCell : Array3d_bool)
    (positions : list vec3) : list bool :=
  map (fun p =>
         let g := Grid3d.positionToGridIndex p _dx in
         if isIndexInRange isOutflowCell g
         then cell isOutflowCell g && beyond source p
         else false)
      positions.

(** [_updateOutflowMeshFluidSource] (lines 7704-7769), on the marker
    particles and the whitewater particles. *)
Definition _updateOutflowMeshFluidSource (source : MeshFluidSource)
    (st : ParticleSystem * ParticleSystem)
  : outcome (ParticleSystem * ParticleSystem) (ParticleSystem * ParticleSystem) :=
  let '(markerParticles, diffuseParticles) := st in
  if negb (isEnabled source) then Return st
  else if negb (isFluidOutflowEnabled source) && negb (isDiffuseOutflowEnabled source)
  then Return st
  else
    let blank := mkArray3d _isize _jsize _ksize (fun _ => false) in
    match (if isOutflowInversed source
           then set_all (getCells source) false (fill true blank)
           else set_all (getCells source) true (fill false blank)) with
    | None => Raise (OutOfRange "Error: index out of range.") st
    | Some isOutflowCell =>
        let marker :=
          if isFluidOutflowEnabled source
          then
            match markerMask source isOutflowCell (POSITION markerParticles) with
            | None => None
            | Some isRemoved => Some (removeParticles isRemoved markerParticles)
            end
          else Some markerParticles in
        match marker with
        | None => Raise (OutOfRange "Error: index out of range.") st
        | Some markerParticles' =>
            let diffuseParticles' :=
              if isDiffuseOutflowEnabled source
              then removeParticles
                     (diffuseMask source isOutflowCell (POSITION diffuseParticles))
                     diffuseParticles
              else diffuseParticles in
            Return (markerParticles', diffuseParticles')
        end
    end.

(** *** Properties *)

(** The particle at [p] is in the region the source removes: its cell is
    marked as an outflow cell (a cell of the source, or for an inversed
    outflow a cell that is not one) and the level set value at [p] is
    negative (for an inversed outflow, not negative). *)
Definition culled (source : MeshFluidSource) (p : vec3) : Prop :=
  let g := Grid3d.positionToGridIndex p _dx in
  let d := trilinearInterpolate source (p - getMeshLevelSetOffset source)%vec in
  if isOutflowInversed source
  then (g ∉ getCells source) /\ 0 <= d
  else (g ∈ getCells source) /\ d < 0.

Definition culledb (source : MeshFluidSource) (p : vec3) : bool :=
  let g := Grid3d.positionToGridIndex p _dx in
  (if isOutflowInversed source
   then negb (bool_decide (g ∈ getCells source))
   else bool_decide (g ∈ getCells source))
  && beyond source p.

Lemma culledb_true (source : MeshFluidSource) (p : vec3) :
  culledb source p = true <-> culled source p.
Proof.
  unfold culledb, culled, beyond. cbv zeta.
  destruct (isOutflowInversed source);
    rewrite andb_true_iff, ?negb_true_iff, ?bool_decide_eq_true, ?bool_decide_eq_false,
            ?Qleb_true, ?Qltb_true; tauto.
Qed.

Lemma set_all_spec (cells : list Grid3d.GridIndex) (v : bool) :
  forall a,
    (forall g, g ∈ cells -> isIndexInRange a g = true) ->
    exists a',
      set_all cells v a = Some a'
      /\ width a' = width a /\ height a' = height a /\ depth a' = depth a
      /\ forall g, cell a' g = if bool_decide (g ∈ cells) then v else cell a g.
Proof.
  induction cells as [|c cells IH]; intros a Hin; simpl.
  - exists a. repeat split.
  - unfold set. rewrite (Hin c) by apply list_elem_of_here.
    set (a1 := mkArray3d _ _ _ _).
    destruct (IH a1) as (a' & Hrun & Hw & Hh & Hd & Hcell).
    { intros g Hg. apply (Hin g). by apply list_elem_of_further. }
    exists a'. split; [exact Hrun|]. repeat split; try assumption.
    intros g. rewrite Hcell. subst a1. simpl.
    destruct (decide (g ∈ cells)) as [Hg|Hg].
    + rewrite !bool_decide_eq_true_2; [done | by apply list_elem_of_further | done].
    + rewrite (bool_decide_eq_false_2 _ Hg).
      destruct (decide (g = c)) as [->|Hne].
      * rewrite bool_decide_eq_true_2; [done | apply list_elem_of_here].
      * rewrite bool_decide_eq_false_2; [done|].
        rewrite elem_of_cons. tauto.
Qed.

Lemma markerMask_spec (source : MeshFluidSource) (a : Array3d_bool)
    (positions : list vec3) :
  (forall p, p ∈ positions ->
     isIndexInRange a (Grid3d.positionToGridIndex p _dx) = true) ->
  markerMask source a positions
  = Some (map (fun p => cell a (Grid3d.positionToGridIndex p _dx) && beyond source p)
              positions).
Proof.
  induction positions as [|p l IH]; intros Hin; simpl; [reflexivity|].
  unfold get. rewrite (Hin p) by apply list_elem_of_here.
  rewrite IH; [reflexivity|]. intros q Hq. apply Hin. by apply list_elem_of_further.
Qed.

Lemma remove_masked_filter {A : Type} (f : A -> bool) (l : list A) :
  remove_masked (map f l) l = List.filter (fun a => negb (f a)) l.
Proof.
  induction l as [|a l IH]; simpl; [reflexivity|].
  destruct (f a); simpl; by rewrite IH.
Qed.

Lemma map_ext_elem_of {A B : Type} (f g : A -> B) (l : list A) :
  (forall a, a ∈ l -> f a = g a) -> map f l = map g l.
Proof.
  induction l as [|a l IH]; intros H; simpl; [reflexivity|].
  rewrite (H a) by apply list_elem_of_here.
  rewrite IH; [reflexivity|]. intros b Hb. apply H. by apply list_elem_of_further.
Qed.

(** C5.  After [_updateOutflowMeshFluidSource] has processed an enabled
    source with fluid outflow enabled, the marker particles that remain
    are exactly those that were not in the region the source removes, in
    their order: none of them has its cell marked as an outflow cell
    together with a negative level set value (for an inversed outflow: a
    value that is not negative), and every particle outside that condition
    is kept.  (The cells of the source and the particles lie in the grid:
    the outflow cell grid is read without a range test.) *)
Theorem C5_outflow_culls_region (source : MeshFluidSource)
    (markerParticles diffuseParticles : ParticleSystem) :
  isEnabled source = true ->
  isFluidOutflowEnabled source = true ->
  (forall g, g ∈ getCells source ->
     Grid3d.isGridIndexInRange g _isize _jsize _ksize = true) ->
  (forall p, p ∈ POSITION markerParticles -> inGrid _isize _jsize _ksize _dx p = true) ->
  exists markerParticles' diffuseParticles',
    _updateOutflowMeshFluidSource source (markerParticles, diffuseParticles)
    = Return (markerParticles', diffuseParticles')
    /\ POSITION markerParticles'
       = List.filter (fun p => negb (culledb source p)) (POSITION markerParticles)
    /\ (forall p, p ∈ POSITION markerParticles' -> ~ culled source p)
    /\ (forall p, p ∈ POSITION markerParticles -> ~ culled source p ->
                  p ∈ POSITION markerParticles').
Proof.
  intros Hen Hfluid Hcells Hpos.
  unfold _updateOutflowMeshFluidSource. rewrite Hen, Hfluid. simpl.
  set (blank := mkArray3d _isize _jsize _ksize (fun _ => false)).
  assert (Hgrid : exists a,
    (if isOutflowInversed source
     then set_all (getCells source) false (fill true blank)
     else set_all (getCells source) true (fill false blank)) = Some a
    /\ width a = _isize /\ height a = _jsize /\ depth a = _ksize
    /\ forall g, cell a g
                 = if isOutflowInversed source
                   then negb (bool_decide (g ∈ getCells source))
                   else bool_decide (g ∈ getCells source)).
  { destruct (isOutflowInversed source).
    - destruct (set_all_spec (getCells source) false (fill true blank))
        as (a & Hrun & Hw & Hh & Hd & Hc); [exact Hcells|].
      exists a. repeat split; assumption.
    - destruct (set_all_spec (getCells source) true (fill false blank))
        as (a & Hrun & Hw & Hh & Hd & Hc); [exact Hcells|].
      exists a. repeat split; try assumption.
      intros g. rewrite Hc. simpl. by destruct (bool_decide _). }
  destruct Hgrid as (a & -> & Hw & Hh & Hd & Hc).
  rewrite markerMask_spec.
  2:{ intros p Hp. unfold isIndexInRange. rewrite Hw, Hh, Hd. by apply Hpos. }
  rewrite (map_ext_elem_of _ (culledb source)).
  2:{ intros p _. unfold culledb. cbv zeta. by rewrite Hc. }
  eexists. eexists. split; [reflexivity|].
  simpl. rewrite remove_masked_filter.
  split; [reflexivity|]. split.
  - intros p Hp. apply list_elem_of_In, filter_In in Hp as [_ Hp].
    rewrite <- culledb_true. by destruct (culledb source p).
  - intros p Hp Hnot. apply list_elem_of_In, filter_In.
    split; [by apply list_elem_of_In|].
    rewrite <- culledb_true in Hnot. by destruct (culledb source p).
Qed.

End Outflow.

(** A source over the cell (2, 2, 2) of a 4 x 4 x 4 grid of unit cells,
    negative inside the ball of radius 1 around (2.5, 2.5, 2.5); two
    particles, the first at the centre of the ball. *)
Lemma C5_witness :
  let source :=
    mkSource true true false false [Grid3d.mkGridIndex 2 2 2]
             (fun p => dot p p - 1) (mkvec3 (5 # 2) (5 # 2) (5 # 2)) in
  let store :=
    mkParticleSystem [mkvec3 (5 # 2) (5 # 2) (5 # 2); mkvec3 (1 # 2) (1 # 2) (1 # 2)]
                     [mkvec3 0 0 0; mkvec3 1 0 0] in
  exists markerParticles' diffuseParticles',
    _updateOutflowMeshFluidSource 4 4 4 1 source (store, mkParticleSystem [] [])
    = Return (markerParticles', diffuseParticles')
    /\ POSITION markerParticles'
       = List.filter (fun p => negb (culledb 1 source p)) (POSITION store).
Proof.
  intros source store.
  destruct (C5_outflow_culls_region 4 4 4 1 source store (mkParticleSystem [] []))
    as (mp' & dp' & Hrun & Hpos & _).
  - reflexivity.
  - reflexivity.
  - intros g Hg. apply list_elem_of_In in Hg. simpl in Hg.
    destruct Hg as [<- | []]. reflexivity.
  - intros p Hp. apply list_elem_of_In in Hp. simpl in Hp.
    destruct Hp as [<- | [<- | []]]; reflexivity.
  - exists mp', dp'. split; [exact Hrun | exact Hpos].
Defined.

End Outflow.

(** ** Fluid sources: inflow *)

Module Inflow.
Import Particles.

(** Modelled from the spec: [ParticleMaskGrid] (particlemaskgrid.h is not
    under src/).  It is built for a grid of cell size [dx] and records
    which sub-cells, of edge [dx / 2], are occupied: [addParticle p] marks
    the sub-cell that contains [p], [isSubCellSet p] tells whether that
    sub-cell is marked. *)
Record ParticleMaskGrid : Type := mkMask {
  mask_dx : Q;
  marked : gset Grid3d.GridIndex
}.

Definition subcell (m : ParticleMaskGrid) (p : vec3) : Grid3d.GridIndex :=
  Grid3d.positionToGridIndex p ((1 # 2) * mask_dx m).

Definition isSubCellSet (m : ParticleMaskGrid) (p : vec3) : bool :=
  bool_decide (subcell m p ∈ marked m).

Definition addParticle (m : ParticleMaskGrid) (p : vec3) : ParticleMaskGrid :=
  mkMask (mask_dx m) ({[subcell m p]} ∪ marked m).

Section Emission.

Variable _isize _jsize _ksize : Z.
Variable _dx : Q.
Variable _markerParticleJitterFactor : Q.
Variable _isJitterSurfaceMarkerParticlesEnabled : bool.

(** The solid level set and the random number generator belong to other
    files; [_randomDouble min max] draws a number and advances the
    generator. *)
Variable _solidSDF_trilinearInterpolate : vec3 -> Q.
Variable Rng : Type.
Variable _randomDouble : Q -> Q -> Rng -> Q * Rng.

(** Lines 4107-4119. *)
Definition _getMarkerParticleJitter : Q :=
  let eps := 1 # 1000 in
  (1 # 4) * (_markerParticleJitterFactor - eps) * _dx.

Definition _jitterMarkerParticlePosition (p : vec3) (jitter : Q) (rng : Rng)
  : vec3 * Rng :=
  let '(jx, rng) := _randomDouble (- jitter) jitter rng in
  let '(jy, rng) := _randomDouble (- jitter) jitter rng in
  let '(jz, rng) := _randomDouble (- jitter) jitter rng in
  (mkvec3 (x p + jx) (y p + jy) (z p + jz), rng).

Definition particleOffsets : list vec3 :=
  let q := (1 # 4) * _dx in
  [ mkvec3 (- q) (- q) (- q); mkvec3 q (- q) (- q);
    mkvec3 (- q) q (- q);     mkvec3 q q (- q);
    mkvec3 (- q) (- q) q;     mkvec3 q (- q) q;
    mkvec3 (- q) q q;         mkvec3 q q q ].

(** [for (cells) { c = centre; for (oidx < 8) { p = c + offsets[oidx];
    body } }], the loop nest that the emission functions share. *)
Definition for_candidates {S : Type} (body : S -> vec3 -> S)
    (cells : list Grid3d.GridIndex) (st : S) : S :=
  fold_left
    (fun st g =>
       let c := Grid3d.GridIndexToCellCenter g _dx in
       fold_left (fun st offset => body st (c + offset)%vec) particleOffsets st)
    cells st.

(** The jitter of a candidate: applied when surface jitter is enabled or
    the candidate is deeper than [dx] inside the source. *)
Definition maybeJitter (d : Q) (p : vec3) (rng : Rng) : vec3 * Rng :=
  if _isJitterSurfaceMarkerParticlesEnabled || Qltb d (- _dx)
  then _jitterMarkerParticlePosition p _getMarkerParticleJitter rng
  else (p, rng).

(** [_addNewFluidCellsThread] (lines 7611-7651), on the whole range of
    cells: the candidates that are inside the source and, once jittered,
    outside the solid.  (The engine splits the range over threads and
    concatenates their results in range order.) *)
Definition threadBody (meshSDF : vec3 -> Q) (sdfoffset : vec3)
    (st : list vec3 * Rng) (p : vec3) : list vec3 * Rng :=
  let '(particles, rng) := st in
  let d := meshSDF (p - sdfoffset)%vec in
  if Qltb 0 d then st
  else
    let '(p, rng) := maybeJitter d p rng in
    if Qltb 0 (_solidSDF_trilinearInterpolate p)
    then (particles ++ [p], rng)
    else (particles, rng).

Definition _addNewFluidCellsThread (cells : list Grid3d.GridIndex)
    (meshSDF : vec3 -> Q) (sdfoffset : vec3) (rng : Rng) : list vec3 * Rng :=
  for_candidates (threadBody meshSDF sdfoffset) cells ([], rng).

(** The first overload of [_addNewFluidCells] (lines 7414-7451): the
    particles it creates, the mask grid and the generator after the call. *)
Definition maskBody (velocity : vec3)
    (st : list MarkerParticle * ParticleMaskGrid) (p : vec3)
  : list MarkerParticle * ParticleMaskGrid :=
  let '(newParticles, maskgrid) := st in
  if isSubCellSet maskgrid p then st
  else (newParticles ++ [mkMarkerParticle p velocity], addParticle maskgrid p).

Definition newFluidCells (cells : list Grid3d.GridIndex) (velocity : vec3)
    (meshSDF : vec3 -> Q) (sdfoffset : vec3)
    (maskgrid : ParticleMaskGrid) (rng : Rng)
  : list MarkerParticle * ParticleMaskGrid * Rng :=
  let '(particleVectors, rng) := _addNewFluidCellsThread cells meshSDF sdfoffset rng in
  (fold_left (maskBody velocity) particleVectors ([], maskgrid), rng).

Definition _addNewFluidCells (cells : list Grid3d.GridIndex) (velocity : vec3)
    (meshSDF : vec3 -> Q) (sdfoffset : vec3)
    (st : ParticleSystem * ParticleMaskGrid * Rng)
  : ParticleSystem * ParticleMaskGrid * Rng :=
  let '(markerParticles, maskgrid, rng) := st in
  let '(newParticles, maskgrid, rng) :=
    newFluidCells cells velocity meshSDF sdfoffset maskgrid rng in
  (_addMarkerParticles _isize _jsize _ksize _dx newParticles markerParticles,
   maskgrid, rng).

(** The overload for a source with a velocity field (lines 7495-7547);
    [vfield] is the evaluation of [vdata->vfield], [voffset] is
    [vdata->offset]. *)
Definition fieldBody (velocity : vec3) (vfield : vec3 -> vec3) (voffset : vec3)
    (meshSDF : vec3 -> Q) (sdfoffset : vec3)
    (st : list MarkerParticle * ParticleMaskGrid * Rng) (p : vec3)
  : list MarkerParticle * ParticleMaskGrid * Rng :=
  let '(newParticles, maskgrid, rng) := st in
  if isSubCellSet maskgrid p then st
  else
    let d := meshSDF (p - sdfoffset)%vec in
    if Qltb 0 d then st
    else
      let '(p, rng) := maybeJitter d p rng in
      if Qltb 0 (_solidSDF_trilinearInterpolate p)
      then
        let datap := (p - voffset)%vec in
        let fv := vfield datap in
        let v := (velocity + fv)%vec in
        (newParticles ++ [mkMarkerParticle p v], addParticle maskgrid p, rng)
      else (newParticles, maskgrid, rng).

Definition newFluidCellsField (cells : list Grid3d.GridIndex) (velocity : vec3)
    (vfield : vec3 -> vec3) (voffset : vec3)
    (meshSDF : vec3 -> Q) (sdfoffset : vec3)
    (maskgrid : ParticleMaskGrid) (rng : Rng)
  : list MarkerParticle * ParticleMaskGrid * Rng :=
  for_candidates (fieldBody velocity vfield voffset meshSDF sdfoffset) cells
                 ([], maskgrid, rng).

Definition _addNewFluidCellsField (cells : list Grid3d.GridIndex) (velocity : vec3)
    (vfield : vec3 -> vec3) (voffset : vec3)
    (meshSDF : vec3 -> Q) (sdfoffset : vec3)
    (st : ParticleSystem * ParticleMaskGrid * Rng)
  : ParticleSystem * ParticleMaskGrid * Rng :=
  let '(markerParticles, maskgrid, rng) := st in
  let '(newParticles, maskgrid, rng) :=
    newFluidCellsField cells velocity vfield voffset meshSDF sdfoffset maskgrid rng in
  (_addMarkerParticles _isize _jsize _ksize _dx newParticles markerParticles,
   maskgrid, rng).

(** *** Properties: the candidates and their sub-cells *)

(** The candidate positions in the order the loop nest visits them. *)
Definition candidates (cells : list Grid3d.GridIndex) : list vec3 :=
  flat_map (fun g =>
              map (fun offset => (Grid3d.GridIndexToCellCenter g _dx + offset)%vec)
                  particleOffsets)
           cells.

Lemma fold_left_map_body {S A B : Type} (body : S -> B -> S) (f : A -> B) (l : list A) :
  forall st, fold_left body (map f l) st = fold_left (fun st a => body st (f a)) l st.
Proof. induction l as [|a l IH]; intros st; simpl; [reflexivity | apply IH]. Qed.

Lemma for_candidates_fold {S : Type} (body : S -> vec3 -> S)
    (cells : list Grid3d.GridIndex) :
  forall st, for_candidates body cells st = fold_left body (candidates cells) st.
Proof.
  unfold for_candidates, candidates.
  induction cells as [|g cells IH]; intros st; [reflexivity|].
  cbn [fold_left flat_map]. rewrite fold_left_app, fold_left_map_body. apply IH.
Qed.

(** A candidate: the centre of a cell plus one of the eight offsets. *)
Definition is_candidate (p : vec3) : Prop :=
  exists g offset,
    offset ∈ particleOffsets /\ p = (Grid3d.GridIndexToCellCenter g _dx + offset)%vec.

Lemma candidates_are_candidates (cells : list Grid3d.GridIndex) (p : vec3) :
  In p (candidates cells) -> is_candidate p.
Proof.
  unfold candidates. rewrite in_flat_map. intros (g & _ & Hp).
  apply in_map_iff in Hp as (offset & <- & Hoff).
  exists g, offset. split; [by apply list_elem_of_In | reflexivity].
Qed.

Lemma Qfloor_unique (v : Q) (n : Z) : inject_Z n <= v < inject_Z n + 1 -> Qfloor v = n.
Proof.
  intros [Hlo Hhi].
  pose proof (Qfloor_le v) as H1. pose proof (Qlt_floor v) as H2.
  assert (Ha : inject_Z n < inject_Z (Qfloor v + 1)) by lra.
  assert (Hb : inject_Z (Qfloor v) < inject_Z (n + 1)).
  { rewrite inject_Z_plus. change (inject_Z 1) with 1. lra. }
  rewrite <- Zlt_Qlt in Ha, Hb. lia.
Qed.

(** On one axis: a jitter below a quarter of a cell keeps a candidate in
    its half-cell. *)
Lemma subcell_axis (a : Z) (s jit J : Q) :
  0 < _dx ->
  s = - ((1 # 4) * _dx) \/ s = (1 # 4) * _dx ->
  0 <= J < (1 # 4) * _dx -> - J <= jit <= J ->
  Qfloor ((inject_Z a * _dx + (1 # 2) * _dx + s + jit) / ((1 # 2) * _dx))
  = Qfloor ((inject_Z a * _dx + (1 # 2) * _dx + s) / ((1 # 2) * _dx)).
Proof.
  intros Hdx Hs HJ Hjit.
  assert (Hh : 0 < (1 # 2) * _dx) by lra.
  assert (Hn : exists n : Z,
             inject_Z n * ((1 # 2) * _dx) + J
               <= inject_Z a * _dx + (1 # 2) * _dx + s
             /\ inject_Z a * _dx + (1 # 2) * _dx + s + J
               < (inject_Z n + 1) * ((1 # 2) * _dx)).
  { destruct Hs as [-> | ->].
    - exists (2 * a)%Z. rewrite inject_Z_mult. change (inject_Z 2) with 2.
      split; nra.
    - exists (2 * a + 1)%Z. rewrite inject_Z_plus, inject_Z_mult.
      change (inject_Z 2) with 2. change (inject_Z 1) with 1. split; nra. }
  destruct Hn as (n & Hlo & Hhi).
  rewrite (Qfloor_unique _ n), (Qfloor_unique _ n); [reflexivity | |].
  - split; [apply Qle_shift_div_l | apply Qlt_shift_div_r]; lra.
  - split; [apply Qle_shift_div_l | apply Qlt_shift_div_r]; lra.
Qed.

Lemma offset_components (offset : vec3) :
  offset ∈ particleOffsets ->
  (x offset = - ((1 # 4) * _dx) \/ x offset = (1 # 4) * _dx)
  /\ (y offset = - ((1 # 4) * _dx) \/ y offset = (1 # 4) * _dx)
  /\ (z offset = - ((1 # 4) * _dx) \/ z offset = (1 # 4) * _dx).
Proof.
  unfold particleOffsets. cbv zeta. rewrite !elem_of_cons, elem_of_nil.
  intros H. repeat destruct H as [-> | H]; try contradiction; simpl; tauto.
Qed.

(** What is assumed of the generator: a draw lies between its bounds. *)
Definition draws_in_range : Prop :=
  forall lo hi rng, lo <= hi -> lo <= (_randomDouble lo hi rng).1 <= hi.

(** The jitter amplitude is below a quarter of a cell (a jitter factor in
    [0.001, 1.001)). *)
Definition jitter_in_subcell : Prop :=
  0 <= _getMarkerParticleJitter < (1 # 4) * _dx.

Lemma maybeJitter_subcell (m : ParticleMaskGrid) (d : Q) (p : vec3) (rng : Rng) :
  0 < _dx -> mask_dx m = _dx -> draws_in_range -> jitter_in_subcell ->
  is_candidate p ->
  subcell m (maybeJitter d p rng).1 = subcell m p.
Proof.
  intros Hdx Hm Hdraw HJ (g & offset & Hoff & ->).
  unfold maybeJitter. destruct (_ || _); [|reflexivity].
  unfold _jitterMarkerParticlePosition. unfold jitter_in_subcell in HJ.
  set (J := _getMarkerParticleJitter) in *.
  assert (HJJ : - J <= J) by lra.
  destruct (_randomDouble (- J) J rng) as [jx r1] eqn:E1.
  destruct (_randomDouble (- J) J r1) as [jy r2] eqn:E2.
  destruct (_randomDouble (- J) J r2) as [jz r3] eqn:E3.
  pose proof (Hdraw _ _ rng HJJ) as H1. rewrite E1 in H1.
  pose proof (Hdraw _ _ r1 HJJ) as H2. rewrite E2 in H2.
  pose proof (Hdraw _ _ r2 HJJ) as H3. rewrite E3 in H3.
  destruct (offset_components offset Hoff) as (Hx & Hy & Hz).
  unfold subcell, Grid3d.positionToGridIndex. rewrite Hm.
  cbn [fst x y z vmath.add Grid3d.GridIndexToCellCenter] in *.
  rewrite (subcell_axis _ _ _ J Hdx Hx HJ H1), (subcell_axis _ _ _ J Hdx Hy HJ H2),
          (subcell_axis _ _ _ J Hdx Hz HJ H3).
  reflexivity.
Qed.

(** *** Properties: one emission, and a second one *)

Section Runs.

Variable velocity : vec3.
Variable vfield : vec3 -> vec3.
Variable voffset : vec3.
Variable meshSDF : vec3 -> Q.
Variable sdfoffset : vec3.

Hypothesis dx_pos : 0 < _dx.
Hypothesis draws : draws_in_range.
Hypothesis jitter_small : jitter_in_subcell.

(** The sub-cell of a position, for a mask grid built on [_dx]. *)
Definition sub (p : vec3) : Grid3d.GridIndex :=
  Grid3d.positionToGridIndex p ((1 # 2) * _dx).

Lemma subcell_sub (m : ParticleMaskGrid) (p : vec3) : mask_dx m = _dx -> subcell m p = sub p.
Proof. intros Hm. unfold subcell, sub. by rewrite Hm. Qed.

(** The candidate [p] passes the test [d > 0] of the source level set:
    it is inside the source. *)
Definition inSource (p : vec3) : Prop := Qltb 0 (meshSDF (p - sdfoffset)%vec) = false.

(** The candidate [p] needs no particle: it is outside the source, or its
    sub-cell is marked. *)
Definition settled (m : ParticleMaskGrid) (p : vec3) : Prop :=
  Qltb 0 (meshSDF (p - sdfoffset)%vec) = true \/ sub p ∈ marked m.

(** The solid test can reject the candidate [p]: at some position of its
    sub-cell the solid level set is not positive. *)
Definition blocked (p : vec3) : Prop :=
  exists p', sub p' = sub p /\ _solidSDF_trilinearInterpolate p' <= 0.

Lemma settled_mono (m m' : ParticleMaskGrid) (p : vec3) :
  marked m ⊆ marked m' -> settled m p -> settled m' p.
Proof. intros Hsub [H | H]; [by left | right; set_solver]. Qed.

Local Notation "'fieldStep'" := (fieldBody velocity vfield voffset meshSDF sdfoffset).

Lemma fieldBody_noop (P : list MarkerParticle) (m : ParticleMaskGrid) (r : Rng) (p : vec3) :
  mask_dx m = _dx -> settled m p -> fieldStep (P, m, r) p = (P, m, r).
Proof.
  intros Hm Hs. unfold fieldBody, isSubCellSet. rewrite (subcell_sub m p Hm).
  destruct (bool_decide (sub p ∈ marked m)) eqn:E; [reflexivity|].
  apply bool_decide_eq_false in E. destruct Hs as [-> | Hs]; [reflexivity | contradiction].
Qed.

Lemma fieldBody_step (P : list MarkerParticle) (m : ParticleMaskGrid) (r : Rng) (p : vec3) :
  is_candidate p -> mask_dx m = _dx ->
  exists P' m' r',
    fieldStep (P, m, r) p = (P', m', r')
    /\ mask_dx m' = _dx /\ marked m ⊆ marked m'
    /\ (settled m' p \/ blocked p)
    /\ (P' = P
        \/ exists mp, P' = P ++ [mp]
                      /\ sub (position mp) = sub p /\ inSource p
                      /\ (sub p ∉ marked m) /\ sub p ∈ marked m').
Proof.
  intros Hc Hm. unfold fieldBody, isSubCellSet. rewrite (subcell_sub m p Hm).
  destruct (bool_decide (sub p ∈ marked m)) eqn:E.
  { apply bool_decide_eq_true in E. exists P, m, r.
    split; [reflexivity|]. split; [exact Hm|]. split; [done|].
    split; [left; by right | by left]. }
  apply bool_decide_eq_false in E. cbv zeta.
  destruct (Qltb 0 (meshSDF (p - sdfoffset)%vec)) eqn:Ed.
  { exists P, m, r. split; [reflexivity|]. split; [exact Hm|]. split; [done|].
    split; [left; by left | by left]. }
  pose proof (maybeJitter_subcell m (meshSDF (p - sdfoffset)%vec) p r
                dx_pos Hm draws jitter_small Hc) as Hj.
  destruct (maybeJitter _ p r) as [p' r'] eqn:Ej. simpl in Hj.
  rewrite !(subcell_sub m) in Hj by exact Hm.
  destruct (Qltb 0 (_solidSDF_trilinearInterpolate p')) eqn:Es.
  - eexists _, _, _. split; [reflexivity|]. simpl.
    rewrite (subcell_sub m p' Hm), Hj.
    split; [exact Hm|]. split; [set_solver|]. split.
    { left. right. unfold addParticle. simpl. rewrite (subcell_sub m p' Hm), Hj.
      set_solver. }
    right. eexists. split; [reflexivity|]. simpl.
    split; [exact Hj|]. split; [exact Ed|]. split; [exact E | set_solver].
  - apply Qltb_false in Es.
    exists P, m, r'. split; [reflexivity|]. split; [exact Hm|]. split; [done|].
    split; [right; by exists p' | by left].
Qed.

Lemma fieldFold_spec (l : list vec3) :
  Forall is_candidate l ->
  forall P m r,
    mask_dx m = _dx ->
    exists P' m' r',
      fold_left fieldStep l (P, m, r) = (P', m', r')
      /\ mask_dx m' = _dx /\ marked m ⊆ marked m'
      /\ (forall p, In p l -> settled m' p \/ blocked p)
      /\ (forall mp, In mp P' ->
            In mp P
            \/ exists p, In p l /\ sub (position mp) = sub p /\ inSource p
                         /\ (sub p ∉ marked m) /\ sub p ∈ marked m').
Proof.
  induction 1 as [|p l Hp Hl IH]; intros P m r Hm; cbn [fold_left].
  - exists P, m, r. split; [reflexivity|]. split; [exact Hm|]. split; [done|].
    split; [intros p [] | intros mp Hmp; by left].
  - destruct (fieldBody_step P m r p Hp Hm) as (P1 & m1 & r1 & -> & Hm1 & Hs1 & Hset & HP1).
    destruct (IH P1 m1 r1 Hm1) as (P' & m' & r' & Hrun & Hm' & Hs' & Hall & HP').
    exists P', m', r'. split; [exact Hrun|]. split; [exact Hm'|].
    split; [set_solver|]. split.
    + intros q [<- | Hq]; [|by apply Hall].
      destruct Hset as [Hset | Hb]; [left; by apply (settled_mono m1) | by right].
    + intros mp Hmp. destruct (HP' mp Hmp) as [Hin | (q & Hq & Hsq & Hin & Hn & Hy)].
      * destruct HP1 as [-> | (mp1 & -> & Hs & Hin1 & Hn1 & Hy1)]; [by left|].
        apply in_app_iff in Hin as [Hin | [<- | []]]; [by left|].
        right. exists p. split; [by left|]. split; [exact Hs|]. split; [exact Hin1|].
        split; [exact Hn1 | set_solver].
      * right. exists q. split; [by right|]. split; [exact Hsq|]. split; [exact Hin|].
        split; [set_solver | exact Hy].
Qed.

Lemma fieldFold_noop (l : list vec3) (P : list MarkerParticle)
    (m : ParticleMaskGrid) (r : Rng) :
  mask_dx m = _dx -> (forall p, In p l -> settled m p) ->
  fold_left fieldStep l (P, m, r) = (P, m, r).
Proof.
  intros Hm. induction l as [|p l IH]; intros Hall; cbn [fold_left]; [reflexivity|].
  rewrite fieldBody_noop; [|exact Hm | apply Hall; by left].
  apply IH. intros q Hq. apply Hall. by right.
Qed.

Local Notation "'threadStep'" := (threadBody meshSDF sdfoffset).
Local Notation "'maskStep'" := (maskBody velocity).

Lemma threadBody_step (particles : list vec3) (r : Rng) (p : vec3) :
  is_candidate p ->
  exists particles' r',
    threadStep (particles, r) p = (particles', r')
    /\ (Qltb 0 (meshSDF (p - sdfoffset)%vec) = true -> particles' = particles)
    /\ (inSource p ->
        (exists p', particles' = particles ++ [p'] /\ sub p' = sub p)
        \/ (particles' = particles /\ blocked p)).
Proof.
  intros Hc. unfold threadBody, inSource.
  destruct (Qltb 0 (meshSDF (p - sdfoffset)%vec)) eqn:Ed.
  { exists particles, r. split; [reflexivity|]. split; [done | discriminate]. }
  pose proof (maybeJitter_subcell (mkMask _dx ∅) (meshSDF (p - sdfoffset)%vec) p r
                dx_pos eq_refl draws jitter_small Hc) as Hj.
  destruct (maybeJitter _ p r) as [p' r'] eqn:Ej. cbn [fst] in Hj.
  destruct (Qltb 0 (_solidSDF_trilinearInterpolate p')) eqn:Es.
  - eexists _, _. split; [reflexivity|]. split; [discriminate|].
    intros _. left. exists p'. split; [reflexivity | exact Hj].
  - apply Qltb_false in Es.
    eexists _, _. split; [reflexivity|]. split; [discriminate|].
    intros _. right. split; [reflexivity | by exists p'].
Qed.

(** The thread's result: one jittered position per candidate inside the
    source that the solid test does not reject, in the sub-cell of its
    candidate. *)
Lemma threadFold_spec (l : list vec3) :
  Forall is_candidate l ->
  forall particles r,
    exists particles' r',
      fold_left threadStep l (particles, r) = (particles', r')
      /\ (forall p', In p' particles' ->
            In p' particles
            \/ exists p, In p l /\ inSource p /\ sub p' = sub p)
      /\ (forall p', In p' particles -> In p' particles')
      /\ (forall p, In p l -> inSource p ->
            (exists p', In p' particles' /\ sub p' = sub p) \/ blocked p).
Proof.
  induction 1 as [|p l Hp Hl IH]; intros particles r; cbn [fold_left].
  - exists particles, r. split; [reflexivity|]. split; [by left|].
    split; [done | intros p []].
  - destruct (threadBody_step particles r p Hp) as (c1 & r1 & -> & Hout & Hin).
    destruct (IH c1 r1) as (c' & r' & Hrun & Hfrom & Hkeep & Hall).
    exists c', r'. split; [exact Hrun|].
    destruct (Qltb 0 (meshSDF (p - sdfoffset)%vec)) eqn:Ed.
    + rewrite (Hout eq_refl) in *. split; [|split; [exact Hkeep|]].
      * intros p' Hp'. destruct (Hfrom p' Hp') as [H | (q & Hq & Hd & Hs)]; [by left|].
        right. exists q. split; [by right | done].
      * intros q [<- | Hq] Hd; [unfold inSource in Hd; congruence | by apply Hall].
    + destruct (Hin Ed) as [(p1 & -> & Hs1) | [-> Hb]].
      * split; [|split].
        -- intros p' Hp'. destruct (Hfrom p' Hp') as [H | (q & Hq & Hd & Hs)].
           ++ apply in_app_iff in H as [H | [<- | []]]; [by left|].
              right. exists p. split; [by left | done].
           ++ right. exists q. split; [by right | done].
        -- intros p' Hp'. apply Hkeep, in_app_iff. by left.
        -- intros q [<- | Hq] Hd; [|by apply Hall].
           left. exists p1. split; [|exact Hs1]. apply Hkeep, in_app_iff. right. by left.
      * split; [|split; [exact Hkeep|]].
        -- intros p' Hp'. destruct (Hfrom p' Hp') as [H | (q & Hq & Hd & Hs)]; [by left|].
           right. exists q. split; [by right | done].
        -- intros q [<- | Hq] Hd; [by right | by apply Hall].
Qed.

Lemma maskFold_spec (particleVectors : list vec3) :
  forall P m,
    mask_dx m = _dx ->
    exists P' m',
      fold_left maskStep particleVectors (P, m) = (P', m')
      /\ mask_dx m' = _dx /\ marked m ⊆ marked m'
      /\ (forall p, In p particleVectors -> sub p ∈ marked m')
      /\ (forall mp, In mp P' ->
            In mp P
            \/ (In (position mp) particleVectors
                /\ (sub (position mp) ∉ marked m) /\ sub (position mp) ∈ marked m')).
Proof.
  induction particleVectors as [|p l IH]; intros P m Hm; cbn [fold_left].
  - exists P, m. split; [reflexivity|]. split; [exact Hm|]. split; [done|].
    split; [intros p [] | intros mp Hmp; by left].
  - unfold maskBody at 2. unfold isSubCellSet. rewrite (subcell_sub m p Hm).
    destruct (bool_decide (sub p ∈ marked m)) eqn:E.
    + apply bool_decide_eq_true in E.
      destruct (IH P m Hm) as (P' & m' & Hrun & Hm' & Hs' & Hall & HP').
      exists P', m'. split; [exact Hrun|]. split; [exact Hm'|]. split; [exact Hs'|].
      split.
      * intros q [<- | Hq]; [set_solver | by apply Hall].
      * intros mp Hmp. destruct (HP' mp Hmp) as [Hin | (Hin & Hn & Hy)]; [by left|].
        right. split; [by right | done].
    + apply bool_decide_eq_false in E.
      destruct (IH (P ++ [mkMarkerParticle p velocity]) (addParticle m p) Hm)
        as (P' & m' & Hrun & Hm' & Hs' & Hall & HP').
      exists P', m'. split; [exact Hrun|]. split; [exact Hm'|].
      simpl in Hs'. rewrite (subcell_sub m p Hm) in Hs'.
      split; [set_solver|]. split.
      * intros q [<- | Hq]; [set_solver | by apply Hall].
      * intros mp Hmp. destruct (HP' mp Hmp) as [Hin | (Hin & Hn & Hy)].
        -- apply in_app_iff in Hin as [Hin | [<- | []]]; [by left|].
           right. simpl. split; [by left|]. split; [exact E | set_solver].
        -- right. split; [by right|]. split; [|exact Hy]. simpl in Hn.
           rewrite (subcell_sub m p Hm) in Hn. set_solver.
Qed.

Lemma maskFold_noop (particleVectors : list vec3) (P : list MarkerParticle)
    (m : ParticleMaskGrid) :
  mask_dx m = _dx -> (forall p, In p particleVectors -> sub p ∈ marked m) ->
  fold_left maskStep particleVectors (P, m) = (P, m).
Proof.
  intros Hm. induction particleVectors as [|p l IH]; intros Hall; cbn [fold_left];
    [reflexivity|].
  unfold maskBody at 2. unfold isSubCellSet. rewrite (subcell_sub m p Hm).
  rewrite bool_decide_eq_true_2 by (apply Hall; by left).
  apply IH. intros q Hq. apply Hall. by right.
Qed.

(** What one emission, from mask grid [m] to [m1] with the created
    particles [P1], leaves for a second one. *)
Definition emitted (cells : list Grid3d.GridIndex) (m : ParticleMaskGrid)
    (P1 : list MarkerParticle) (m1 : ParticleMaskGrid) : Prop :=
  marked m ⊆ marked m1
  /\ (forall mp, In mp P1 ->
        (subcell m (position mp) ∉ marked m) /\ subcell m (position mp) ∈ marked m1)
  /\ (forall p, In p (candidates cells) -> inSource p ->
        sub p ∈ marked m1 \/ blocked p).

(** What a second emission, on the mask grid [m1] of the first, creates:
    particles [P2] in sub-cells of candidates inside the source that the
    first emission left unmarked; nothing when it left none. *)
Definition emitted_again (cells : list Grid3d.GridIndex) (m1 : ParticleMaskGrid)
    (P2 : list MarkerParticle) (m2 : ParticleMaskGrid) : Prop :=
  (forall mp, In mp P2 ->
     exists p, In p (candidates cells) /\ inSource p
               /\ (sub p ∉ marked m1) /\ sub (position mp) = sub p)
  /\ ((forall p, In p (candidates cells) -> inSource p -> sub p ∈ marked m1) ->
      P2 = [] /\ m2 = m1).

(** C6 (as amended).  An emission marks the sub-cell of every particle it
    creates, creates particles only in sub-cells that were not marked, and
    never unmarks a sub-cell.  When the jitter keeps a candidate in its
    sub-cell (amplitude in [0, dx / 4)), every candidate inside the source
    has its sub-cell marked after the emission unless the solid test
    rejected it, which takes a position of its sub-cell where the solid
    level set is not positive.  The same emission run a second time
    against the resulting mask grid creates particles only in the
    sub-cells that the solid test left unmarked; when there is none it
    creates no particle and leaves the mask grid and the particle store as
    they are, whatever numbers the generator draws.  This holds for the
    plain overload of [_addNewFluidCells] and for the velocity field
    overload. *)
Theorem C6_inflow_idempotent (cells : list Grid3d.GridIndex)
    (m : ParticleMaskGrid) (r : Rng) :
  mask_dx m = _dx ->
  (exists P1 m1 r1,
      newFluidCells cells velocity meshSDF sdfoffset m r = (P1, m1, r1)
      /\ emitted cells m P1 m1
      /\ forall r2, exists P2 m2 r3,
           newFluidCells cells velocity meshSDF sdfoffset m1 r2 = (P2, m2, r3)
           /\ emitted_again cells m1 P2 m2
           /\ (P2 = [] ->
               forall ps,
                 _addNewFluidCells cells velocity meshSDF sdfoffset (ps, m1, r2)
                 = (ps, m2, r3)))
  /\ (exists P1 m1 r1,
      newFluidCellsField cells velocity vfield voffset meshSDF sdfoffset m r = (P1, m1, r1)
      /\ emitted cells m P1 m1
      /\ forall r2, exists P2 m2 r3,
           newFluidCellsField cells velocity vfield voffset meshSDF sdfoffset m1 r2
           = (P2, m2, r3)
           /\ emitted_again cells m1 P2 m2
           /\ (P2 = [] ->
               forall ps,
                 _addNewFluidCellsField cells velocity vfield voffset meshSDF sdfoffset
                   (ps, m1, r2)
                 = (ps, m2, r3))).
Proof.
  intros Hm.
  assert (Hcand : Forall is_candidate (candidates cells)).
  { apply Forall_forall. intros p Hp.
    apply list_elem_of_In in Hp. by apply candidates_are_candidates in Hp. }
  split.
  - unfold _addNewFluidCells, newFluidCells, _addNewFluidCellsThread.
    rewrite for_candidates_fold.
    destruct (threadFold_spec _ Hcand [] r) as (c1 & r1 & -> & Hfrom1 & _ & Hall1).
    destruct (maskFold_spec c1 [] m Hm) as (P1 & m1 & -> & Hm1 & Hs1 & Hmark1 & HP1).
    exists P1, m1, r1. split; [reflexivity|]. split.
    { split; [exact Hs1|]. split.
      - intros mp Hmp. rewrite (subcell_sub m _ Hm).
        destruct (HP1 mp Hmp) as [[] | (_ & H)]. exact H.
      - intros p Hp Hin. destruct (Hall1 p Hp Hin) as [(p1 & Hp1 & Hsp) | Hb]; [|by right].
        left. rewrite <- Hsp. by apply Hmark1. }
    intros r2. rewrite for_candidates_fold.
    destruct (threadFold_spec _ Hcand [] r2) as (c2 & r3 & -> & Hfrom2 & _ & _).
    destruct (maskFold_spec c2 [] m1 Hm1) as (P2 & m2 & Hrun2 & Hm2 & Hs2 & Hmark2 & HP2).
    exists P2, m2, r3. rewrite Hrun2. split; [reflexivity|]. split.
    { split.
      - intros mp Hmp. destruct (HP2 mp Hmp) as [[] | (Hin & Hn & _)].
        destruct (Hfrom2 _ Hin) as [[] | (p & Hp & Hd & Hs)].
        exists p. split; [exact Hp|]. split; [exact Hd|]. split; [by rewrite <- Hs | exact Hs].
      - intros Hall.
        assert (Hnoop : fold_left maskStep c2 ([], m1) = ([], m1)).
        { apply maskFold_noop; [exact Hm1|].
          intros p2 Hp2. destruct (Hfrom2 p2 Hp2) as [[] | (p & Hp & Hd & Hs)].
          rewrite Hs. by apply Hall. }
        rewrite Hnoop in Hrun2. by injection Hrun2 as <- <-. }
    intros -> ps. reflexivity.
  - unfold _addNewFluidCellsField, newFluidCellsField.
    rewrite for_candidates_fold.
    destruct (fieldFold_spec _ Hcand [] m r Hm)
      as (P1 & m1 & r1 & -> & Hm1 & Hs1 & Hall1 & HP1).
    exists P1, m1, r1. split; [reflexivity|]. split.
    { split; [exact Hs1|]. split.
      - intros mp Hmp. rewrite (subcell_sub m _ Hm).
        destruct (HP1 mp Hmp) as [[] | (p & _ & Hsp & _ & Hn & Hy)]. by rewrite Hsp.
      - intros p Hp Hin. destruct (Hall1 p Hp) as [[Hout | Hmk] | Hb];
          [unfold inSource in Hin; congruence | by left | by right]. }
    intros r2. rewrite for_candidates_fold.
    destruct (fieldFold_spec _ Hcand [] m1 r2 Hm1)
      as (P2 & m2 & r3 & Hrun2 & Hm2 & Hs2 & Hall2 & HP2).
    exists P2, m2, r3. rewrite Hrun2. split; [reflexivity|]. split.
    { split.
      - intros mp Hmp. destruct (HP2 mp Hmp) as [[] | (p & Hp & Hsp & Hin & Hn & _)].
        by exists p.
      - intros Hall.
        assert (Hnoop : fold_left fieldStep (candidates cells) ([], m1, r2) = ([], m1, r2)).
        { apply fieldFold_noop; [exact Hm1|]. intros p Hp.
          destruct (Qltb 0 (meshSDF (p - sdfoffset)%vec)) eqn:Ed; [by left|].
          right. by apply Hall. }
        rewrite Hnoop in Hrun2. by injection Hrun2 as <- <- <-. }
    intros -> ps. reflexivity.
Qed.

End Runs.
End Emission.

(** *** A source cell next to a solid wall

    One source cell, (1, 1, 1), of a grid of unit cells; the source level
    set is -2 everywhere (deep inside), the solid level set is [x - 5/4],
    so that the four candidates at [x = 1.25] are outside the solid only
    when they are jittered towards larger [x].  The generator is a counter:
    its first 24 draws are a quarter of the way from [min] to [max], the
    later ones three quarters. *)
Definition wall_solid (p : vec3) : Q := x p - (5 # 4).

Definition scripted_randomDouble (lo hi : Q) (n : nat) : Q * nat :=
  (lo + (if (n <? 24)%nat then 1 # 4 else 3 # 4) * (hi - lo), S n).

Definition emit_at_wall (st : ParticleSystem * ParticleMaskGrid * nat)
  : ParticleSystem * ParticleMaskGrid * nat :=
  _addNewFluidCells 4 4 4 1 1 false wall_solid nat scripted_randomDouble
    [Grid3d.mkGridIndex 1 1 1] (mkvec3 0 0 0) (fun _ => - (2)) (mkvec3 0 0 0) st.

(** C6 as the specification states it fails at the wall: the first
    emission creates four particles, and the same emission run again on
    the resulting mask grid creates four more. *)
Lemma C6_counterexample :
  let first := emit_at_wall (mkParticleSystem [] [], mkMask 1 ∅, 0%nat) in
  let second := emit_at_wall first in
  length (POSITION first.1.1) = 4%nat
  /\ length (POSITION second.1.1) = 8%nat.
Proof. vm_compute. split; reflexivity. Qed.

Lemma midpoint_draws_in_range :
  draws_in_range nat (fun lo hi n => ((1 # 2) * (lo + hi), S n)).
Proof. intros lo hi n Hle. simpl. lra. Qed.

(** A source cell one cell away from the wall: the solid test rejects no
    candidate, the emission creates eight particles, and a second emission
    creates none. *)
Lemma C6_witness :
  exists P1 m1 r1,
    newFluidCells 1 1 false wall_solid nat (fun lo hi n => ((1 # 2) * (lo + hi), S n))
      [Grid3d.mkGridIndex 2 1 1] (mkvec3 0 0 0) (fun _ => - (2)) (mkvec3 0 0 0)
      (mkMask 1 ∅) 0%nat
    = (P1, m1, r1)
    /\ length P1 = 8%nat
    /\ forall r2 ps, exists r3,
         _addNewFluidCells 4 4 4 1 1 false wall_solid nat
           (fun lo hi n => ((1 # 2) * (lo + hi), S n))
           [Grid3d.mkGridIndex 2 1 1] (mkvec3 0 0 0) (fun _ => - (2)) (mkvec3 0 0 0)
           (ps, m1, r2)
         = (ps, m1, r3).
Proof.
  destruct (C6_inflow_idempotent 4 4 4 1 1 false wall_solid nat
              (fun lo hi n => ((1 # 2) * (lo + hi), S n))
              (mkvec3 0 0 0) (fun _ => mkvec3 0 0 0) (mkvec3 0 0 0)
              (fun _ => - (2)) (mkvec3 0 0 0)
              ltac:(reflexivity) midpoint_draws_in_range
              ltac:(unfold jitter_in_subcell, _getMarkerParticleJitter; simpl; lra)
              [Grid3d.mkGridIndex 2 1 1] (mkMask 1 ∅) 0%nat eq_refl)
    as [(P1 & m1 & r1 & Hrun & (_ & _ & Hleft) & Hagain) _].
  exists P1, m1, r1. split; [exact Hrun|]. split.
  { vm_compute in Hrun. by injection Hrun as <- _ _. }
  assert (Hall : forall p,
             In p (candidates 1 [Grid3d.mkGridIndex 2 1 1]) ->
             inSource (fun _ => - (2)) (mkvec3 0 0 0) p -> sub 1 p ∈ marked m1).
  { intros p Hp Hin. destruct (Hleft p Hp Hin) as [H | (p' & Hs & Hle)]; [exact H|].
    exfalso. unfold wall_solid in Hle.
    assert (Hx : (4 <= Grid3d.i (sub 1 p))%Z).
    { vm_compute in Hp. clear -Hp.
      repeat (destruct Hp as [<- | Hp]; [vm_compute; discriminate|]). destruct Hp. }
    rewrite <- Hs in Hx. unfold sub, Grid3d.positionToGridIndex in Hx. simpl in Hx.
    pose proof (Qfloor_le (x p' / ((1 # 2) * 1))) as Hf.
    assert (Hq : inject_Z 4 <= inject_Z (Qfloor (x p' / ((1 # 2) * 1)))).
    { rewrite <- Zle_Qle. exact Hx. }
    assert (Hd : x p' / ((1 # 2) * 1) == x p' * 2) by (field).
    assert (Hge : 4 <= x p' * 2).
    { rewrite <- Hd. exact (Qle_trans _ _ _ Hq Hf). }
    lra. }
  intros r2 ps. destruct (Hagain r2) as (P2 & m2 & r3 & _ & (_ & Hnone) & H3).
  destruct (Hnone Hall) as [-> ->]. exists r3. exact (H3 eq_refl ps).
Defined.

End Inflow.

(** ** The frame loop: schedule, frame progress and refinement *)

Module Timing.
Import Engine.

#[local] Arguments update_body : simpl never.
#[local] Arguments chooseTimeStep : simpl never.
#[local] Arguments stabilityLimit : simpl never.
#[local] Arguments maximumSpeed : simpl never.
#[local] Arguments _stepFluid : simpl never.

Section WithWorld.

Context {W : Type} {collaborators : Collaborators W}.

Ltac clock_simpl :=
  cbn [_currentFrame _currentFrameTimeStepNumber _currentFrameDeltaTime
       _currentFrameDeltaTimeRemaining _currentFrameTimeStep _isLastFrameTimeStep
       _isZeroLengthDeltaTime _isSkippedFrame _isCurrentFrameFinished] in *.


(** The state in which the loop body of [update] calls [_stepFluid]
    (lines 9895-9926): the time step is chosen, taken off the remaining
    time and written to the log. *)
Definition substep_entry (substepTime dt : Q) (s : Sim W) : Sim W :=
  let k := clock s in
  let timeStep := chooseTimeStep substepTime dt s in
  let remaining := _currentFrameDeltaTimeRemaining k - timeStep in
  log (LogSubstep (_currentFrameTimeStepNumber k + 1) timeStep)
    (set_clock (mkClock (_currentFrame k) (_currentFrameTimeStepNumber k)
                        (_currentFrameDeltaTime k) remaining timeStep
                        (Qltb (Qabs remaining) eps9)
                        (_isZeroLengthDeltaTime k) (_isSkippedFrame k)
                        (_isCurrentFrameFinished k)) s).

(** [update_body] is [_stepFluid] run on [substep_entry], followed by the
    step statistics and the increment of the substep number. *)
Lemma update_body_entry (substepTime dt : Q) (s : Sim W) :
  update_body substepTime dt s
  = let s1 := log LogStepInfo
                (_stepFluid (chooseTimeStep substepTime dt s)
                            (substep_entry substepTime dt s)) in
    let k := clock s1 in
    set_clock (mkClock (_currentFrame k) (_currentFrameTimeStepNumber k + 1)
                       (_currentFrameDeltaTime k) (_currentFrameDeltaTimeRemaining k)
                       (_currentFrameTimeStep k) (_isLastFrameTimeStep k)
                       (_isZeroLengthDeltaTime k) (_isSkippedFrame k)
                       (_isCurrentFrameFinished k)) s1.
Proof. reflexivity. Qed.








End WithWorld.

(** *** On the scene of [Scenario] *)

Import Scenario.

#[local] Existing Instance scene.

(** The scene asked for three substeps per frame at least. *)
Definition three_step_state : Sim World :=
  mkSim true
        (mkSettings (1 # 10) 1000 1 5 6 0 false false false 3 8 (97 # 100) (97 # 100)
                    false false false)
        (mkClock 3 0 0 0 0 false false false true)
        (mkStatus true 0 0) true (mkFrameData 2 1 1 1 0 0)
        (mkWorld [] 0 [])
        [].

Lemma three_step_well_configured : well_configured (cfg three_step_state).
Proof. unfold well_configured. simpl. repeat split; (lia || lra). Qed.




Lemma X4_witness :
  stagesEntered (trace (_stepFluid (1 # 2) scene_state))
  = [UpdateObstacleObjects; UpdateLiquidLevelSet; AdvectVelocityField;
     SaveVelocityField; ApplyBodyForcesToVelocityField; ApplyViscosityToVelocityField;
     PressureSolve; ConstrainVelocityFields; UpdateDiffuseMaterial;
     UpdateSheetSeeding; UpdateMarkerParticleVelocities; DeleteSavedVelocityField;
     AdvanceMarkerParticles; UpdateFluidObjects; UpdateMarkerParticleAttributes;
     OutputSimulationData].
Proof. exact (stepFluid_stage_order (1 # 2) scene_state eq_refl). Defined.

End Timing.

(** ** The viscosity solve and its status (lines 5652-5729) *)

Module Viscosity.

Import Engine(SolverStatus, mkStatus, success, iterations, error).

Section Solve.

(** What the stage reads and writes besides the members of [State]: the
    marker particles, the viscosity grid, the velocity field and the level
    sets, with the operations of the classes that own them. *)
Variable W : Type.
Variable markerParticles_empty : W -> bool.
(* lines 5660-5682: the viscosity grid rebuilt from the VISCOSITY column *)
Variable transferViscosityAttribute : W -> W.
(* _viscosity.isZero() *)
Variable viscosity_isZero : W -> bool.
Variable _constrainVelocityField : W -> W.
(* ViscositySolver::applyViscosityToVelocityField, then getIterations,
   getError and getSolverStatus *)
Variable viscositySolve : Q -> W -> W * SolverStatus * string.

Record State : Type := mkState {
  _isViscosityEnabled : bool;
  _isSurfaceSourceViscosityAttributeEnabled : bool;
  (* _viscositySolverSuccess, _viscositySolverIterations, _viscositySolverError *)
  _viscositySolver : SolverStatus;
  _viscositySolverStatus : string;
  _pressureSolverIterations : Z;
  _currentFrameTimeStepNumber : Z;
  world : W
}.

Definition set_world (w : W) (s : State) : State :=
  mkState (_isViscosityEnabled s) (_isSurfaceSourceViscosityAttributeEnabled s)
          (_viscositySolver s) (_viscositySolverStatus s)
          (_pressureSolverIterations s) (_currentFrameTimeStepNumber s) w.

Definition set_viscositySolverStatus (status : string) (s : State) : State :=
  mkState (_isViscosityEnabled s) (_isSurfaceSourceViscosityAttributeEnabled s)
          (_viscositySolver s) status
          (_pressureSolverIterations s) (_currentFrameTimeStepNumber s) (world s).

Definition set_viscositySolver (r : SolverStatus) (s : State) : State :=
  mkState (_isViscosityEnabled s) (_isSurfaceSourceViscosityAttributeEnabled s)
          r (_viscositySolverStatus s)
          (_pressureSolverIterations s) (_currentFrameTimeStepNumber s) (world s).

(** [_applyViscosityToVelocityField].  The lines written to the log and
    the stop watch are left out.  The test of line 5718 compares the
    iterations of this solve with [_pressureSolverIterations]. *)
Definition _applyViscosityToVelocityField (dt : Q) (s : State) : State :=
  let s := set_viscositySolverStatus "" s in
  if negb (_isViscosityEnabled s) || markerParticles_empty (world s) then s
  else
    let s :=
      if _isSurfaceSourceViscosityAttributeEnabled s
      then set_world (transferViscosityAttribute (world s)) s
      else s in
    if viscosity_isZero (world s) then s
    else
      let s := set_world (_constrainVelocityField (world s)) s in
      let '(w, r, status) := viscositySolve dt (world s) in
      let s := set_viscositySolverStatus status (set_world w s) in
      if (_currentFrameTimeStepNumber s =? 0)%Z
      then set_viscositySolver r s
      else
        (* Solver status should capture the first failure state
           Otherwise, it should capture the substep with max iterations *)
        if success (_viscositySolver s)
           && (negb (success r)
               || (_pressureSolverIterations s <? iterations r)%Z)
        then set_viscositySolver r s
        else s.

(** [update] (lines 9883-9885): the status at the start of a frame. *)
Definition update_begin (s : State) : State :=
  set_viscositySolver (mkStatus true 0 0) s.

(** The stage over the substeps of a frame.  Between two calls the rest of
    the substep changes the world and the iterations of the pressure
    solver, and [update] adds one to the substep number: a substep is given
    by its time step and by the world and the iteration count the stage
    finds.  Nothing else writes the viscosity status. *)
Fixpoint frame (k : Z) (substeps : list (Q * W * Z)) (s : State) : State :=
  match substeps with
  | [] => s
  | (dt, w, its) :: rest =>
      frame (k + 1) rest
        (_applyViscosityToVelocityField dt
           (mkState (_isViscosityEnabled s) (_isSurfaceSourceViscosityAttributeEnabled s)
                    (_viscositySolver s) (_viscositySolverStatus s) its k w))
  end.

(** The result of the solve that the stage runs in a substep, if it runs
    one. *)
Definition solve_result (s : State) (substep : Q * W * Z) : option SolverStatus :=
  let '(dt, w, _) := substep in
  if negb (_isViscosityEnabled s) || markerParticles_empty w then None
  else
    let w := if _isSurfaceSourceViscosityAttributeEnabled s
             then transferViscosityAttribute w else w in
    if viscosity_isZero w then None
    else Some (viscositySolve dt (_constrainVelocityField w)).1.2.

(** *** Properties *)

Definition same_flags (s s' : State) : Prop :=
  _isViscosityEnabled s' = _isViscosityEnabled s
  /\ _isSurfaceSourceViscosityAttributeEnabled s'
     = _isSurfaceSourceViscosityAttributeEnabled s.

(** One call: the flags stay, and the status afterwards is determined by
    the status before, the substep number and the solve. *)
Lemma applyViscosity_status (dt : Q) (s : State) :
  let s' := _applyViscosityToVelocityField dt s in
  same_flags s s'
  /\ match solve_result s (dt, world s, _pressureSolverIterations s) with
     | None => _viscositySolver s' = _viscositySolver s
     | Some r =>
         _viscositySolver s'
         = if (_currentFrameTimeStepNumber s =? 0)%Z then r
           else if success (_viscositySolver s)
                   && (negb (success r)
                       || (_pressureSolverIterations s <? iterations r)%Z)
                then r else _viscositySolver s
     end.
Proof.
  destruct s as [enabled attr v str its k w0].
  unfold _applyViscosityToVelocityField, solve_result, same_flags. cbn.
  destruct enabled; cbn; [|auto].
  destruct (markerParticles_empty w0); cbn; [auto|].
  destruct attr; cbn.
  - destruct (viscosity_isZero (transferViscosityAttribute w0)); cbn; [auto|].
    destruct (viscositySolve dt (_constrainVelocityField (transferViscosityAttribute w0)))
      as [[w r] status]. cbn.
    destruct (k =? 0)%Z; cbn; [auto|].
    destruct (success v && (negb (success r) || (its <? iterations r)%Z)); cbn; auto.
  - destruct (viscosity_isZero w0); cbn; [auto|].
    destruct (viscositySolve dt (_constrainVelocityField w0)) as [[w r] status]. cbn.
    destruct (k =? 0)%Z; cbn; [auto|].
    destruct (success v && (negb (success r) || (its <? iterations r)%Z)); cbn; auto.
Qed.

Lemma solve_result_flags (s s' : State) (substep : Q * W * Z) :
  same_flags s s' -> solve_result s' substep = solve_result s substep.
Proof.
  intros [H1 H2]. unfold solve_result. destruct substep as [[dt w] its].
  by rewrite H1, H2.
Qed.

(** A recorded failure stays through the later substeps of the frame. *)
Lemma frame_failure_stays (substeps : list (Q * W * Z)) :
  forall (k : Z) (s : State),
    (1 <= k)%Z -> success (_viscositySolver s) = false ->
    _viscositySolver (frame k substeps s) = _viscositySolver s.
Proof.
  induction substeps as [|[[dt w] its] rest IH]; intros k s Hk Hfail; [reflexivity|].
  cbn [frame].
  set (s1 := mkState _ _ _ _ its k w).
  destruct (applyViscosity_status dt s1) as [_ Hst].
  assert (Hkeep : _viscositySolver (_applyViscosityToVelocityField dt s1)
                  = _viscositySolver s).
  { destruct (solve_result s1 _) as [r|]; [|exact Hst].
    rewrite Hst. subst s1. cbn.
    destruct (Z.eqb_spec k 0); [lia|]. by rewrite Hfail. }
  rewrite IH; [exact Hkeep | lia | by rewrite Hkeep].
Qed.

(** While every solve succeeds, the recorded status is a success. *)
Lemma frame_successes (substeps : list (Q * W * Z)) :
  forall (k : Z) (s : State),
    success (_viscositySolver s) = true ->
    Forall (fun e => forall r, solve_result s e = Some r -> success r = true) substeps ->
    success (_viscositySolver (frame k substeps s)) = true
    /\ same_flags s (frame k substeps s).
Proof.
  induction substeps as [|[[dt w] its] rest IH]; intros k s Hok Hall.
  { split; [exact Hok | by split]. }
  apply Forall_cons in Hall as [Hhead Hrest].
  cbn [frame].
  set (s1 := mkState _ _ _ _ its k w).
  assert (Hf1 : same_flags s s1) by (by split).
  destruct (applyViscosity_status dt s1) as [Hf Hst].
  set (s2 := _applyViscosityToVelocityField dt s1) in *.
  assert (Hf2 : same_flags s s2).
  { destruct Hf1 as [A B], Hf as [C D]. split; congruence. }
  assert (Hok2 : success (_viscositySolver s2) = true).
  { change (solve_result s1 (dt, world s1, _pressureSolverIterations s1))
      with (solve_result s1 (dt, w, its)) in Hst.
    rewrite (solve_result_flags s s1 _ Hf1) in Hst.
    destruct (solve_result s (dt, w, its)) as [r|] eqn:E; [|by rewrite Hst].
    rewrite Hst. specialize (Hhead r eq_refl). subst s1. cbn.
    destruct (k =? 0)%Z; [exact Hhead|].
    destruct (success (_viscositySolver s) && _); [exact Hhead | exact Hok]. }
  destruct (IH (k + 1)%Z s2 Hok2) as [Hend Hfe].
  { eapply Forall_impl; [exact Hrest|]. intros e He r Hr.
    apply He. by rewrite <- (solve_result_flags s s2 _ Hf2). }
  split; [exact Hend|].
  destruct Hf2 as [A B], Hfe as [C D]. split; congruence.
Qed.

(** X5.  The viscosity status of a frame is its first failure: when the
    viscosity solve of some substep fails and every solve that ran in the
    substeps before it succeeded, the status recorded at the end of the
    frame is the result of that failed solve, whatever the later substeps
    do. *)
Theorem X5_viscosity_first_failure_kept
    (s : State) (before after : list (Q * W * Z)) (failing : Q * W * Z)
    (r : SolverStatus) :
  Forall (fun e => forall r', solve_result s e = Some r' -> success r' = true) before ->
  solve_result s failing = Some r ->
  success r = false ->
  _viscositySolver (frame 0 (before ++ failing :: after) (update_begin s)) = r.
Proof.
  intros Hbefore Hsolve Hfail.
  assert (Hgen : forall (l : list (Q * W * Z)) (k : Z) (s1 : State),
            (0 <= k)%Z -> same_flags s s1 -> success (_viscositySolver s1) = true ->
            Forall (fun e => forall r', solve_result s e = Some r' -> success r' = true) l ->
            _viscositySolver (frame k (l ++ failing :: after) s1) = r).
  { induction l as [|[[dt w] its] rest IH]; intros k s1 Hk Hf1 Hok Hall.
    - destruct failing as [[dt w] its]. cbn [app frame].
      set (s2 := mkState _ _ _ _ its k w).
      assert (Hf2 : same_flags s s2) by (destruct Hf1; by split).
      destruct (applyViscosity_status dt s2) as [_ Hst].
      change (solve_result s2 (dt, world s2, _pressureSolverIterations s2))
        with (solve_result s2 (dt, w, its)) in Hst.
      rewrite (solve_result_flags s s2 _ Hf2), Hsolve in Hst.
      assert (Hr : _viscositySolver (_applyViscosityToVelocityField dt s2) = r).
      { rewrite Hst. subst s2. cbn. destruct (k =? 0)%Z; [reflexivity|].
        by rewrite Hok, Hfail. }
      rewrite frame_failure_stays; [exact Hr | lia | by rewrite Hr].
    - apply Forall_cons in Hall as [Hhead Hrest].
      cbn [app frame].
      set (s2 := mkState _ _ _ _ its k w).
      assert (Hf2 : same_flags s s2) by (destruct Hf1; by split).
      destruct (frame_successes [(dt, w, its)] k s1) as [Hok3 Hf3]; [exact Hok| |].
      { constructor; [|constructor]. intros r' Hr'. apply Hhead.
        by rewrite <- (solve_result_flags s s1 _ Hf1). }
      cbn [frame] in Hok3, Hf3. fold s2 in Hok3, Hf3.
      apply IH; [lia | | exact Hok3 | exact Hrest].
      destruct Hf1 as [A B], Hf3 as [C D]. split; congruence. }
  apply Hgen; [lia | by split | reflexivity | exact Hbefore].
Qed.

End Solve.

(** A frame of three substeps whose second solve fails: the solver is
    scripted by the world, a counter of solves. *)
Definition scripted_solve (dt : Q) (w : nat) : nat * SolverStatus * string :=
  (S w,
   match w with
   | 1%nat => mkStatus false 900 (1 # 2)
   | _ => mkStatus true (Z.of_nat (10 * S w)) (1 # 1000)
   end,
   "Viscosity Solver"%string).

Lemma X5_witness :
  _viscositySolver nat
    (frame nat (fun _ => false) (fun w => w) (fun _ => false) (fun w => w) scripted_solve
       0 ([(1 # 3, 0%nat, 0%Z)] ++ (1 # 3, 1%nat, 25%Z) :: [(1 # 3, 2%nat, 7%Z)])
       (update_begin nat (mkState nat true false (mkStatus true 3 0) "" 0 0 0%nat)))
  = mkStatus false 900 (1 # 2).
Proof.
  apply (X5_viscosity_first_failure_kept nat (fun _ => false) (fun w => w)
           (fun _ => false) (fun w => w) scripted_solve
           (mkState nat true false (mkStatus true 3 0) "" 0 0 0%nat)
           [(1 # 3, 0%nat, 0%Z)] [(1 # 3, 2%nat, 7%Z)] (1 # 3, 1%nat, 25%Z)).
  - constructor; [|constructor]. intros r' Hr'. cbn in Hr'.
    injection Hr' as <-. reflexivity.
  - reflexivity.
  - reflexivity.
Defined.

End Viscosity.

(** ** Grid to particle transfer, APIC, and the particle integrator *)

Module Kernels.

Import Grid3d.

Section APIC.

Variable _dx : Q.

(** Modelled from the spec: [Grid3d::GridIndexToPosition] (grid3d.h is not
    under src/), the minimum corner of cell [g] in the grid of cubical
    cells with edge length [dx]. *)
Definition GridIndexToPosition (g : GridIndex) (dx : Q) : vec3 :=
  mkvec3 (inject_Z (i g) * dx) (inject_Z (j g) * dx) (inject_Z (k g) * dx).

(** [_getIndicesAndGradientWeights] (lines 6343-6403): [indices[n]] and
    [weights[n]] for n = 0..7, as a list of pairs.  [dir] is an [int]; a
    value other than U = 0, V = 1, W = 2 leaves the offset at zero. *)
Definition _getIndicesAndGradientWeights (p : vec3) (dir : Z)
  : list (GridIndex * vec3) :=
  let U := 0%Z in
  let V := 1%Z in
  let W := 2%Z in
  let h := (1 # 2) * _dx in
  let offset :=
    if (dir =? U)%Z then mkvec3 0 h h
    else if (dir =? V)%Z then mkvec3 h 0 h
    else if (dir =? W)%Z then mkvec3 h h 0
    else mkvec3 0 0 0 in
  let p := (p - offset)%vec in
  let g := positionToGridIndex p _dx in
  let gpos := GridIndexToPosition g _dx in
  let ipos := mkvec3 ((x p - x gpos) / _dx) ((y p - y gpos) / _dx)
                     ((z p - z gpos) / _dx) in
  let invdx := 1 / _dx in
  [ (mkGridIndex (i g) (j g) (k g),
     mkvec3 (- invdx * (1 - y ipos) * (1 - z ipos))
            (- invdx * (1 - x ipos) * (1 - z ipos))
            (- invdx * (1 - x ipos) * (1 - y ipos)));
    (mkGridIndex (i g + 1) (j g) (k g),
     mkvec3 (invdx * (1 - y ipos) * (1 - z ipos))
            (x ipos * (- invdx) * (1 - z ipos))
            (x ipos * (1 - y ipos) * (- invdx)));
    (mkGridIndex (i g) (j g + 1) (k g),
     mkvec3 ((- invdx) * y ipos * (1 - z ipos))
            ((1 - x ipos) * invdx * (1 - z ipos))
            ((1 - x ipos) * y ipos * (- invdx)));
    (mkGridIndex (i g + 1) (j g + 1) (k g),
     mkvec3 (invdx * y ipos * (1 - z ipos))
            (x ipos * invdx * (1 - z ipos))
            (x ipos * y ipos * (- invdx)));
    (mkGridIndex (i g) (j g) (k g + 1),
     mkvec3 ((- invdx) * (1 - y ipos) * z ipos)
            ((1 - x ipos) * (- invdx) * z ipos)
            ((1 - x ipos) * (1 - y ipos) * invdx));
    (mkGridIndex (i g + 1) (j g) (k g + 1),
     mkvec3 (invdx * (1 - y ipos) * z ipos)
            (x ipos * (- invdx) * z ipos)
            (x ipos * (1 - y ipos) * invdx));
    (mkGridIndex (i g) (j g + 1) (k g + 1),
     mkvec3 ((- invdx) * y ipos * z ipos)
            ((1 - x ipos) * invdx * z ipos)
            ((1 - x ipos) * y ipos * invdx));
    (mkGridIndex (i g + 1) (j g + 1) (k g + 1),
     mkvec3 (invdx * y ipos * z ipos)
            (x ipos * invdx * z ipos)
            (x ipos * y ipos * invdx)) ].

(** The MAC velocity field class is declared in another file: one of its
    three face grids is given by its range test and its read. *)
Record FaceGrid : Type := mkFaceGrid {
  isIndexInRange : GridIndex -> bool;
  value : GridIndex -> Q
}.

(** [for (gidx = 0; gidx < 8; gidx++) { if (!inRange(g)) continue;
    affine += weights[gidx] * field(g); }] *)
Definition affine (grid : FaceGrid) (pos : vec3) (dir : Z) : vec3 :=
  fold_left
    (fun a gw =>
       if negb (isIndexInRange grid gw.1) then a
       else (a + value grid gw.1 * gw.2)%vec)
    (_getIndicesAndGradientWeights pos dir) (mkvec3 0 0 0).

Variable MACVelocityField : Type.
Variable U V W : MACVelocityField -> FaceGrid.
Variable evaluateVelocityAtPositionLinear : MACVelocityField -> vec3 -> vec3.
Variable _MACVelocity : MACVelocityField.

(** The columns of [_markerParticles] that the thread reads and writes. *)
Record Columns : Type := mkColumns {
  POSITION : list vec3;
  VELOCITY : list vec3;
  AFFINEX : list vec3;
  AFFINEY : list vec3;
  AFFINEZ : list vec3
}.

(** [column->at(i) = v]: a checked write. *)
Definition set_at {A : Type} (l : list A) (i : Z) (v : A) : option (list A) :=
  match at_ l i with
  | Some _ => Some (<[Z.to_nat i := v]> l)
  | None => None
  end.

(** The body of the loop over the particles of the thread. *)
Definition picapic_particle (i : Z) (c : Columns) : option Columns :=
  match at_ (POSITION c) i with
  | None => None
  | Some pos =>
      let affineX := affine (U _MACVelocity) pos 0 in
      let affineY := affine (V _MACVelocity) pos 1 in
      let affineZ := affine (W _MACVelocity) pos 2 in
      match set_at (VELOCITY c) i (evaluateVelocityAtPositionLinear _MACVelocity pos),
            set_at (AFFINEX c) i affineX,
            set_at (AFFINEY c) i affineY,
            set_at (AFFINEZ c) i affineZ with
      | Some v, Some ax, Some ay, Some az => Some (mkColumns (POSITION c) v ax ay az)
      | _, _, _, _ => None
      end
  end.

Fixpoint picapic_loop (n : nat) (i : Z) (c : Columns) : option Columns :=
  match n with
  | O => Some c
  | S n' =>
      match picapic_particle i c with
      | Some c' => picapic_loop n' (i + 1)%Z c'
      | None => None
      end
  end.

(** [_updatePICAPICMarkerParticleVelocitiesThread] (lines 6425-6477). *)
Definition _updatePICAPICMarkerParticleVelocitiesThread
    (startidx endidx : Z) (c : Columns) : option Columns :=
  picapic_loop (Z.to_nat (endidx - startidx)) startidx c.

(** *** Properties *)

Definition sized (n : nat) (c : Columns) : Prop :=
  (n <= length (POSITION c))%nat /\ (n <= length (VELOCITY c))%nat
  /\ (n <= length (AFFINEX c))%nat /\ (n <= length (AFFINEY c))%nat
  /\ (n <= length (AFFINEZ c))%nat.

Lemma at_Some {A : Type} (l : list A) (i : Z) :
  (0 <= i)%Z -> (Z.to_nat i < length l)%nat -> exists a, at_ l i = Some a.
Proof.
  intros Hi Hl. unfold at_. destruct (Z.ltb_spec i 0); [lia|].
  by apply lookup_lt_is_Some_2.
Qed.

Lemma at_lookup {A : Type} (l : list A) (i : Z) :
  (0 <= i)%Z -> at_ l i = l !! Z.to_nat i.
Proof. intros Hi. unfold at_. destruct (Z.ltb_spec i 0); [lia | reflexivity]. Qed.

Lemma set_at_Some {A : Type} (l : list A) (i : Z) (v : A) :
  (0 <= i)%Z -> (Z.to_nat i < length l)%nat ->
  set_at l i v = Some (<[Z.to_nat i := v]> l).
Proof.
  intros Hi Hl. unfold set_at. by destruct (at_Some l i Hi Hl) as [a ->].
Qed.

(** The thread returns when its range is inside the columns: the slots of
    the range hold the affine vectors and the velocity computed at the
    particle's position, the other slots and the positions are as
    before. *)
Lemma picapic_loop_spec (n : nat) :
  forall (i : Z) (c : Columns),
    (0 <= i)%Z -> sized (Z.to_nat i + n) c ->
    exists c',
      picapic_loop n i c = Some c'
      /\ POSITION c' = POSITION c
      /\ sized (Z.to_nat i + n) c'
      /\ (forall m, (m < Z.to_nat i \/ Z.to_nat i + n <= m)%nat ->
            VELOCITY c' !! m = VELOCITY c !! m /\ AFFINEX c' !! m = AFFINEX c !! m
            /\ AFFINEY c' !! m = AFFINEY c !! m /\ AFFINEZ c' !! m = AFFINEZ c !! m)
      /\ (forall m pos, (Z.to_nat i <= m < Z.to_nat i + n)%nat ->
            POSITION c !! m = Some pos ->
            VELOCITY c' !! m = Some (evaluateVelocityAtPositionLinear _MACVelocity pos)
            /\ AFFINEX c' !! m = Some (affine (U _MACVelocity) pos 0)
            /\ AFFINEY c' !! m = Some (affine (V _MACVelocity) pos 1)
            /\ AFFINEZ c' !! m = Some (affine (W _MACVelocity) pos 2)).
Proof.
  induction n as [|n IH]; intros i c Hi Hs.
  - exists c. cbn.
    split; [reflexivity|]. split; [reflexivity|]. split; [exact Hs|].
    split; [auto | intros; lia].
  - destruct Hs as (Hp & Hv & Hx & Hy & Hz).
    cbn [picapic_loop]. unfold picapic_particle.
    destruct (at_Some (POSITION c) i Hi) as [pos Hpos]; [lia|].
    rewrite Hpos. cbv zeta.
    rewrite !set_at_Some by lia.
    set (c1 := mkColumns _ _ _ _ _).
    destruct (IH (i + 1)%Z c1) as (c' & Hrun & Hpos' & Hs' & Hout & Hin); [lia| |].
    { subst c1. unfold sized. cbn. rewrite !length_insert.
      repeat split; lia. }
    exists c'. split; [exact Hrun|]. split; [exact Hpos'|].
    split; [unfold sized in *; replace (Z.to_nat i + S n)%nat
              with (Z.to_nat (i + 1) + n)%nat by lia; exact Hs'|].
    split.
    + intros m Hm. destruct (Hout m) as (A & B & C & D); [lia|].
      rewrite A, B, C, D. subst c1. cbn.
      rewrite !list_lookup_insert_ne by lia. auto.
    + intros m pos' Hm Hpm.
      destruct (decide (m = Z.to_nat i)) as [->|Hne].
      * destruct (Hout (Z.to_nat i)) as (A & B & C & D); [lia|].
        rewrite A, B, C, D. subst c1. cbn.
        rewrite !list_lookup_insert_eq by lia.
        rewrite at_lookup in Hpos by lia.
        assert (pos' = pos) by congruence. subst pos'. auto.
      * apply Hin; [lia | exact Hpm].
Qed.

(** The eight weights of a direction add up to the zero vector on each
    axis, and they take the differences of the samples along the axes. *)
Lemma affine_linear (grid : FaceGrid) (pos : vec3) (dir : Z) (a b c d : Q) :
  Forall (fun gw => isIndexInRange grid gw.1 = true
                    /\ value grid gw.1
                       == a * inject_Z (i gw.1) + b * inject_Z (j gw.1)
                          + c * inject_Z (k gw.1) + d)
         (_getIndicesAndGradientWeights pos dir) ->
  affine grid pos dir =v= mkvec3 (1 / _dx * a) (1 / _dx * b) (1 / _dx * c).
Proof.
  unfold affine, _getIndicesAndGradientWeights. cbv zeta.
  set (p := (pos - _)%vec).
  set (g := positionToGridIndex p _dx).
  cbn [x y z].
  set (X := (x p - x (GridIndexToPosition g _dx)) / _dx).
  set (Y := (y p - y (GridIndexToPosition g _dx)) / _dx).
  set (Z := (z p - z (GridIndexToPosition g _dx)) / _dx).
  set (invdx := 1 / _dx).
  intros Hall.
  repeat match goal with
         | H : Forall _ (_ :: _) |- _ => apply Forall_cons in H as [[? ?] H]
         end.
  cbn [fst snd i j k fold_left] in *.
  repeat match goal with H : isIndexInRange _ _ = true |- _ => rewrite H; clear H end.
  cbn [negb]. unfold veq, vmath.add, vmath.scale. cbn [x y z].
  rewrite !inject_Z_plus in *. change (inject_Z 1) with 1 in *.
  repeat match goal with H : value _ _ == _ |- _ => rewrite H; clear H end.
  repeat split; ring.
Qed.

(** The samples of [grid] at the eight indices around [pos] are inside
    the grid and follow an affine function of the position of the index,
    with gradient [grad]. *)
Definition samples_affine (grid : FaceGrid) (pos : vec3) (dir : Z)
    (grad : vec3) (c0 : Q) : Prop :=
  Forall (fun gw => isIndexInRange grid gw.1 = true
                    /\ value grid gw.1
                       == dot grad (GridIndexToPosition gw.1 _dx) + c0)
         (_getIndicesAndGradientWeights pos dir).

Lemma affine_gradient (grid : FaceGrid) (pos : vec3) (dir : Z) (grad : vec3) (c0 : Q) :
  ~ _dx == 0 -> samples_affine grid pos dir grad c0 -> affine grid pos dir =v= grad.
Proof.
  intros Hdx Hs.
  eapply veq_trans.
  - apply (affine_linear grid pos dir (x grad * _dx) (y grad * _dx) (z grad * _dx) c0).
    eapply Forall_impl; [exact Hs|]. intros gw [Hin Hv]. split; [exact Hin|].
    rewrite Hv. unfold dot, GridIndexToPosition. cbn [x y z]. ring.
  - unfold veq. cbn [x y z]. repeat split; field; exact Hdx.
Qed.

(** X6.  The APIC transfer on a thread's range that lies inside the
    columns returns, stores the interpolated velocity, and stores as the
    affine vector of a velocity component its gradient, exactly, wherever
    the eight samples around the particle are inside the grid and follow
    an affine function of position (the zero vector for a uniform
    component).  Positions are not written. *)
Theorem X6_apic_affine_is_gradient
    (startidx endidx : Z) (c : Columns) (gradU gradV gradW : vec3) (cu cv cw : Q) :
  ~ _dx == 0 ->
  (0 <= startidx <= endidx)%Z ->
  sized (Z.to_nat endidx) c ->
  (forall m pos, (startidx <= m < endidx)%Z -> at_ (POSITION c) m = Some pos ->
     samples_affine (U _MACVelocity) pos 0 gradU cu
     /\ samples_affine (V _MACVelocity) pos 1 gradV cv
     /\ samples_affine (W _MACVelocity) pos 2 gradW cw) ->
  exists c',
    _updatePICAPICMarkerParticleVelocitiesThread startidx endidx c = Some c'
    /\ POSITION c' = POSITION c
    /\ forall m pos, (startidx <= m < endidx)%Z -> at_ (POSITION c) m = Some pos ->
         at_ (VELOCITY c') m = Some (evaluateVelocityAtPositionLinear _MACVelocity pos)
         /\ exists ax ay az,
              at_ (AFFINEX c') m = Some ax /\ at_ (AFFINEY c') m = Some ay
              /\ at_ (AFFINEZ c') m = Some az
              /\ ax =v= gradU /\ ay =v= gradV /\ az =v= gradW.
Proof.
  intros Hdx Hidx Hs Hfield.
  unfold _updatePICAPICMarkerParticleVelocitiesThread.
  destruct (picapic_loop_spec (Z.to_nat (endidx - startidx)) startidx c)
    as (c' & Hrun & Hpos & _ & _ & Hin); [lia| |].
  { replace (Z.to_nat startidx + Z.to_nat (endidx - startidx))%nat
      with (Z.to_nat endidx) by lia. exact Hs. }
  exists c'. split; [exact Hrun|]. split; [exact Hpos|].
  intros m pos Hm Hp.
  destruct (Hfield m pos Hm Hp) as (HU & HV & HW).
  rewrite at_lookup in Hp by lia.
  destruct (Hin (Z.to_nat m) pos) as (A & B & C & D); [lia | exact Hp |].
  rewrite !at_lookup by lia.
  split; [exact A|].
  eexists _, _, _. split; [exact B|]. split; [exact C|]. split; [exact D|].
  split; [|split]; eapply affine_gradient; eassumption.
Qed.

End APIC.

(** *** The integrator *)

Section RK3.

Variable MACVelocityField : Type.
Variable evaluateVelocityAtPositionLinear : MACVelocityField -> vec3 -> vec3.
Variable _MACVelocity : MACVelocityField.

(** [_RK3] (lines 7125-7132). *)
Definition _RK3 (p0 : vec3) (dt : Q) : vec3 :=
  let k1 := evaluateVelocityAtPositionLinear _MACVelocity p0 in
  let k2 := evaluateVelocityAtPositionLinear _MACVelocity
              (p0 + ((1 # 2) * dt) * k1)%vec in
  let k3 := evaluateVelocityAtPositionLinear _MACVelocity
              (p0 + ((3 # 4) * dt) * k2)%vec in
  (p0 + (dt / 9) * ((2 * k1 + 3 * k2) + 4 * k3))%vec.

(** X7.  In a velocity field that is uniform, the integrator moves a
    particle by the time step times the velocity. *)
Theorem X7_RK3_uniform_field (p0 v : vec3) (dt : Q) :
  (forall p, evaluateVelocityAtPositionLinear _MACVelocity p =v= v) ->
  _RK3 p0 dt =v= (p0 + dt * v)%vec.
Proof.
  intros Hv. unfold _RK3. cbv zeta.
  set (k1 := evaluateVelocityAtPositionLinear _MACVelocity p0).
  set (k2 := evaluateVelocityAtPositionLinear _MACVelocity _).
  set (k3 := evaluateVelocityAtPositionLinear _MACVelocity _).
  destruct (Hv p0) as (A1 & B1 & C1). fold k1 in A1, B1, C1.
  assert (H2 : k2 =v= v) by apply Hv. destruct H2 as (A2 & B2 & C2).
  assert (H3 : k3 =v= v) by apply Hv. destruct H3 as (A3 & B3 & C3).
  unfold veq, vmath.add, vmath.scale. cbn [x y z].
  rewrite A1, A2, A3, B1, B2, B3, C1, C2, C3.
  repeat split; field.
Qed.

(** X8.  In the linear field [v(p) = a p] the integrator multiplies the
    position by [1 + h + h^2/2 + h^3/6] with [h = a dt], the expansion of
    the exact factor [exp(a dt)] up to the third order. *)
Theorem X8_RK3_third_order (p0 : vec3) (a dt : Q) :
  (forall p, evaluateVelocityAtPositionLinear _MACVelocity p =v= (a * p)%vec) ->
  let h := a * dt in
  _RK3 p0 dt =v= ((1 + h + h * h / 2 + h * h * h / 6) * p0)%vec.
Proof.
  intros Hv h. subst h. unfold _RK3. cbv zeta.
  set (k1 := evaluateVelocityAtPositionLinear _MACVelocity p0).
  set (q2 := (p0 + ((1 # 2) * dt) * k1)%vec).
  set (k2 := evaluateVelocityAtPositionLinear _MACVelocity q2).
  set (q3 := (p0 + ((3 # 4) * dt) * k2)%vec).
  set (k3 := evaluateVelocityAtPositionLinear _MACVelocity q3).
  destruct (Hv p0) as (A1 & B1 & C1). fold k1 in A1, B1, C1.
  destruct (Hv q2) as (A2 & B2 & C2). fold k2 in A2, B2, C2.
  destruct (Hv q3) as (A3 & B3 & C3). fold k3 in A3, B3, C3.
  unfold q3, q2, vmath.add, vmath.scale in *. cbn [x y z] in *.
  rewrite A1 in A2. rewrite A2 in A3.
  rewrite B1 in B2. rewrite B2 in B3.
  rewrite C1 in C2. rewrite C2 in C3.
  unfold veq. cbn [x y z].
  rewrite A1, A2, A3, B1, B2, B3, C1, C2, C3.
  repeat split; field.
Qed.

End RK3.

(** *** On a grid of unit cells *)

(** The U component grows by 2 per cell along x, V and W are uniform; one
    particle at (1/2, 1/3, 1/4). *)
Definition ramp : FaceGrid :=
  mkFaceGrid (fun _ => true) (fun g => 2 * inject_Z (i g) + 3).

Definition flat : FaceGrid := mkFaceGrid (fun _ => true) (fun _ => 5).

Definition one_particle : Columns :=
  mkColumns [mkvec3 (1 # 2) (1 # 3) (1 # 4)] [mkvec3 0 0 0] [mkvec3 0 0 0]
            [mkvec3 0 0 0] [mkvec3 0 0 0].

Lemma ramp_samples (pos : vec3) (dir : Z) :
  samples_affine 1 ramp pos dir (mkvec3 2 0 0) 3.
Proof.
  unfold samples_affine, _getIndicesAndGradientWeights. cbv zeta.
  repeat constructor; unfold dot, GridIndexToPosition; cbn [fst snd ramp value i j k x y z];
    ring.
Qed.

Lemma flat_samples (pos : vec3) (dir : Z) :
  samples_affine 1 flat pos dir (mkvec3 0 0 0) 5.
Proof.
  unfold samples_affine, _getIndicesAndGradientWeights. cbv zeta.
  repeat constructor; unfold dot, GridIndexToPosition; cbn [fst snd flat value i j k x y z];
    ring.
Qed.

Lemma X6_witness :
  exists c',
    _updatePICAPICMarkerParticleVelocitiesThread 1 unit
      (fun _ => ramp) (fun _ => flat) (fun _ => flat) (fun _ p => p) tt 0 1 one_particle
    = Some c'
    /\ POSITION c' = POSITION one_particle.
Proof.
  destruct (X6_apic_affine_is_gradient 1 unit
              (fun _ => ramp) (fun _ => flat) (fun _ => flat) (fun _ p => p) tt
              0 1 one_particle (mkvec3 2 0 0) (mkvec3 0 0 0) (mkvec3 0 0 0) 3 5 5)
    as (c' & Hrun & Hpos & _).
  - intros H. discriminate H.
  - lia.
  - unfold sized. cbn. lia.
  - intros m pos _ _.
    split; [apply ramp_samples|]. split; apply flat_samples.
  - exists c'. split; [exact Hrun | exact Hpos].
Defined.

Lemma X7_witness :
  _RK3 unit (fun _ _ => mkvec3 1 2 3) tt (mkvec3 0 0 0) (1 # 2)
  =v= (mkvec3 0 0 0 + (1 # 2) * mkvec3 1 2 3)%vec.
Proof.
  apply (X7_RK3_uniform_field unit (fun _ _ => mkvec3 1 2 3) tt).
  intros p. apply veq_refl.
Defined.

Lemma X8_witness :
  _RK3 unit (fun _ p => ((-(1)) * p)%vec) tt (mkvec3 6 0 0) 1
  =v= ((1 + (-(1)) * 1 + (-(1)) * 1 * ((-(1)) * 1) / 2
        + (-(1)) * 1 * ((-(1)) * 1) * ((-(1)) * 1) / 6) * mkvec3 6 0 0)%vec.
Proof.
  apply (X8_RK3_third_order unit (fun _ p => ((-(1)) * p)%vec) tt (mkvec3 6 0 0) (-(1)) 1).
  intros p. apply veq_refl.
Defined.

End Kernels.

(** ** Exceptions and results of the public interface *)

Module Std.

(** The exceptions of <stdexcept> that leave the member functions below. *)
Inductive exception : Type :=
| runtime_error (what : string)
| invalid_argument (what : string)
| domain_error (what : string)
| out_of_range (what : string)
| length_error (what : string).

(** A call on an object with state [S] returns a value and leaves a
    state, or throws and leaves the state it had at the throw. *)
Inductive result (S A : Type) : Type :=
| Returns (a : A) (s : S)
| Throws (e : exception) (s : S).

Arguments Returns {S A} a s.
Arguments Throws {S A} e s.

End Std.

(** ** Mesh fluid sources and mesh obstacles (lines 2916-2999) *)

Module Scene.

Import Std.

Section Objects.

(** Mesh fluid sources and mesh obstacles are handed over by pointer; the
    classes are declared in other files.  A source is identified by
    [MeshFluidSource::getID], read through the pointer; an obstacle by the
    pointer itself. *)
Variable SourcePtr ObstaclePtr : Type.
Context `{EqDecision ObstaclePtr}.
Variable getID : SourcePtr -> Z.

Record State : Type := mkState {
  _meshFluidSources : list SourcePtr;
  _obstacles : list ObstaclePtr;
  _isSolidLevelSetUpToDate : bool;
  (* the lines written to _logfile, without time stamp and arguments *)
  _logfile : list string
}.

Definition log (line : string) (s : State) : State :=
  mkState (_meshFluidSources s) (_obstacles s) (_isSolidLevelSetUpToDate s)
          (_logfile s ++ [line]).

Definition set_meshFluidSources (l : list SourcePtr) (s : State) : State :=
  mkState l (_obstacles s) (_isSolidLevelSetUpToDate s) (_logfile s).

Definition set_obstacles (l : list ObstaclePtr) (s : State) : State :=
  mkState (_meshFluidSources s) l (_isSolidLevelSetUpToDate s) (_logfile s).

Definition set_isSolidLevelSetUpToDate (b : bool) (s : State) : State :=
  mkState (_meshFluidSources s) (_obstacles s) b (_logfile s).

(** [for (i = 0; i < v.size(); i++) if (same(v[i])) { v.erase(v.begin() + i);
    isFound = true; break; }]: the vector without its first match, or
    [None] when nothing matches. *)
Fixpoint erase_first {A : Type} (same : A -> bool) (v : list A) : option (list A) :=
  match v with
  | [] => None
  | a :: rest =>
      if same a then Some rest
      else match erase_first same rest with
           | Some rest' => Some (a :: rest')
           | None => None
           end
  end.

(** [addMeshFluidSource] (lines 2916-2928). *)
Definition addMeshFluidSource (source : SourcePtr) (s : State) : result State unit :=
  if existsb (fun p => (getID source =? getID p)%Z) (_meshFluidSources s)
  then Throws (runtime_error "Error: Mesh fluid source has already been added.") s
  else
    let s := log "addMeshFluidSource" s in
    Returns tt (set_meshFluidSources (_meshFluidSources s ++ [source]) s).

(** [removeMeshFluidSource] (lines 2930-2948). *)
Definition removeMeshFluidSource (source : SourcePtr) (s : State) : result State unit :=
  match erase_first (fun p => (getID source =? getID p)%Z) (_meshFluidSources s) with
  | None => Throws (invalid_argument "Error: could not find mesh fluid source to remove.") s
  | Some l => Returns tt (log "removeMeshFluidSource" (set_meshFluidSources l s))
  end.

(** [removeMeshFluidSources] (lines 2950-2955). *)
Definition removeMeshFluidSources (s : State) : State :=
  set_meshFluidSources [] (log "removeMeshFluidSources" s).

(** [addMeshObstacle] (lines 2957-2971). *)
Definition addMeshObstacle (obstacle : ObstaclePtr) (s : State) : result State unit :=
  if existsb (fun p => bool_decide (obstacle = p)) (_obstacles s)
  then Throws (runtime_error "Error: mesh obstacle has already been added.") s
  else
    let s := log "addMeshObstacle" s in
    let s := set_obstacles (_obstacles s ++ [obstacle]) s in
    Returns tt (set_isSolidLevelSetUpToDate false s).

(** [removeMeshObstacle] (lines 2973-2993). *)
Definition removeMeshObstacle (obstacle : ObstaclePtr) (s : State) : result State unit :=
  match erase_first (fun p => bool_decide (obstacle = p)) (_obstacles s) with
  | None => Throws (invalid_argument "Error: could not find mesh obstacle to remove.") s
  | Some l =>
      let s := log "removeMeshObstacle" (set_obstacles l s) in
      Returns tt (set_isSolidLevelSetUpToDate false s)
  end.

(** [removeMeshObstacles] (lines 2995-2999). *)
Definition removeMeshObstacles (s : State) : State :=
  set_isSolidLevelSetUpToDate false (set_obstacles [] s).

(** *** Properties *)

Lemma existsb_key {A K : Type} `{EqDecision K} (key : A -> K) (same : A -> bool)
    (k : K) (v : list A) :
  (forall a, same a = true <-> k = key a) ->
  existsb same v = true <-> k ∈ map key v.
Proof.
  intros Hsame. rewrite existsb_exists, list_elem_of_fmap. split.
  - intros (a & Ha & Hs). exists a. split; [by apply Hsame | by apply list_elem_of_In].
  - intros (a & Hk & Ha). exists a. split; [by apply list_elem_of_In | by apply Hsame].
Qed.

Lemma erase_first_None {A K : Type} (key : A -> K) (same : A -> bool) (k : K)
    (v : list A) :
  (forall a, same a = true <-> k = key a) ->
  erase_first same v = None <-> k ∉ map key v.
Proof.
  intros Hsame. induction v as [|a v IH]; cbn.
  - split; [intros _; apply not_elem_of_nil | reflexivity].
  - rewrite not_elem_of_cons. destruct (same a) eqn:E.
    + apply Hsame in E. split; [discriminate | tauto].
    + assert (k <> key a) by (intros Hk; apply Hsame in Hk; congruence).
      destruct (erase_first same v).
      * split; [discriminate | intros [_ Hn]; apply IH in Hn; discriminate].
      * split; [intros _; split; [assumption | by apply IH] | reflexivity].
Qed.

(** Erasing the first match from a vector with distinct keys removes the
    key and nothing else, and keeps the order. *)
Lemma erase_first_Some {A K : Type} (key : A -> K) (same : A -> bool) (k : K)
    (v v' : list A) :
  (forall a, same a = true <-> k = key a) ->
  NoDup (map key v) ->
  erase_first same v = Some v' ->
  v' = List.filter (fun a => negb (same a)) v
  /\ (k ∉ map key v') /\ NoDup (map key v')
  /\ (forall k', k' <> k -> k' ∈ map key v -> k' ∈ map key v').
Proof.
  intros Hsame. revert v'. induction v as [|a v IH]; intros v' Hnd He; [discriminate|].
  cbn in He, Hnd. apply NoDup_cons in Hnd as [Hna Hnd]. cbn [List.filter].
  destruct (same a) eqn:E.
  - injection He as <-. apply Hsame in E. subst k. cbn [negb].
    assert (Hf : List.filter (fun a0 => negb (same a0)) v = v).
    { apply forallb_filter_id. apply forallb_forall. intros b Hb.
      destruct (same b) eqn:Eb; [|reflexivity].
      apply Hsame in Eb. exfalso. apply Hna. rewrite Eb.
      apply list_elem_of_fmap. exists b. split; [reflexivity | by apply list_elem_of_In]. }
    rewrite Hf. split; [reflexivity|]. split; [exact Hna|]. split; [exact Hnd|].
    intros k' Hk' Hin. cbn in Hin. apply elem_of_cons in Hin as [->|Hin]; [congruence | exact Hin].
  - destruct (erase_first same v) as [r|] eqn:Er; [|discriminate].
    injection He as <-. cbn [negb].
    destruct (IH r Hnd eq_refl) as (Hr & Hk & Hndr & Hkeep).
    assert (Hne : k <> key a) by (intros Hk'; apply Hsame in Hk'; congruence).
    split; [by rewrite Hr|]. cbn [map].
    split; [rewrite not_elem_of_cons; tauto|].
    split.
    + apply NoDup_cons. split; [|exact Hndr].
      intros Hin. apply Hna. rewrite Hr in Hin.
      apply list_elem_of_fmap in Hin as (b & Hb & Hin).
      apply list_elem_of_In, filter_In in Hin as [Hin _].
      apply list_elem_of_fmap. exists b. split; [exact Hb | by apply list_elem_of_In].
    + intros k' Hk' Hin. cbn in Hin. apply elem_of_cons in Hin as [->|Hin].
      * apply list_elem_of_here.
      * apply list_elem_of_further. by apply Hkeep.
Qed.

Lemma erase_first_snoc {A : Type} (same : A -> bool) (v : list A) (a : A) :
  existsb same v = false -> same a = true -> erase_first same (v ++ [a]) = Some v.
Proof.
  intros Hv Ha. induction v as [|b v IH]; cbn in *; [by rewrite Ha|].
  apply orb_false_iff in Hv as [Hb Hv]. rewrite Hb, (IH Hv). reflexivity.
Qed.

Lemma same_id (source : SourcePtr) (p : SourcePtr) :
  (getID source =? getID p)%Z = true <-> getID source = getID p.
Proof. apply Z.eqb_eq. Qed.

Lemma same_pointer (obstacle : ObstaclePtr) (p : ObstaclePtr) :
  bool_decide (obstacle = p) = true <-> obstacle = (fun q : ObstaclePtr => q) p.
Proof. apply bool_decide_eq_true. Qed.

(** X9.  The mesh fluid sources of a simulation have pairwise distinct
    IDs.  Adding a source whose ID is present throws [std::runtime_error]
    and changes nothing; otherwise the source is appended and removing it
    again gives back the list of sources.  Removing an ID that is not
    present throws [std::invalid_argument] and changes nothing; otherwise
    the one source with that ID is erased and the others keep their
    order. *)
Theorem X9_mesh_fluid_sources (source : SourcePtr) (s : State) :
  NoDup (map getID (_meshFluidSources s)) ->
  (getID source ∈ map getID (_meshFluidSources s) ->
     exists what, addMeshFluidSource source s = Throws (runtime_error what) s)
  /\ (getID source ∉ map getID (_meshFluidSources s) ->
      exists s',
        addMeshFluidSource source s = Returns tt s'
        /\ _meshFluidSources s' = _meshFluidSources s ++ [source]
        /\ NoDup (map getID (_meshFluidSources s'))
        /\ exists s'',
             removeMeshFluidSource source s' = Returns tt s''
             /\ _meshFluidSources s'' = _meshFluidSources s)
  /\ (getID source ∉ map getID (_meshFluidSources s) ->
      exists what, removeMeshFluidSource source s = Throws (invalid_argument what) s)
  /\ (getID source ∈ map getID (_meshFluidSources s) ->
      exists s',
        removeMeshFluidSource source s = Returns tt s'
        /\ _meshFluidSources s'
           = List.filter (fun p => negb (getID source =? getID p)%Z) (_meshFluidSources s)
        /\ (getID source ∉ map getID (_meshFluidSources s'))
        /\ NoDup (map getID (_meshFluidSources s'))).
Proof.
  intros Hnd.
  pose proof (existsb_key getID _ (getID source) (_meshFluidSources s) (same_id source))
    as Hex.
  pose proof (erase_first_None getID _ (getID source) (_meshFluidSources s) (same_id source))
    as Hnone.
  split; [|split; [|split]].
  - intros Hin. apply Hex in Hin. unfold addMeshFluidSource. rewrite Hin. eauto.
  - intros Hnin. unfold addMeshFluidSource.
    destruct (existsb _ (_meshFluidSources s)) eqn:E; [exfalso; apply Hnin, Hex; reflexivity|].
    eexists. split; [reflexivity|]. cbn. split; [reflexivity|]. split.
    + rewrite map_app. apply NoDup_app. split; [exact Hnd|]. split.
      * intros k Hk Hk'. cbn in Hk'. apply list_elem_of_singleton in Hk'. congruence.
      * cbn. apply NoDup_singleton.
    + unfold removeMeshFluidSource. cbn.
      rewrite (erase_first_snoc _ _ _ E) by apply Z.eqb_refl.
      eexists. split; reflexivity.
  - intros Hnin. apply Hnone in Hnin. unfold removeMeshFluidSource. rewrite Hnin. eauto.
  - intros Hin. unfold removeMeshFluidSource.
    destruct (erase_first _ (_meshFluidSources s)) as [l|] eqn:E;
      [|exfalso; by apply Hnone].
    destruct (erase_first_Some getID _ (getID source) _ l (same_id source) Hnd E)
      as (Hl & Hk & Hndl & _).
    eexists. split; [reflexivity|]. cbn. auto.
Qed.

(** X10.  The mesh obstacles of a simulation are pairwise distinct
    pointers.  Adding one that is present throws [std::runtime_error],
    removing one that is not present throws [std::invalid_argument], and in
    both cases nothing changes, the level set flag included.  A successful
    add or remove marks the solid level set as out of date, and removing
    an obstacle erases it and keeps the others, in order. *)
Theorem X10_mesh_obstacles (obstacle : ObstaclePtr) (s : State) :
  NoDup (_obstacles s) ->
  (obstacle ∈ _obstacles s ->
     exists what, addMeshObstacle obstacle s = Throws (runtime_error what) s)
  /\ (obstacle ∉ _obstacles s ->
      exists s',
        addMeshObstacle obstacle s = Returns tt s'
        /\ _obstacles s' = _obstacles s ++ [obstacle]
        /\ NoDup (_obstacles s')
        /\ _isSolidLevelSetUpToDate s' = false)
  /\ (obstacle ∉ _obstacles s ->
      exists what, removeMeshObstacle obstacle s = Throws (invalid_argument what) s)
  /\ (obstacle ∈ _obstacles s ->
      exists s',
        removeMeshObstacle obstacle s = Returns tt s'
        /\ (obstacle ∉ _obstacles s')
        /\ NoDup (_obstacles s')
        /\ (forall p, p <> obstacle -> p ∈ _obstacles s -> p ∈ _obstacles s')
        /\ _isSolidLevelSetUpToDate s' = false).
Proof.
  intros Hnd.
  set (self := fun q : ObstaclePtr => q).
  assert (Hid : forall l : list ObstaclePtr, map self l = l) by apply List.map_id.
  pose proof (existsb_key self _ obstacle (_obstacles s) (same_pointer obstacle)) as Hex.
  pose proof (erase_first_None self _ obstacle (_obstacles s) (same_pointer obstacle))
    as Hnone.
  rewrite Hid in Hex, Hnone.
  split; [|split; [|split]].
  - intros Hin. apply Hex in Hin. unfold addMeshObstacle. rewrite Hin. eauto.
  - intros Hnin. unfold addMeshObstacle.
    destruct (existsb _ (_obstacles s)) eqn:E; [exfalso; apply Hnin, Hex; reflexivity|].
    eexists. split; [reflexivity|]. cbn. split; [reflexivity|]. split; [|reflexivity].
    apply NoDup_app. split; [exact Hnd|]. split; [|apply NoDup_singleton].
    intros p Hp Hp'. apply list_elem_of_singleton in Hp'. congruence.
  - intros Hnin. apply Hnone in Hnin. unfold removeMeshObstacle. rewrite Hnin. eauto.
  - intros Hin. unfold removeMeshObstacle.
    destruct (erase_first _ (_obstacles s)) as [l|] eqn:E;
      [|exfalso; by apply Hnone].
    destruct (erase_first_Some self _ obstacle (_obstacles s) l (same_pointer obstacle))
      as (_ & Hk & Hndl & Hkeep); [by rewrite Hid | exact E |].
    rewrite Hid in Hk, Hndl.
    eexists. split; [reflexivity|]. cbn.
    split; [exact Hk|]. split; [exact Hndl|]. split; [|reflexivity].
    intros p Hp Hpin. specialize (Hkeep p Hp). rewrite !Hid in Hkeep. by apply Hkeep.
Qed.

End Objects.

(** Sources 7 and 9 are present; a source with ID 8 is added and removed
    again. *)
Lemma X9_witness :
  exists s',
    addMeshFluidSource Z Z (fun p => p) 8%Z (mkState Z Z [7%Z; 9%Z] [] true [])
    = Returns tt s'
    /\ _meshFluidSources Z Z s' = [7%Z; 9%Z; 8%Z].
Proof.
  destruct (X9_mesh_fluid_sources Z Z (fun p => p) 8%Z
              (mkState Z Z [7%Z; 9%Z] [] true []))
    as (_ & Hadd & _).
  - cbn. by apply (bool_decide_unpack _).
  - destruct Hadd as (s' & Hrun & Hl & _); [cbn; by apply (bool_decide_unpack _)|].
    exists s'. split; [exact Hrun | exact Hl].
Defined.

Lemma X10_witness :
  exists s',
    removeMeshObstacle Z Z 4%Z (mkState Z Z [] [3%Z; 4%Z; 5%Z] true [])
    = Returns tt s'
    /\ _isSolidLevelSetUpToDate Z Z s' = false.
Proof.
  destruct (X10_mesh_obstacles Z Z 4%Z (mkState Z Z [] [3%Z; 4%Z; 5%Z] true []))
    as (_ & _ & _ & Hrm).
  - cbn. by apply (bool_decide_unpack _).
  - destruct Hrm as (s' & Hrun & _ & _ & _ & Hflag); [cbn; by apply (bool_decide_unpack _)|].
    exists s'. split; [exact Hrun | exact Hflag].
Defined.

End Scene.

(** ** Constant body forces (lines 2396-2417, 5420-5427, 5506-5545) *)

Module BodyForces.

Import Grid3d.

(** The face grids of [MACVelocityField] and the flags of
    [ValidVelocityComponentGrid] (both declared in other files), read at a
    face index. *)
Record MACVelocityField : Type := mkMAC {
  U : GridIndex -> Q;
  V : GridIndex -> Q;
  W : GridIndex -> Q
}.

Record ValidVelocityComponentGrid : Type := mkValid {
  validU : GridIndex -> bool;
  validV : GridIndex -> bool;
  validW : GridIndex -> bool
}.

(** [a(i, j, k) += v] *)
Definition add_at (g : GridIndex) (v : Q) (a : GridIndex -> Q) : GridIndex -> Q :=
  fun g' => if bool_decide (g' = g) then a g' + v else a g'.

Definition addU (g : GridIndex) (v : Q) (mac : MACVelocityField) : MACVelocityField :=
  mkMAC (add_at g v (U mac)) (V mac) (W mac).

Definition addV (g : GridIndex) (v : Q) (mac : MACVelocityField) : MACVelocityField :=
  mkMAC (U mac) (add_at g v (V mac)) (W mac).

Definition addW (g : GridIndex) (v : Q) (mac : MACVelocityField) : MACVelocityField :=
  mkMAC (U mac) (V mac) (add_at g v (W mac)).

(** [for (k = 0; k < nk; k++) for (j = 0; j < nj; j++) for (i = 0; i < ni; i++)]:
    the indices in the order the loop visits them. *)
Definition for_kji (ni nj nk : Z) : list GridIndex :=
  k ← seqZ 0 nk; j ← seqZ 0 nj; i ← seqZ 0 ni; [mkGridIndex i j k].

Record State : Type := mkState {
  _constantBodyForces : list vec3;
  _MACVelocity : MACVelocityField;
  (* the lines written to _logfile, without time stamp and arguments *)
  _logfile : list string
}.

Definition log (line : string) (s : State) : State :=
  mkState (_constantBodyForces s) (_MACVelocity s) (_logfile s ++ [line]).

Definition set_constantBodyForces (l : list vec3) (s : State) : State :=
  mkState l (_MACVelocity s) (_logfile s).

Definition set_MACVelocity (mac : MACVelocityField) (s : State) : State :=
  mkState (_constantBodyForces s) mac (_logfile s).

(** [addBodyForce(vmath::vec3)] and [addBodyForce(fx, fy, fz)]
    (lines 2396-2406). *)
Definition addBodyForce (f : vec3) (s : State) : State :=
  let s := log "addBodyForce" s in
  set_constantBodyForces (_constantBodyForces s ++ [f]) s.

Definition addBodyForce_xyz (fx fy fz : Q) (s : State) : State :=
  addBodyForce (mkvec3 fx fy fz) s.

(** [_getConstantBodyForce] (lines 5420-5427); [vmath::vec3 bf] starts as
    the zero vector. *)
Definition _getConstantBodyForce (s : State) : vec3 :=
  fold_left (fun bf f => (bf + f)%vec) (_constantBodyForces s) (mkvec3 0 0 0).

(** [getConstantBodyForce] (lines 2408-2410). *)
Definition getConstantBodyForce (s : State) : vec3 := _getConstantBodyForce s.

(** [resetBodyForce] (lines 2412-2417). *)
Definition resetBodyForce (s : State) : State :=
  set_constantBodyForces [] (log "resetBodyForce" s).

Section Apply.

Variable _isize _jsize _ksize : Z.

(** [_applyConstantBodyForces] (lines 5506-5545). *)
Definition _applyConstantBodyForces (ex : ValidVelocityComponentGrid) (dt : Q)
    (s : State) : State :=
  let bodyForce := _getConstantBodyForce s in
  let eps := 1 # 1000000 in
  let mac := _MACVelocity s in
  let mac :=
    if Qltb eps (Qabs (x bodyForce)) then
      fold_left (fun mac g =>
                   if negb (validU ex g) then addU g (x bodyForce * dt) mac else mac)
                (for_kji (_isize + 1) _jsize _ksize) mac
    else mac in
  let mac :=
    if Qltb eps (Qabs (y bodyForce)) then
      fold_left (fun mac g =>
                   if negb (validV ex g) then addV g (y bodyForce * dt) mac else mac)
                (for_kji _isize (_jsize + 1) _ksize) mac
    else mac in
  let mac :=
    if Qltb eps (Qabs (z bodyForce)) then
      fold_left (fun mac g =>
                   if negb (validW ex g) then addW g (z bodyForce * dt) mac else mac)
                (for_kji _isize _jsize (_ksize + 1)) mac
    else mac in
  set_MACVelocity mac s.

(** *** Properties *)

Lemma elem_of_for_kji (ni nj nk : Z) (g : GridIndex) :
  g ∈ for_kji ni nj nk <-> isGridIndexInRange g ni nj nk = true.
Proof.
  unfold for_kji, isGridIndexInRange. rewrite list_elem_of_bind. split.
  - intros (c & Hg & Hc). apply list_elem_of_bind in Hg as (b & Hg & Hb).
    apply list_elem_of_bind in Hg as (a & Hg & Ha).
    apply list_elem_of_singleton in Hg. subst g. cbn.
    apply elem_of_seqZ in Ha, Hb, Hc.
    repeat (apply andb_true_intro; split); lia.
  - intros H. destruct g as [a b c]. cbn in H.
    repeat (apply andb_prop in H as [H ?]).
    exists c. split; [|apply elem_of_seqZ; lia].
    apply list_elem_of_bind. exists b. split; [|apply elem_of_seqZ; lia].
    apply list_elem_of_bind. exists a. split; [|apply elem_of_seqZ; lia].
    apply list_elem_of_singleton. reflexivity.
Qed.

Lemma NoDup_for_kji (ni nj nk : Z) : NoDup (for_kji ni nj nk).
Proof.
  unfold for_kji. apply NoDup_bind; [| |apply NoDup_seqZ].
  - intros c c' g _ _ Hg Hg'.
    apply list_elem_of_bind in Hg as (b & Hg & _).
    apply list_elem_of_bind in Hg as (a & Hg & _).
    apply list_elem_of_bind in Hg' as (b' & Hg' & _).
    apply list_elem_of_bind in Hg' as (a' & Hg' & _).
    apply list_elem_of_singleton in Hg, Hg'. congruence.
  - intros c _. apply NoDup_bind; [| |apply NoDup_seqZ].
    + intros b b' g _ _ Hg Hg'.
      apply list_elem_of_bind in Hg as (a & Hg & _).
      apply list_elem_of_bind in Hg' as (a' & Hg' & _).
      apply list_elem_of_singleton in Hg, Hg'. congruence.
    + intros b _. apply NoDup_bind; [| |apply NoDup_seqZ].
      * intros a a' g _ _ Hg Hg'.
        apply list_elem_of_singleton in Hg, Hg'. congruence.
      * intros a _. apply NoDup_singleton.
Qed.

(** A loop that adds [v] at the faces of [l] that are not marked adds [v]
    once at each of them and nowhere else. *)
Lemma fold_add_at (valid : GridIndex -> bool) (v : Q) (l : list GridIndex)
    (a : GridIndex -> Q) (g : GridIndex) :
  NoDup l ->
  fold_left (fun a g => if negb (valid g) then add_at g v a else a) l a g
  = if bool_decide (g ∈ l) && negb (valid g) then a g + v else a g.
Proof.
  intros Hnd. revert a. induction Hnd as [|h l Hh Hnd IH]; intros a; cbn [fold_left].
  - reflexivity.
  - rewrite IH. unfold add_at.
    destruct (decide (g = h)) as [->|Hne].
    + rewrite (bool_decide_eq_false_2 (h ∈ l)) by exact Hh.
      rewrite (bool_decide_eq_true_2 (h ∈ h :: l)) by apply list_elem_of_here.
      cbn [andb]. destruct (negb (valid h)); [|reflexivity].
      rewrite bool_decide_eq_true_2 by reflexivity. reflexivity.
    + assert (Hb : bool_decide (g ∈ h :: l) = bool_decide (g ∈ l)).
      { apply bool_decide_ext. rewrite elem_of_cons. tauto. }
      rewrite Hb.
      assert (Ha : (if negb (valid h)
                    then fun g' => if bool_decide (g' = h) then a g' + v else a g'
                    else a) g = a g).
      { destruct (negb (valid h)); [|reflexivity].
        rewrite bool_decide_eq_false_2 by exact Hne. reflexivity. }
      rewrite Ha. reflexivity.
Qed.

Lemma bool_decide_for_kji (ni nj nk : Z) (g : GridIndex) :
  bool_decide (g ∈ for_kji ni nj nk) = isGridIndexInRange g ni nj nk.
Proof.
  destruct (isGridIndexInRange g ni nj nk) eqn:E.
  - apply bool_decide_eq_true_2, elem_of_for_kji, E.
  - apply bool_decide_eq_false_2. rewrite elem_of_for_kji. congruence.
Qed.

Lemma foldU (valid : GridIndex -> bool) (v : Q) (l : list GridIndex)
    (mac : MACVelocityField) :
  fold_left (fun mac g => if negb (valid g) then addU g v mac else mac) l mac
  = mkMAC (fold_left (fun a g => if negb (valid g) then add_at g v a else a) l (U mac))
          (V mac) (W mac).
Proof.
  revert mac. induction l as [|h l IH]; intros mac; cbn [fold_left].
  - by destruct mac.
  - rewrite IH. by destruct (negb (valid h)).
Qed.

Lemma foldV (valid : GridIndex -> bool) (v : Q) (l : list GridIndex)
    (mac : MACVelocityField) :
  fold_left (fun mac g => if negb (valid g) then addV g v mac else mac) l mac
  = mkMAC (U mac)
          (fold_left (fun a g => if negb (valid g) then add_at g v a else a) l (V mac))
          (W mac).
Proof.
  revert mac. induction l as [|h l IH]; intros mac; cbn [fold_left].
  - by destruct mac.
  - rewrite IH. by destruct (negb (valid h)).
Qed.

Lemma foldW (valid : GridIndex -> bool) (v : Q) (l : list GridIndex)
    (mac : MACVelocityField) :
  fold_left (fun mac g => if negb (valid g) then addW g v mac else mac) l mac
  = mkMAC (U mac) (V mac)
          (fold_left (fun a g => if negb (valid g) then add_at g v a else a) l (W mac)).
Proof.
  revert mac. induction l as [|h l IH]; intros mac; cbn [fold_left].
  - by destruct mac.
  - rewrite IH. by destruct (negb (valid h)).
Qed.

(** X11.  [_applyConstantBodyForces] accelerates the faces of the grid
    that inflow does not constrain, and nothing else: the velocity of such
    a face changes by [dt] times the component of the sum of the forces
    added since the last reset, when that component is larger than 1e-6 in
    magnitude; every other face keeps its velocity.  After
    [resetBodyForce] the sum is zero and the field is left as it is, and
    [addBodyForce] adds its argument to the sum. *)
Theorem X11_constant_body_forces (ex : ValidVelocityComponentGrid) (dt : Q)
    (s : State) (f : vec3) (g : GridIndex) :
  let bf := getConstantBodyForce s in
  let mac := _MACVelocity s in
  let mac' := _MACVelocity (_applyConstantBodyForces ex dt s) in
  U mac' g
  = (if isGridIndexInRange g (_isize + 1) _jsize _ksize && negb (validU ex g)
        && Qltb (1 # 1000000) (Qabs (x bf))
     then U mac g + x bf * dt else U mac g)
  /\ V mac' g
     = (if isGridIndexInRange g _isize (_jsize + 1) _ksize && negb (validV ex g)
           && Qltb (1 # 1000000) (Qabs (y bf))
        then V mac g + y bf * dt else V mac g)
  /\ W mac' g
     = (if isGridIndexInRange g _isize _jsize (_ksize + 1) && negb (validW ex g)
           && Qltb (1 # 1000000) (Qabs (z bf))
        then W mac g + z bf * dt else W mac g)
  /\ _constantBodyForces (_applyConstantBodyForces ex dt s) = _constantBodyForces s
  /\ getConstantBodyForce (resetBodyForce s) = mkvec3 0 0 0
  /\ _MACVelocity (_applyConstantBodyForces ex dt (resetBodyForce s)) = mac
  /\ getConstantBodyForce (addBodyForce f s) = (bf + f)%vec
  /\ getConstantBodyForce (addBodyForce_xyz (x f) (y f) (z f) s) = (bf + f)%vec.
Proof.
  cbn zeta. unfold getConstantBodyForce.
  split; [|split; [|split; [|split; [|split; [|split; [|split]]]]]].
  - unfold _applyConstantBodyForces. cbn zeta. cbn [_MACVelocity set_MACVelocity].
    destruct (Qltb _ (Qabs (x _))), (Qltb _ (Qabs (y _))), (Qltb _ (Qabs (z _)));
      rewrite ?foldW, ?foldV, ?foldU; cbn [U V W];
      rewrite ?fold_add_at by apply NoDup_for_kji;
      rewrite ?bool_decide_for_kji, ?andb_true_r, ?andb_false_r; reflexivity.
  - unfold _applyConstantBodyForces. cbn zeta. cbn [_MACVelocity set_MACVelocity].
    destruct (Qltb _ (Qabs (x _))), (Qltb _ (Qabs (y _))), (Qltb _ (Qabs (z _)));
      rewrite ?foldW, ?foldV, ?foldU; cbn [U V W];
      rewrite ?fold_add_at by apply NoDup_for_kji;
      rewrite ?bool_decide_for_kji, ?andb_true_r, ?andb_false_r; reflexivity.
  - unfold _applyConstantBodyForces. cbn zeta. cbn [_MACVelocity set_MACVelocity].
    destruct (Qltb _ (Qabs (x _))), (Qltb _ (Qabs (y _))), (Qltb _ (Qabs (z _)));
      rewrite ?foldW, ?foldV, ?foldU; cbn [U V W];
      rewrite ?fold_add_at by apply NoDup_for_kji;
      rewrite ?bool_decide_for_kji, ?andb_true_r, ?andb_false_r; reflexivity.
  - reflexivity.
  - reflexivity.
  - unfold _applyConstantBodyForces. cbn. by destruct (_MACVelocity s).
  - unfold _getConstantBodyForce, addBodyForce. cbn.
    rewrite fold_left_app. reflexivity.
  - unfold _getConstantBodyForce, addBodyForce_xyz, addBodyForce. cbn.
    rewrite fold_left_app. cbn. by destruct f.
Qed.

End Apply.

End BodyForces.

(** ** Reading and loading marker particles
       (lines 3012-3091, 3377-3407, 3636-3654, 3737-3758, 4635-4766,
        4772-4813) *)

Module ParticleIO.

Import Std Particles.

(** Modelled from the spec: [vec3 * double] and [vec3 / double] of vmath.h
    (not under src/), componentwise. *)
Definition mul (a : vec3) (s : Q) : vec3 := mkvec3 (x a * s) (y a * s) (z a * s).
Definition div (a : vec3) (s : Q) : vec3 := mkvec3 (x a / s) (y a / s) (z a / s).

(** [ParticleSystem::size] (declared in another file): the number of
    particles; every column holds one value for each. *)
Definition size (ps : ParticleSystem) : Z := Z.of_nat (length (POSITION ps)).

(** [for (int i = startidx; i < endidx; i++) out.push_back(read(i))], where
    [read] goes through [vector::at], which throws [std::out_of_range]
    past the end of the column. *)
Fixpoint copy_loop {B : Type} (n : nat) (i : Z) (read : Z -> option B) (out : list B)
  : exception + list B :=
  match n with
  | O => inr out
  | S n' =>
      match read i with
      | None => inl (out_of_range "vector::at")
      | Some v => copy_loop n' (i + 1)%Z read (out ++ [v])
      end
  end.

Definition copy_range {B : Type} (read : Z -> option B) (startidx endidx : Z)
  : exception + list B :=
  copy_loop (Z.to_nat (endidx - startidx)) startidx read [].

(** The range test of the [std::vector] getters, and
    [particles.reserve(endidx - startidx)]: the [int] difference becomes a
    [size_t], so that a negative one is larger than [max_size()] and
    [reserve] throws [std::length_error]. *)
Definition checked_range {B : Type} (read : Z -> option B) (startidx endidx : Z)
    (ps : ParticleSystem) : exception + list B :=
  let size := size ps in
  if negb ((0 <=? startidx)%Z && (startidx <=? size)%Z)
     || negb ((0 <=? endidx)%Z && (endidx <=? size)%Z)
  then inl (out_of_range "Error: invalid index range.")
  else if (endidx - startidx <? 0)%Z
  then inl (length_error "vector::reserve")
  else copy_range read startidx endidx.

(** [getMarkerParticles(int, int)] and [getMarkerParticles()]
    (lines 3016-3041). *)
Definition getMarkerParticles_range (startidx endidx : Z) (ps : ParticleSystem)
  : exception + list MarkerParticle :=
  checked_range
    (fun i => match at_ (POSITION ps) i with
              | None => None
              | Some p => match at_ (VELOCITY ps) i with
                          | None => None
                          | Some v => Some (mkMarkerParticle p v)
                          end
              end)
    startidx endidx ps.

Definition getMarkerParticles (ps : ParticleSystem) : exception + list MarkerParticle :=
  getMarkerParticles_range 0 (size ps) ps.

(** [getMarkerParticlePositions(int, int)] and [getMarkerParticlePositions()]
    (lines 3043-3066). *)
Definition getMarkerParticlePositions_range (startidx endidx : Z) (ps : ParticleSystem)
  : exception + list vec3 :=
  checked_range (at_ (POSITION ps)) startidx endidx ps.

Definition getMarkerParticlePositions (ps : ParticleSystem) : exception + list vec3 :=
  getMarkerParticlePositions_range 0 (size ps) ps.

(** [getMarkerParticleVelocities(int, int)] and
    [getMarkerParticleVelocities()] (lines 3068-3091). *)
Definition getMarkerParticleVelocities_range (startidx endidx : Z) (ps : ParticleSystem)
  : exception + list vec3 :=
  checked_range (at_ (VELOCITY ps)) startidx endidx ps.

Definition getMarkerParticleVelocities (ps : ParticleSystem) : exception + list vec3 :=
  getMarkerParticleVelocities_range 0 (size ps) ps.

Section Domain.

Variable _isize _jsize _ksize : Z.
Variable _dx : Q.
Variable _domainScale : Q.
Variable _domainOffset : vec3.

(** The [...Data] functions fill the caller's buffer [data]: the result
    is the list of the values stored at [data[0]], [data[1]], ... *)

(** [getMarkerParticlePositionDataRange] (lines 3377-3391). *)
Definition getMarkerParticlePositionDataRange (start_idx end_idx : Z) (ps : ParticleSystem)
  : exception + list vec3 :=
  if (start_idx <? 0)%Z || (size ps <? end_idx)%Z || (end_idx <? start_idx)%Z
  then inl (domain_error "Error: invalid range.")
  else copy_range (fun i => match at_ (POSITION ps) i with
                            | None => None
                            | Some v => Some (mul v _domainScale + _domainOffset)%vec
                            end)
                  start_idx end_idx.

(** [getMarkerParticleVelocityDataRange] (lines 3393-3407). *)
Definition getMarkerParticleVelocityDataRange (start_idx end_idx : Z) (ps : ParticleSystem)
  : exception + list vec3 :=
  if (start_idx <? 0)%Z || (size ps <? end_idx)%Z || (end_idx <? start_idx)%Z
  then inl (domain_error "Error: invalid range.")
  else copy_range (at_ (VELOCITY ps)) start_idx end_idx.

(** [getMarkerParticlePositionData] (lines 3636-3644). *)
Definition getMarkerParticlePositionData (ps : ParticleSystem) : exception + list vec3 :=
  copy_range (fun i => match at_ (POSITION ps) i with
                       | None => None
                       | Some v => Some (mul v _domainScale + _domainOffset)%vec
                       end)
             0 (size ps).

(** [getMarkerParticleVelocityData] (lines 3646-3654); the column it asks
    for is "POSITION". *)
Definition getMarkerParticleVelocityData (ps : ParticleSystem) : exception + list vec3 :=
  copy_range (at_ (POSITION ps)) 0 (size ps).

(** *** Loading *)

Record State : Type := mkState {
  _markerParticles : ParticleSystem;
  _markerParticleLoadQueue : list (list MarkerParticle);
  _isMarkerParticleLoadPending : bool;
  (* the lines written to _logfile, without time stamp and arguments *)
  _logfile : list string
}.

(** [loadMarkerParticleData] (lines 3737-3758).  [data] stands for the
    [data.size] particles that the two buffers of the argument hold. *)
Definition loadMarkerParticleData (data : list MarkerParticle) (s : State) : State :=
  let s := mkState (_markerParticles s) (_markerParticleLoadQueue s)
                   (_isMarkerParticleLoadPending s)
                   (_logfile s ++ ["loadMarkerParticleData"%string]) in
  if (Z.of_nat (length data) =? 0)%Z then s
  else mkState (_markerParticles s) (_markerParticleLoadQueue s ++ [data]) true
               (_logfile s).

(** The position that [_loadMarkerParticles] stores for a loaded one. *)
Definition toGrid (p : vec3) : vec3 := div (p - _domainOffset)%vec _domainScale.

Definition bounds : AABB.t :=
  AABB.mk (mkvec3 0 0 0) (inject_Z _isize * _dx) (inject_Z _jsize * _dx)
          (inject_Z _ksize * _dx).

(** [_loadMarkerParticles] (lines 4635-4766), the POSITION and VELOCITY
    columns, without the call of [ParticleSystem::update] (declared in
    another file) that ends it. *)
Definition _loadMarkerParticles (particleData : list MarkerParticle) (ps : ParticleSystem)
  : ParticleSystem :=
  match particleData with
  | [] => ps
  | _ =>
      fold_left
        (fun ps mp =>
           let position := toGrid (position mp) in
           if AABB.isPointInside bounds position
           then mkParticleSystem (POSITION ps ++ [position]) (VELOCITY ps ++ [velocity mp])
           else ps)
        particleData ps
  end.

(** [_loadParticles] (lines 4772-4813), the marker particle queue. *)
Definition _loadParticles (s : State) : State :=
  let ps := fold_left (fun ps particleData => _loadMarkerParticles particleData ps)
                      (_markerParticleLoadQueue s) (_markerParticles s) in
  mkState ps [] false (_logfile s).

(** *** Properties *)

(** The values from [a] up to, not including, [b]. *)
Definition slice {A : Type} (l : list A) (a b : Z) : list A :=
  take (Z.to_nat (b - a)) (drop (Z.to_nat a) l).

Lemma copy_loop_slice {B : Type} (read : Z -> option B) (l : list B) (n : nat) (i : Z)
    (out : list B) :
  (forall m, (0 <= m)%Z -> read m = l !! Z.to_nat m) ->
  (0 <= i)%Z -> (Z.to_nat i + n <= length l)%nat ->
  copy_loop n i read out = inr (out ++ take n (drop (Z.to_nat i) l)).
Proof.
  intros Hread. revert i out. induction n as [|n IH]; intros i out Hi Hn; cbn [copy_loop].
  - by rewrite take_0, app_nil_r.
  - rewrite Hread by exact Hi.
    destruct (l !! Z.to_nat i) as [v|] eqn:E.
    + rewrite IH by lia.
      rewrite (drop_S _ _ _ E). cbn [take].
      replace (Z.to_nat (i + 1)) with (S (Z.to_nat i)) by lia.
      by rewrite <- app_assoc.
    + apply lookup_ge_None in E. lia.
Qed.

Lemma copy_range_slice {B : Type} (read : Z -> option B) (l : list B) (a b : Z) :
  (forall m, (0 <= m)%Z -> read m = l !! Z.to_nat m) ->
  (0 <= a <= b)%Z -> (b <= Z.of_nat (length l))%Z ->
  copy_range read a b = inr (slice l a b).
Proof.
  intros Hread Hab Hb. unfold copy_range.
  rewrite (copy_loop_slice read l) by (try assumption; lia). reflexivity.
Qed.

Lemma slice_app {A : Type} (l : list A) (a b c : Z) :
  (0 <= a <= b)%Z -> (b <= c)%Z -> slice l a b ++ slice l b c = slice l a c.
Proof.
  intros Hab Hbc. unfold slice.
  replace (Z.to_nat b) with (Z.to_nat a + Z.to_nat (b - a))%nat by lia.
  rewrite <- drop_drop, take_take_drop. f_equal. lia.
Qed.

Lemma slice_all {A : Type} (l : list A) : slice l 0 (Z.of_nat (length l)) = l.
Proof.
  unfold slice. cbn [Z.to_nat]. rewrite drop_0. apply take_ge. lia.
Qed.

Lemma slice_fmap {A B : Type} (f : A -> B) (l : list A) (a b : Z) :
  slice (f <$> l) a b = f <$> slice l a b.
Proof. unfold slice. by rewrite fmap_take, fmap_drop. Qed.

Lemma slice_zip_with {A B C : Type} (f : A -> B -> C) (l : list A) (k : list B) (a b : Z) :
  slice (zip_with f l k) a b = zip_with f (slice l a b) (slice k a b).
Proof. unfold slice. by rewrite zip_with_drop, zip_with_take. Qed.

Lemma checked_range_ok {B : Type} (read : Z -> option B) (l : list B) (a b : Z)
    (ps : ParticleSystem) :
  (forall m, (0 <= m)%Z -> read m = l !! Z.to_nat m) ->
  length l = length (POSITION ps) ->
  (0 <= a <= b)%Z -> (b <= size ps)%Z ->
  checked_range read a b ps = inr (slice l a b).
Proof.
  intros Hread Hl Hab Hb. unfold checked_range, size in *.
  destruct (Z.leb_spec 0 a); [|lia].
  destruct (Z.leb_spec a (Z.of_nat (length (POSITION ps)))); [|lia].
  destruct (Z.leb_spec 0 b); [|lia].
  destruct (Z.leb_spec b (Z.of_nat (length (POSITION ps)))); [|lia].
  cbn [andb negb orb].
  destruct (Z.ltb_spec (b - a) 0); [lia|].
  apply copy_range_slice; [exact Hread | exact Hab | lia].
Qed.

Lemma checked_range_reversed {B : Type} (read : Z -> option B) (a b : Z)
    (ps : ParticleSystem) :
  (0 <= b < a)%Z -> (a <= size ps)%Z ->
  exists what, checked_range read a b ps = inl (length_error what).
Proof.
  intros Hab Ha. unfold checked_range, size in *.
  destruct (Z.leb_spec 0 a); [|lia].
  destruct (Z.leb_spec a (Z.of_nat (length (POSITION ps)))); [|lia].
  destruct (Z.leb_spec 0 b); [|lia].
  destruct (Z.leb_spec b (Z.of_nat (length (POSITION ps)))); [|lia].
  cbn [andb negb orb].
  destruct (Z.ltb_spec (b - a) 0); [|lia]. eauto.
Qed.

Lemma checked_range_outside {B : Type} (read : Z -> option B) (a b : Z)
    (ps : ParticleSystem) :
  (a < 0 \/ size ps < a \/ b < 0 \/ size ps < b)%Z ->
  exists what, checked_range read a b ps = inl (out_of_range what).
Proof.
  intros H. unfold checked_range, size in *.
  destruct (Z.leb_spec 0 a), (Z.leb_spec a (Z.of_nat (length (POSITION ps)))),
           (Z.leb_spec 0 b), (Z.leb_spec b (Z.of_nat (length (POSITION ps))));
    cbn [andb negb orb]; eauto; lia.
Qed.

Lemma read_particle (ps : ParticleSystem) (m : Z) :
  (0 <= m)%Z ->
  match at_ (POSITION ps) m with
  | None => None
  | Some p => match at_ (VELOCITY ps) m with
              | None => None
              | Some v => Some (mkMarkerParticle p v)
              end
  end
  = zip_with mkMarkerParticle (POSITION ps) (VELOCITY ps) !! Z.to_nat m.
Proof.
  intros Hm. rewrite !Kernels.at_lookup by exact Hm. rewrite lookup_zip_with.
  destruct (POSITION ps !! Z.to_nat m); [|reflexivity].
  cbn. by destruct (VELOCITY ps !! Z.to_nat m).
Qed.

Lemma particles_range_ok (ps : ParticleSystem) (a b : Z) :
  (0 <= a <= b)%Z -> (b <= size ps)%Z ->
  length (VELOCITY ps) = length (POSITION ps) ->
  getMarkerParticles_range a b ps
  = inr (slice (zip_with mkMarkerParticle (POSITION ps) (VELOCITY ps)) a b).
Proof.
  intros Hab Hb Hlen. apply checked_range_ok; auto using read_particle.
  rewrite length_zip_with. lia.
Qed.

(** X12.  The range getters of the marker particles return the particles
    [startidx], ..., [endidx - 1] in order, so that consecutive ranges
    concatenate and the getters without arguments return every particle.
    A range with an end outside [0, size] throws [std::out_of_range]; a
    range inside [0, size] whose end lies before its start throws
    [std::length_error]. *)
Theorem X12_marker_particle_getters (ps : ParticleSystem) (a b c : Z) :
  length (VELOCITY ps) = length (POSITION ps) ->
  ((0 <= a <= b)%Z -> (b <= size ps)%Z ->
     getMarkerParticlePositions_range a b ps = inr (slice (POSITION ps) a b)
     /\ getMarkerParticleVelocities_range a b ps = inr (slice (VELOCITY ps) a b)
     /\ getMarkerParticles_range a b ps
        = inr (zip_with mkMarkerParticle (slice (POSITION ps) a b)
                        (slice (VELOCITY ps) a b)))
  /\ ((0 <= a <= b)%Z -> (b <= c <= size ps)%Z ->
      exists first second,
        getMarkerParticles_range a b ps = inr first
        /\ getMarkerParticles_range b c ps = inr second
        /\ getMarkerParticles_range a c ps = inr (first ++ second))
  /\ getMarkerParticlePositions ps = inr (POSITION ps)
  /\ getMarkerParticleVelocities ps = inr (VELOCITY ps)
  /\ getMarkerParticles ps = inr (zip_with mkMarkerParticle (POSITION ps) (VELOCITY ps))
  /\ ((0 <= b < a)%Z -> (a <= size ps)%Z ->
      (exists what, getMarkerParticlePositions_range a b ps = inl (length_error what))
      /\ (exists what, getMarkerParticleVelocities_range a b ps = inl (length_error what))
      /\ (exists what, getMarkerParticles_range a b ps = inl (length_error what)))
  /\ ((a < 0 \/ size ps < a \/ b < 0 \/ size ps < b)%Z ->
      (exists what, getMarkerParticlePositions_range a b ps = inl (out_of_range what))
      /\ (exists what, getMarkerParticleVelocities_range a b ps = inl (out_of_range what))
      /\ (exists what, getMarkerParticles_range a b ps = inl (out_of_range what))).
Proof.
  intros Hlen.
  assert (Hpos : forall a b, (0 <= a <= b)%Z -> (b <= size ps)%Z ->
            getMarkerParticlePositions_range a b ps = inr (slice (POSITION ps) a b)).
  { intros. apply checked_range_ok; auto using @Kernels.at_lookup. }
  assert (Hvel : forall a b, (0 <= a <= b)%Z -> (b <= size ps)%Z ->
            getMarkerParticleVelocities_range a b ps = inr (slice (VELOCITY ps) a b)).
  { intros. apply checked_range_ok; auto using @Kernels.at_lookup. }
  assert (Hmp : forall a b, (0 <= a <= b)%Z -> (b <= size ps)%Z ->
            getMarkerParticles_range a b ps
            = inr (slice (zip_with mkMarkerParticle (POSITION ps) (VELOCITY ps)) a b)).
  { intros. by apply particles_range_ok. }
  assert (Hsize : (0 <= size ps)%Z) by (unfold size; lia).
  split; [|split; [|split; [|split; [|split; [|split]]]]].
  - intros Hab Hb. rewrite Hpos, Hvel, Hmp by assumption.
    by rewrite slice_zip_with.
  - intros Hab Hbc. do 2 eexists.
    rewrite (Hmp a b), (Hmp b c), (Hmp a c) by lia.
    rewrite <- (slice_app _ a b c) by lia. eauto.
  - unfold getMarkerParticlePositions. rewrite Hpos by lia.
    unfold size. by rewrite slice_all.
  - unfold getMarkerParticleVelocities. rewrite Hvel by lia.
    unfold size. by rewrite <- Hlen, slice_all.
  - unfold getMarkerParticles. rewrite Hmp by lia. f_equal.
    rewrite <- (slice_all (zip_with _ _ _)) at 2. f_equal.
    unfold size. rewrite length_zip_with. lia.
  - intros Hab Ha. repeat split; by apply checked_range_reversed.
  - intros H. repeat split; by apply checked_range_outside.
Qed.

Lemma read_world (ps : ParticleSystem) (m : Z) :
  (0 <= m)%Z ->
  match at_ (POSITION ps) m with
  | None => None
  | Some v => Some (mul v _domainScale + _domainOffset)%vec
  end
  = ((fun v => (mul v _domainScale + _domainOffset)%vec) <$> POSITION ps) !! Z.to_nat m.
Proof.
  intros Hm. rewrite Kernels.at_lookup by exact Hm. rewrite list_lookup_fmap.
  by destruct (POSITION ps !! Z.to_nat m).
Qed.

Lemma position_range_ok (ps : ParticleSystem) (a b : Z) :
  (0 <= a <= b)%Z -> (b <= size ps)%Z ->
  getMarkerParticlePositionDataRange a b ps
  = inr ((fun v => (mul v _domainScale + _domainOffset)%vec) <$> slice (POSITION ps) a b).
Proof.
  intros Hab Hb. unfold getMarkerParticlePositionDataRange.
  destruct (Z.ltb_spec a 0); [lia|].
  destruct (Z.ltb_spec (size ps) b); [lia|].
  destruct (Z.ltb_spec b a); [lia|]. cbn [orb].
  rewrite <- slice_fmap. apply copy_range_slice; auto using read_world.
  rewrite length_fmap. exact Hb.
Qed.

Lemma velocity_range_ok (ps : ParticleSystem) (a b : Z) :
  length (VELOCITY ps) = length (POSITION ps) ->
  (0 <= a <= b)%Z -> (b <= size ps)%Z ->
  getMarkerParticleVelocityDataRange a b ps = inr (slice (VELOCITY ps) a b).
Proof.
  intros Hlen Hab Hb. unfold getMarkerParticleVelocityDataRange.
  destruct (Z.ltb_spec a 0); [lia|].
  destruct (Z.ltb_spec (size ps) b); [lia|].
  destruct (Z.ltb_spec b a); [lia|]. cbn [orb].
  apply copy_range_slice; auto using @Kernels.at_lookup. unfold size in Hb. lia.
Qed.

(** X13.  [getMarkerParticlePositionDataRange] and
    [getMarkerParticleVelocityDataRange] throw [std::domain_error] exactly
    when [start < 0], [end > size] or [start > end]; otherwise they write
    the values of the particles [start], ..., [end - 1] in order, the
    positions as [p * _domainScale + _domainOffset], so that an export in
    consecutive chunks writes what [getMarkerParticlePositionData] writes.
    [getMarkerParticleVelocityData] writes the stored positions, not the
    velocities that the range function writes. *)
Theorem X13_marker_particle_data_ranges (ps : ParticleSystem) (a b c : Z) :
  length (VELOCITY ps) = length (POSITION ps) ->
  let toWorld := fun v => (mul v _domainScale + _domainOffset)%vec in
  ((a < 0 \/ size ps < b \/ b < a)%Z ->
     (exists what, getMarkerParticlePositionDataRange a b ps = inl (domain_error what))
     /\ (exists what, getMarkerParticleVelocityDataRange a b ps = inl (domain_error what)))
  /\ ((0 <= a <= b)%Z -> (b <= size ps)%Z ->
      getMarkerParticlePositionDataRange a b ps
      = inr (toWorld <$> slice (POSITION ps) a b)
      /\ getMarkerParticleVelocityDataRange a b ps = inr (slice (VELOCITY ps) a b))
  /\ ((0 <= a <= b)%Z -> (b <= size ps)%Z ->
      exists first second,
        getMarkerParticlePositionDataRange 0 a ps = inr first
        /\ getMarkerParticlePositionDataRange a b ps = inr second
        /\ exists third,
             getMarkerParticlePositionDataRange b (size ps) ps = inr third
             /\ getMarkerParticlePositionData ps = inr (first ++ second ++ third))
  /\ getMarkerParticleVelocityDataRange 0 (size ps) ps = inr (VELOCITY ps)
  /\ getMarkerParticleVelocityData ps = inr (POSITION ps).
Proof.
  intros Hlen toWorld.
  assert (Hsize : (0 <= size ps)%Z) by (unfold size; lia).
  split; [|split; [|split; [|split]]].
  - intros H.
    unfold getMarkerParticlePositionDataRange, getMarkerParticleVelocityDataRange.
    destruct (Z.ltb_spec a 0), (Z.ltb_spec (size ps) b), (Z.ltb_spec b a);
      cbn [orb]; eauto; lia.
  - intros Hab Hb. split; [by apply position_range_ok | by apply velocity_range_ok].
  - intros Hab Hb. do 2 eexists.
    split; [apply position_range_ok; lia|].
    split; [apply position_range_ok; lia|].
    eexists. split; [apply position_range_ok; lia|].
    unfold getMarkerParticlePositionData.
    rewrite (copy_range_slice _ (toWorld <$> POSITION ps)); auto using read_world; try lia.
    + fold toWorld. rewrite <- !fmap_app, !slice_app by lia.
      by rewrite slice_fmap.
    + rewrite length_fmap. reflexivity.
  - rewrite velocity_range_ok by (try assumption; lia).
    unfold size. by rewrite <- Hlen, slice_all.
  - unfold getMarkerParticleVelocityData.
    rewrite (copy_range_slice _ (POSITION ps));
      [|by auto using @Kernels.at_lookup | lia | unfold size; lia].
    unfold size. by rewrite slice_all.
Qed.

(** The particles of a load that lie in the domain. *)
Definition inDomain (mp : MarkerParticle) : bool :=
  AABB.isPointInside bounds (toGrid (position mp)).

Lemma loadMarkerParticles_columns (particleData : list MarkerParticle)
    (ps : ParticleSystem) :
  POSITION (_loadMarkerParticles particleData ps)
  = POSITION ps ++ ((fun mp => toGrid (position mp)) <$> List.filter inDomain particleData)
  /\ VELOCITY (_loadMarkerParticles particleData ps)
     = VELOCITY ps ++ (velocity <$> List.filter inDomain particleData).
Proof.
  assert (H : forall l ps,
             let ps' := fold_left
               (fun ps mp =>
                  let position := toGrid (position mp) in
                  if AABB.isPointInside bounds position
                  then mkParticleSystem (POSITION ps ++ [position])
                                        (VELOCITY ps ++ [velocity mp])
                  else ps) l ps in
             POSITION ps' = POSITION ps
                            ++ ((fun mp => toGrid (position mp)) <$> List.filter inDomain l)
             /\ VELOCITY ps' = VELOCITY ps ++ (velocity <$> List.filter inDomain l)).
  { clear. induction l as [|mp l IH]; intros ps; cbn zeta; cbn [fold_left List.filter].
    - by rewrite !app_nil_r.
    - cbn zeta in IH. destruct (inDomain mp) eqn:E; unfold inDomain in E; rewrite E.
      + destruct (IH (mkParticleSystem (POSITION ps ++ [toGrid (position mp)])
                                       (VELOCITY ps ++ [velocity mp]))) as [-> ->].
        cbn. by rewrite <- !app_assoc.
      + apply IH. }
  unfold _loadMarkerParticles. destruct particleData as [|mp l].
  - cbn. by rewrite !app_nil_r.
  - apply H.
Qed.

Lemma loadParticles_columns (queue : list (list MarkerParticle)) (ps : ParticleSystem) :
  let ps' := fold_left (fun ps particleData => _loadMarkerParticles particleData ps)
                       queue ps in
  POSITION ps'
  = POSITION ps ++ ((fun mp => toGrid (position mp)) <$> List.filter inDomain (concat queue))
  /\ VELOCITY ps' = VELOCITY ps ++ (velocity <$> List.filter inDomain (concat queue)).
Proof.
  revert ps. induction queue as [|d queue IH]; intros ps; cbn zeta; cbn [fold_left concat].
  - by rewrite !app_nil_r.
  - destruct (IH (_loadMarkerParticles d ps)) as [-> ->].
    destruct (loadMarkerParticles_columns d ps) as [-> ->].
    rewrite List.filter_app, !fmap_app, <- !app_assoc. done.
Qed.

Lemma toWorld_toGrid (p : vec3) :
  ~ _domainScale == 0 ->
  (mul (toGrid p) _domainScale + _domainOffset)%vec =v= p.
Proof.
  intros Hs. unfold toGrid, mul, div, veq, vmath.add, vmath.sub. cbn [x y z].
  repeat split; field; exact Hs.
Qed.

(** X14.  Loading and exporting are inverse to each other.  The particle
    lists handed to [loadMarkerParticleData] are queued, empty ones apart,
    and [_loadParticles] appends their particles in the order of the
    calls, keeping those whose position lies in the domain box and leaving
    the particles already stored where they are.  With a scale other
    than zero, exporting the appended range gives back the positions that
    were loaded, and their velocities unchanged. *)
Theorem X14_load_export_round_trip (first second : list MarkerParticle) (s : State) :
  ~ _domainScale == 0 ->
  _markerParticleLoadQueue s = [] ->
  length (VELOCITY (_markerParticles s)) = length (POSITION (_markerParticles s)) ->
  let s' := _loadParticles (loadMarkerParticleData second (loadMarkerParticleData first s)) in
  let old := size (_markerParticles s) in
  let new := size (_markerParticles s') in
  let kept := List.filter inDomain (first ++ second) in
  _markerParticleLoadQueue s' = []
  /\ _isMarkerParticleLoadPending s' = false
  /\ new = (old + Z.of_nat (length kept))%Z
  /\ getMarkerParticles_range 0 old (_markerParticles s')
     = getMarkerParticles (_markerParticles s)
  /\ (exists positions,
        getMarkerParticlePositionDataRange old new (_markerParticles s') = inr positions
        /\ Forall2 veq positions (position <$> kept))
  /\ getMarkerParticleVelocityDataRange old new (_markerParticles s')
     = inr (velocity <$> kept)
  /\ Forall (fun p => AABB.isPointInside bounds p = true)
            (slice (POSITION (_markerParticles s')) old new).
Proof.
  intros Hs Hq Hlen. cbn zeta.
  set (ps := _markerParticles s) in *.
  set (kept := List.filter inDomain (first ++ second)).
  assert (Hload :
            _markerParticleLoadQueue
              (loadMarkerParticleData second (loadMarkerParticleData first s))
            = (if (Z.of_nat (length first) =? 0)%Z then [] else [first])
              ++ (if (Z.of_nat (length second) =? 0)%Z then [] else [second])
            /\ _markerParticles
                 (loadMarkerParticleData second (loadMarkerParticleData first s)) = ps).
  { unfold loadMarkerParticleData. cbn.
    destruct (Z.of_nat (length first) =? 0)%Z, (Z.of_nat (length second) =? 0)%Z;
      cbn; rewrite ?Hq; auto. }
  destruct Hload as [Hqueue Hps].
  assert (Hconcat :
            concat (_markerParticleLoadQueue
                      (loadMarkerParticleData second (loadMarkerParticleData first s)))
            = first ++ second).
  { assert (Hempty : forall l : list MarkerParticle,
              (if (Z.of_nat (length l) =? 0)%Z then [] else [l]) = [l] \/ l = []).
    { intros [|mp l]; [by right | left].
      destruct (Z.eqb_spec (Z.of_nat (length (mp :: l))) 0) as [E|]; [|reflexivity].
      cbn [length] in E. lia. }
    rewrite Hqueue.
    destruct (Hempty first) as [-> | ->], (Hempty second) as [-> | ->];
      cbn; rewrite ?Nat2Z.inj_0; cbn; by rewrite ?app_nil_r. }
  pose proof (loadParticles_columns
                (_markerParticleLoadQueue
                   (loadMarkerParticleData second (loadMarkerParticleData first s)))
                ps) as Hcols.
  cbn zeta in Hcols. rewrite Hconcat in Hcols. fold kept in Hcols.
  unfold _loadParticles. cbn [_markerParticles _markerParticleLoadQueue
                              _isMarkerParticleLoadPending].
  rewrite Hps.
  set (ps' := fold_left _ _ ps) in *. destruct Hcols as [HP HV].
  assert (Hsize' : size ps' = (size ps + Z.of_nat (length kept))%Z).
  { unfold size. rewrite HP, length_app, length_fmap. lia. }
  assert (Hlen' : length (VELOCITY ps') = length (POSITION ps')).
  { rewrite HP, HV, !length_app, !length_fmap. lia. }
  assert (Hsize : (0 <= size ps)%Z) by (unfold size; lia).
  assert (Hslice : forall (A : Type) (l k : list A) (n : nat),
             n = length k ->
             slice (l ++ k) (Z.of_nat (length l)) (Z.of_nat (length l) + Z.of_nat n) = k).
  { intros A l k n ->. unfold slice. rewrite Nat2Z.id, drop_app_length.
    apply take_ge. lia. }
  assert (Hold : forall (A : Type) (l k : list A),
             slice (l ++ k) 0 (Z.of_nat (length l)) = l).
  { intros A l k. unfold slice. cbn [Z.to_nat]. rewrite drop_0.
    replace (Z.to_nat (Z.of_nat (length l) - 0)) with (length l) by lia.
    apply take_app_length. }
  split; [reflexivity|]. split; [reflexivity|]. split; [exact Hsize'|].
  split; [|split; [|split]].
  - unfold getMarkerParticles. rewrite !particles_range_ok by (try assumption; lia).
    rewrite HP, HV. rewrite zip_with_app by (by rewrite Hlen).
    f_equal. unfold size.
    replace (length (POSITION ps))
      with (length (zip_with mkMarkerParticle (POSITION ps) (VELOCITY ps)))
      by (rewrite length_zip_with; lia).
    by rewrite Hold, slice_all.
  - eexists. split; [apply position_range_ok; lia|].
    rewrite Hsize', HP. unfold size. rewrite Hslice by (by rewrite length_fmap).
    rewrite <- list_fmap_compose. apply Forall2_fmap, Forall_Forall2_diag.
    apply Forall_forall. intros mp _. cbn. by apply toWorld_toGrid.
  - rewrite velocity_range_ok by (try assumption; lia).
    rewrite Hsize', HV. unfold size. rewrite <- Hlen.
    by rewrite Hslice by (by rewrite length_fmap).
  - rewrite Hsize', HP. unfold size. rewrite Hslice by (by rewrite length_fmap).
    apply Forall_fmap, Forall_forall. intros mp Hin. cbn.
    apply list_elem_of_In, filter_In in Hin as [_ Hin]. exact Hin.
Qed.

End Domain.

(** Three particles, read in ranges. *)
Definition three_particles : ParticleSystem :=
  mkParticleSystem [mkvec3 1 1 1; mkvec3 2 2 2; mkvec3 3 3 3]
                   [mkvec3 0 0 1; mkvec3 0 0 2; mkvec3 0 0 3].

Lemma X12_witness :
  getMarkerParticlePositions_range 1 3 three_particles
  = inr [mkvec3 2 2 2; mkvec3 3 3 3]
  /\ getMarkerParticles three_particles
     = inr [mkMarkerParticle (mkvec3 1 1 1) (mkvec3 0 0 1);
            mkMarkerParticle (mkvec3 2 2 2) (mkvec3 0 0 2);
            mkMarkerParticle (mkvec3 3 3 3) (mkvec3 0 0 3)].
Proof.
  destruct (X12_marker_particle_getters three_particles 1 3 3 eq_refl)
    as (Hrange & _ & _ & _ & Hall & _).
  destruct Hrange as (Hpos & _); [lia | by vm_compute |].
  split; [exact Hpos | exact Hall].
Defined.

(** The same particles in a domain of scale 2 and offset (10, 0, 0). *)
Lemma X13_witness :
  getMarkerParticlePositionDataRange 2 (mkvec3 10 0 0) 1 3 three_particles
  = inr [mkvec3 (2 * 2 + 10) (2 * 2 + 0) (2 * 2 + 0);
         mkvec3 (3 * 2 + 10) (3 * 2 + 0) (3 * 2 + 0)]
  /\ getMarkerParticleVelocityData three_particles = inr (POSITION three_particles).
Proof.
  destruct (X13_marker_particle_data_ranges 2 (mkvec3 10 0 0) three_particles 1 3 3 eq_refl)
    as (_ & Hrange & _ & _ & Hquirk).
  destruct Hrange as (Hpos & _); [lia | by vm_compute |].
  split; [exact Hpos | exact Hquirk].
Defined.

(** A grid of 4 x 4 x 4 cells of size 1, shown at scale 2 from
    (10, 0, 0): of two loads, the particle at (13, 3, 3) is kept and the
    one at (100, 0, 0) is not. *)
Definition empty_simulation : State := mkState (mkParticleSystem [] []) [] false [].

Lemma X14_witness :
  let s' := _loadParticles 4 4 4 1 2 (mkvec3 10 0 0)
              (loadMarkerParticleData
                 [mkMarkerParticle (mkvec3 100 0 0) (mkvec3 0 0 7)]
                 (loadMarkerParticleData
                    [mkMarkerParticle (mkvec3 13 3 3) (mkvec3 0 0 5)]
                    empty_simulation)) in
  size (_markerParticles s') = 1%Z
  /\ getMarkerParticleVelocityDataRange 0 1 (_markerParticles s') = inr [mkvec3 0 0 5].
Proof.
  destruct (X14_load_export_round_trip 4 4 4 1 2 (mkvec3 10 0 0)
              [mkMarkerParticle (mkvec3 13 3 3) (mkvec3 0 0 5)]
              [mkMarkerParticle (mkvec3 100 0 0) (mkvec3 0 0 7)]
              empty_simulation)
    as (_ & _ & Hsize & _ & _ & Hvel & _);
    [discriminate | reflexivity | reflexivity |].
  split; [exact Hsize | exact Hvel].
Defined.

End ParticleIO.

(** ** Open domain boundaries (lines 176-203, 7827-7863) *)

Module Boundary.

Import Std Particles.

Record State : Type := mkState {
  _openBoundaryXNeg : bool;
  _openBoundaryXPos : bool;
  _openBoundaryYNeg : bool;
  _openBoundaryYPos : bool;
  _openBoundaryZNeg : bool;
  _openBoundaryZPos : bool;
  _openBoundaryWidth : Z;
  _markerParticles : ParticleSystem;
  (* the lines written to _logfile, without time stamp and arguments *)
  _logfile : list string
}.

Definition log (line : string) (s : State) : State :=
  mkState (_openBoundaryXNeg s) (_openBoundaryXPos s) (_openBoundaryYNeg s)
          (_openBoundaryYPos s) (_openBoundaryZNeg s) (_openBoundaryZPos s)
          (_openBoundaryWidth s) (_markerParticles s)
          (_logfile s ++ [line]).

Definition set_markerParticles (ps : ParticleSystem) (s : State) : State :=
  mkState (_openBoundaryXNeg s) (_openBoundaryXPos s) (_openBoundaryYNeg s)
          (_openBoundaryYPos s) (_openBoundaryZNeg s) (_openBoundaryZPos s)
          (_openBoundaryWidth s) ps (_logfile s).

(** [getFluidBoundaryCollisions] (lines 176-183). *)
Definition getFluidBoundaryCollisions (s : State) : list bool :=
  [ negb (_openBoundaryXNeg s); negb (_openBoundaryXPos s);
    negb (_openBoundaryYNeg s); negb (_openBoundaryYPos s);
    negb (_openBoundaryZNeg s); negb (_openBoundaryZPos s) ].

(** [setFluidBoundaryCollisions] (lines 185-203). *)
Definition setFluidBoundaryCollisions (active : list bool) (s : State)
  : result State unit :=
  match active with
  | [a0; a1; a2; a3; a4; a5] =>
      let s := log "setFluidBoundaryCollisions" s in
      Returns tt (mkState (negb a0) (negb a1) (negb a2) (negb a3) (negb a4) (negb a5)
                          (_openBoundaryWidth s)
                          (_markerParticles s) (_logfile s))
  | _ =>
      Throws (domain_error "Error: fluid boundary collisions vector must be of length 6.") s
  end.

Section Domain.

Variable _isize _jsize _ksize : Z.
Variable _dx : Q.

(** A [float] bound that may be infinite: [None] is the infinity of its
    side, which no coordinate lies beyond. *)
Definition below (v : Q) (bound : option Q) : bool :=
  match bound with Some b => Qltb v b | None => false end.

Definition above (v : Q) (bound : option Q) : bool :=
  match bound with Some b => Qltb b v | None => false end.

(** The six bounds of [_updateOutflowBoundary] and
    [_removeMarkerParticles], in the order X-, X+, Y-, Y+, Z-, Z+. *)
Record Bounds : Type := mkBounds {
  boundaryXNeg : option Q; boundaryXPos : option Q;
  boundaryYNeg : option Q; boundaryYPos : option Q;
  boundaryZNeg : option Q; boundaryZPos : option Q
}.

Definition openBoundaries (s : State) : Bounds :=
  let boundaryAABB := _getBoundaryAABB _isize _jsize _ksize _dx in
  let minp := AABB.getMinPoint boundaryAABB in
  let maxp := AABB.getMaxPoint boundaryAABB in
  let buffer := inject_Z (_openBoundaryWidth s) * _dx in
  mkBounds (if _openBoundaryXNeg s then Some (x minp + buffer) else None)
           (if _openBoundaryXPos s then Some (x maxp - buffer) else None)
           (if _openBoundaryYNeg s then Some (y minp + buffer) else None)
           (if _openBoundaryYPos s then Some (y maxp - buffer) else None)
           (if _openBoundaryZNeg s then Some (z minp + buffer) else None)
           (if _openBoundaryZPos s then Some (z maxp - buffer) else None).

Definition isBoundaryAllClosed (s : State) : bool :=
  negb (_openBoundaryXNeg s) && negb (_openBoundaryXPos s)
  && negb (_openBoundaryYNeg s) && negb (_openBoundaryYPos s)
  && negb (_openBoundaryZNeg s) && negb (_openBoundaryZPos s).

(** [position.x < boundaryXNeg || position.x > boundaryXPos || ...] *)
Definition beyond (b : Bounds) (position : vec3) : bool :=
  below (x position) (boundaryXNeg b) || above (x position) (boundaryXPos b)
  || below (y position) (boundaryYNeg b) || above (y position) (boundaryYPos b)
  || below (z position) (boundaryZNeg b) || above (z position) (boundaryZPos b).

(** [_updateOutflowBoundary] (lines 7827-7863). *)
Definition _updateOutflowBoundary (s : State) : State :=
  let b := openBoundaries s in
  if isBoundaryAllClosed s then s
  else
    let isRemoved := map (beyond b) (POSITION (_markerParticles s)) in
    set_markerParticles (Outflow.removeParticles isRemoved (_markerParticles s)) s.

(** *** Properties *)

(** A particle at [p] is inside the band of the open sides: on every side
    whose collisions are off it is at least [_openBoundaryWidth] cells
    away from the face of the boundary box. *)
Definition inBand (s : State) (p : vec3) : Prop :=
  let boundaryAABB := _getBoundaryAABB _isize _jsize _ksize _dx in
  let minp := AABB.getMinPoint boundaryAABB in
  let maxp := AABB.getMaxPoint boundaryAABB in
  let buffer := inject_Z (_openBoundaryWidth s) * _dx in
  (_openBoundaryXNeg s = true -> x minp + buffer <= x p)
  /\ (_openBoundaryXPos s = true -> x p <= x maxp - buffer)
  /\ (_openBoundaryYNeg s = true -> y minp + buffer <= y p)
  /\ (_openBoundaryYPos s = true -> y p <= y maxp - buffer)
  /\ (_openBoundaryZNeg s = true -> z minp + buffer <= z p)
  /\ (_openBoundaryZPos s = true -> z p <= z maxp - buffer).

Lemma beyond_false (s : State) (p : vec3) :
  beyond (openBoundaries s) p = false <-> inBand s p.
Proof.
  unfold beyond, openBoundaries, inBand. cbn zeta.
  cbn [boundaryXNeg boundaryXPos boundaryYNeg boundaryYPos boundaryZNeg boundaryZPos].
  rewrite !orb_false_iff.
  destruct (_openBoundaryXNeg s), (_openBoundaryXPos s), (_openBoundaryYNeg s),
           (_openBoundaryYPos s), (_openBoundaryZNeg s), (_openBoundaryZPos s);
    cbn [below above]; rewrite ?Qltb_false;
    intuition (try discriminate; try reflexivity; auto).
Qed.

Lemma remove_masked_zip {A B : Type} (mask : list bool) (l : list A) (k : list B) :
  Outflow.remove_masked mask (zip l k)
  = zip (Outflow.remove_masked mask l) (Outflow.remove_masked mask k).
Proof.
  revert l k. induction mask as [|m mask IH]; intros [|a l] [|b k]; cbn; try reflexivity.
  - by destruct m, (Outflow.remove_masked mask l).
  - destruct m; [apply IH | by rewrite IH].
Qed.

Lemma remove_masked_none {A : Type} (mask : list bool) (l : list A) :
  Forall (fun m => m = false) mask -> (length l <= length mask)%nat ->
  Outflow.remove_masked mask l = l.
Proof.
  intros Hall. revert l. induction Hall as [|m mask -> _ IH]; intros [|a l] Hlen;
    cbn in *; try reflexivity; try lia.
  rewrite IH by lia. reflexivity.
Qed.

Lemma remove_masked_length {A : Type} (mask : list bool) (l : list A) :
  (length (Outflow.remove_masked mask l)
   <= length (List.filter negb mask))%nat.
Proof.
  revert l. induction mask as [|m mask IH]; intros [|a l]; cbn; try lia.
  specialize (IH l). destruct m; cbn; lia.
Qed.

Lemma filter_mask {A : Type} (f : A -> bool) (l : list A) :
  length (List.filter negb (map f l)) = length (List.filter (fun a => negb (f a)) l).
Proof.
  induction l as [|a l IH]; cbn; [reflexivity|]. destruct (f a); cbn; lia.
Qed.

Lemma all_closed (s : State) :
  isBoundaryAllClosed s = true <-> getFluidBoundaryCollisions s = repeat true 6.
Proof.
  unfold isBoundaryAllClosed, getFluidBoundaryCollisions.
  destruct (_openBoundaryXNeg s), (_openBoundaryXPos s), (_openBoundaryYNeg s),
           (_openBoundaryYPos s), (_openBoundaryZNeg s), (_openBoundaryZPos s);
    cbn; split; intros H; try discriminate; reflexivity.
Qed.

(** X15.  [setFluidBoundaryCollisions] takes exactly six flags, any other
    length throws [std::domain_error] and changes nothing, and
    [getFluidBoundaryCollisions] returns the flags that were set.  With
    collisions on at all six sides [_updateOutflowBoundary] does nothing.
    Otherwise it keeps, in order and with their velocities, exactly the
    particles that are inside the band of the open sides (a side with
    collisions on removes nothing), and running it again removes nothing
    more. *)
Theorem X15_outflow_boundary (active : list bool) (s : State) :
  (length active <> 6%nat ->
     exists what, setFluidBoundaryCollisions active s = Throws (domain_error what) s)
  /\ (length active = 6%nat ->
      exists s',
        setFluidBoundaryCollisions active s = Returns tt s'
        /\ getFluidBoundaryCollisions s' = active
        /\ _markerParticles s' = _markerParticles s
        /\ _openBoundaryWidth s' = _openBoundaryWidth s)
  /\ (getFluidBoundaryCollisions s = repeat true 6 -> _updateOutflowBoundary s = s)
  /\ (let s' := _updateOutflowBoundary s in
      zip (POSITION (_markerParticles s')) (VELOCITY (_markerParticles s'))
      = List.filter (fun pv => negb (beyond (openBoundaries s) pv.1))
                    (zip (POSITION (_markerParticles s)) (VELOCITY (_markerParticles s)))
      /\ (forall p, p ∈ POSITION (_markerParticles s')
                    <-> p ∈ POSITION (_markerParticles s) /\ inBand s p)
      /\ getFluidBoundaryCollisions s' = getFluidBoundaryCollisions s
      /\ _updateOutflowBoundary s' = s').
Proof.
  split; [|split; [|split]].
  - intros Hlen. unfold setFluidBoundaryCollisions.
    destruct active as [|a0 [|a1 [|a2 [|a3 [|a4 [|a5 [|a6 rest]]]]]]]; eauto.
    cbn in Hlen. congruence.
  - intros Hlen.
    destruct active as [|a0 [|a1 [|a2 [|a3 [|a4 [|a5 [|a6 rest]]]]]]]; try discriminate.
    eexists. split; [reflexivity|]. cbn.
    split; [|auto]. unfold getFluidBoundaryCollisions. cbn.
    by rewrite !negb_involutive.
  - intros Hclosed. apply all_closed in Hclosed.
    unfold _updateOutflowBoundary. by rewrite Hclosed.
  - cbn zeta. unfold _updateOutflowBoundary.
    destruct (isBoundaryAllClosed s) eqn:Hclosed.
    + assert (Hnone : forall p, beyond (openBoundaries s) p = false).
      { intros p. unfold isBoundaryAllClosed in Hclosed.
        repeat (apply andb_prop in Hclosed as [Hclosed ?]).
        unfold beyond, openBoundaries. cbn.
        repeat match goal with
               | H : negb ?b = true |- _ => apply negb_true_iff in H; rewrite H
               end.
        reflexivity. }
      rewrite Hclosed. split; [|split; [|split]]; try reflexivity.
      * rewrite forallb_filter_id; [reflexivity|].
        apply forallb_forall. intros pv _. by rewrite Hnone.
      * intros p. split; [|tauto].
        intros Hp. split; [exact Hp|]. by apply beyond_false.
    + set (ps := _markerParticles s).
      set (b := openBoundaries s).
      assert (Hpos : POSITION (Outflow.removeParticles (map (beyond b) (POSITION ps)) ps)
                     = List.filter (fun p => negb (beyond b p)) (POSITION ps)).
      { cbn. apply Outflow.remove_masked_filter. }
      cbn [_markerParticles set_markerParticles].
      split; [|split; [|split]].
      * cbn [Outflow.removeParticles POSITION VELOCITY].
        rewrite <- remove_masked_zip.
        assert (Hmask : forall (l : list vec3) (k : list vec3),
                  Outflow.remove_masked (map (beyond b) l) (zip l k)
                  = List.filter (fun pv : vec3 * vec3 => negb (beyond b pv.1)) (zip l k)).
        { induction l as [|p l IH]; intros [|v k]; cbn; try reflexivity.
          rewrite IH. by destruct (beyond b p). }
        apply Hmask.
      * intros p. rewrite Hpos, list_elem_of_In, filter_In, <- list_elem_of_In.
        rewrite negb_true_iff. unfold b. by rewrite beyond_false.
      * reflexivity.
      * assert (Hb : openBoundaries
                       (set_markerParticles
                          (Outflow.removeParticles (map (beyond b) (POSITION ps)) ps) s) = b)
          by reflexivity.
        assert (Hc : isBoundaryAllClosed
                       (set_markerParticles
                          (Outflow.removeParticles (map (beyond b) (POSITION ps)) ps) s)
                     = false) by exact Hclosed.
        rewrite Hc, Hb. cbn [_markerParticles set_markerParticles].
        unfold set_markerParticles. cbn. f_equal.
        set (mask := map (beyond b) (Outflow.remove_masked (map (beyond b) (POSITION ps))
                                                           (POSITION ps))).
        assert (Hfalse : Forall (fun m => m = false) mask).
        { unfold mask. rewrite Outflow.remove_masked_filter.
          apply Forall_forall. intros m Hm.
          apply list_elem_of_In, in_map_iff in Hm as (p & <- & Hp).
          apply filter_In in Hp as [_ Hp]. by apply negb_true_iff. }
        unfold Outflow.removeParticles. cbn [POSITION VELOCITY].
        f_equal.
        -- apply remove_masked_none; [exact Hfalse|].
           unfold mask. by rewrite length_map.
        -- apply remove_masked_none; [exact Hfalse|].
           unfold mask. rewrite length_map, Outflow.remove_masked_filter.
           etransitivity; [apply remove_masked_length|].
           by rewrite filter_mask.
Qed.

End Domain.

End Boundary.

(** ** Removing marker particles (lines 7282-7359) *)

Module Removal.

Import Std Particles Grid3d Boundary.

(** Modelled from the spec: [Array3d<int>] (array3d.h is not under src/),
    a dense grid read and added to by grid index; an index outside
    [width x height x depth] is refused with [std::out_of_range]. *)
Record Array3d_int : Type := mkArray3d {
  width : Z; height : Z; depth : Z;
  cell : GridIndex -> Z
}.

Definition get (a : Array3d_int) (g : GridIndex) : exception + Z :=
  if isGridIndexInRange g (width a) (height a) (depth a)
  then inr (cell a g)
  else inl (out_of_range "Error: index out of range.").

Definition add (a : Array3d_int) (g : GridIndex) (v : Z) : exception + Array3d_int :=
  if isGridIndexInRange g (width a) (height a) (depth a)
  then inr (mkArray3d (width a) (height a) (depth a)
                      (fun g' => if bool_decide (g' = g) then (cell a g' + v)%Z
                                 else cell a g'))
  else inl (out_of_range "Error: index out of range.").

(** [column->at(i)] *)
Definition read {A : Type} (column : list A) (i : Z) : exception + A :=
  match at_ column i with
  | Some a => inr a
  | None => inl (out_of_range "vector::at")
  end.

Definition bind {A B : Type} (m : exception + A) (f : A -> exception + B)
  : exception + B :=
  match m with inl e => inl e | inr a => f a end.

Notation "'try' x := m 'in' f" := (bind m (fun x => f))
  (at level 10, x name, m at level 100, f at level 200, only parsing).

(** The members of [FluidSimulation] that [_removeMarkerParticles] reads
    beside the open boundaries and the particles of [Boundary.State], and
    the LIFETIME column of [_markerParticles]. *)
Record State : Type := mkState {
  boundary : Boundary.State;
  LIFETIME : list Q;
  _isSurfaceLifetimeAttributeEnabled : bool;
  _isFluidParticleLifetimeAttributeEnabled : bool;
  _surfaceLifetimeAttributeDeathTime : Q;
  _maxMarkerParticlesPerCell : Z;
  _isExtremeVelocityRemovalEnabled : bool;
  _currentExtremeVelocityParticlesRemoved : Z
}.

(** What the loop of [_removeMarkerParticles] updates. *)
Record Removal : Type := mkRemoval {
  countGrid : Array3d_int;
  isRemoved : list bool;
  numExtremeVelocityParticlesRemoved : Z
}.

(** [isRemoved[i] = true] *)
Definition mark (i : Z) (r : Removal) : Removal :=
  mkRemoval (countGrid r) (<[Z.to_nat i := true]> (isRemoved r))
            (numExtremeVelocityParticlesRemoved r).

Section Domain.

Variable _isize _jsize _ksize : Z.
Variable _dx : Q.

(** [_solidSDF.trilinearInterpolateSolidPoints], which marks the
    positions inside the solid, belongs to the level set class.  The speed
    limit of [_getMarkerParticleSpeedLimit] (lines 7232-7280) enters as a
    variable as well: what follows holds for every limit. *)
Variable trilinearInterpolateSolidPoints : list vec3 -> list bool.
Variable _getMarkerParticleSpeedLimit : State -> Q -> Q.

(** The body of the loop over the particles, at index [i]; [isRemoved[i]]
    is read like the columns are. *)
Definition remove_step (s : State) (b : Bounds) (isBoundaryAllClosed : bool)
    (maxspeedsq : Q) (i : Z) (r : Removal) : exception + Removal :=
  let ps := _markerParticles (boundary s) in
  let isLifetimeAttributeEnabled :=
    _isSurfaceLifetimeAttributeEnabled s || _isFluidParticleLifetimeAttributeEnabled s in
  try removed := read (isRemoved r) i in
  if removed : bool then inr r
  else
    try expired :=
      (if isLifetimeAttributeEnabled
       then try lifetime := read (LIFETIME s) i in
            inr (Qleb lifetime (_surfaceLifetimeAttributeDeathTime s))
       else inr false) in
    if expired : bool then inr (mark i r)
    else
      try position := read (POSITION ps) i in
      if negb isBoundaryAllClosed && beyond b position then inr (mark i r)
      else
        let g := positionToGridIndex position _dx in
        try count := get (countGrid r) g in
        if (_maxMarkerParticlesPerCell s <=? count)%Z then inr (mark i r)
        else
          try counted := add (countGrid r) g 1 in
          let r := mkRemoval counted (isRemoved r)
                             (numExtremeVelocityParticlesRemoved r) in
          try velocity := read (VELOCITY ps) i in
          if _isExtremeVelocityRemovalEnabled s && Qltb maxspeedsq (dot velocity velocity)
          then inr (mkRemoval counted (<[Z.to_nat i := true]> (isRemoved r))
                              (numExtremeVelocityParticlesRemoved r + 1))
          else inr r.

(** [for (unsigned int i = 0; i < _markerParticles.size(); i++)] *)
Fixpoint remove_loop (n : nat) (step : Z -> Removal -> exception + Removal) (i : Z)
    (r : Removal) : exception + Removal :=
  match n with
  | O => inr r
  | S n' => try r' := step i r in remove_loop n' step (i + 1)%Z r'
  end.

(** [_markerParticles.removeParticles(isRemoved)], on the three columns. *)
Definition removeParticles (mask : list bool) (s : State) : State :=
  mkState (set_markerParticles
             (Outflow.removeParticles mask (_markerParticles (boundary s))) (boundary s))
          (Outflow.remove_masked mask (LIFETIME s))
          (_isSurfaceLifetimeAttributeEnabled s) (_isFluidParticleLifetimeAttributeEnabled s)
          (_surfaceLifetimeAttributeDeathTime s) (_maxMarkerParticlesPerCell s)
          (_isExtremeVelocityRemovalEnabled s) (_currentExtremeVelocityParticlesRemoved s).

Definition set_currentExtremeVelocityParticlesRemoved (n : Z) (s : State) : State :=
  mkState (boundary s) (LIFETIME s)
          (_isSurfaceLifetimeAttributeEnabled s) (_isFluidParticleLifetimeAttributeEnabled s)
          (_surfaceLifetimeAttributeDeathTime s) (_maxMarkerParticlesPerCell s)
          (_isExtremeVelocityRemovalEnabled s) n.

(** [_removeMarkerParticles] (lines 7282-7359). *)
Definition _removeMarkerParticles (dt : Q) (s : State) : result State unit :=
  let b := openBoundaries _isize _jsize _ksize _dx (boundary s) in
  let maxspeed := _getMarkerParticleSpeedLimit s dt in
  let maxspeedsq := maxspeed * maxspeed in
  let ps := _markerParticles (boundary s) in
  match remove_loop (Z.to_nat (ParticleIO.size ps))
                    (remove_step s b (isBoundaryAllClosed (boundary s)) maxspeedsq) 0
                    (mkRemoval (mkArray3d _isize _jsize _ksize (fun _ => 0%Z))
                               (trilinearInterpolateSolidPoints (POSITION ps)) 0) with
  | inl e => Throws e s
  | inr r =>
      Returns tt (set_currentExtremeVelocityParticlesRemoved
                    (numExtremeVelocityParticlesRemoved r)
                    (removeParticles (isRemoved r) s))
  end.

(** *** Properties *)

(** The number of values of [positions] that the mask keeps and that lie
    in cell [g]. *)
Definition kept (g : GridIndex) (mask : list bool) (positions : list vec3) : nat :=
  length (List.filter (fun p => bool_decide (positionToGridIndex p _dx = g))
                      (Outflow.remove_masked mask positions)).

Lemma remove_masked_app {A : Type} (m1 m2 : list bool) (l1 l2 : list A) :
  length m1 = length l1 ->
  Outflow.remove_masked (m1 ++ m2) (l1 ++ l2)
  = Outflow.remove_masked m1 l1 ++ Outflow.remove_masked m2 l2.
Proof.
  revert l1. induction m1 as [|m m1 IH]; intros [|a l1] Hlen; try discriminate.
  - reflexivity.
  - cbn in *. rewrite IH by lia. by destruct m.
Qed.

Lemma remove_masked_lookup {A : Type} (mask : list bool) (l : list A) (a : A) :
  a ∈ Outflow.remove_masked mask l ->
  exists j, mask !! j = Some false /\ l !! j = Some a.
Proof.
  revert l. induction mask as [|m mask IH]; intros [|b l]; cbn; try by inversion 1.
  destruct m.
  - intros Ha. destruct (IH _ Ha) as (j & ? & ?). by exists (S j).
  - intros Ha. apply elem_of_cons in Ha as [->|Ha].
    + by exists 0%nat.
    + destruct (IH _ Ha) as (j & ? & ?). by exists (S j).
Qed.

Lemma remove_masked_sublist {A : Type} (mask : list bool) (l : list A) :
  sublist (Outflow.remove_masked mask l) l.
Proof.
  revert l. induction mask as [|m mask IH]; intros [|a l]; cbn;
    try apply sublist_nil_l.
  destruct m; [apply sublist_cons | apply sublist_skip]; apply IH.
Qed.

Lemma kept_snoc (g : GridIndex) (mask : list bool) (positions : list vec3)
    (m : bool) (p : vec3) :
  length mask = length positions ->
  kept g (mask ++ [m]) (positions ++ [p])
  = (kept g mask positions
     + if negb m && bool_decide (positionToGridIndex p _dx = g) then 1 else 0)%nat.
Proof.
  intros Hlen. unfold kept. rewrite remove_masked_app by exact Hlen.
  rewrite List.filter_app, length_app. f_equal.
  destruct m; cbn; [reflexivity|].
  by destruct (bool_decide (positionToGridIndex p _dx = g)).
Qed.

(** What a particle that stays has passed. *)
Definition passed (s : State) (maxspeedsq : Q) (p v : vec3) : Prop :=
  inBand _isize _jsize _ksize _dx (boundary s) p
  /\ (_isExtremeVelocityRemovalEnabled s = true -> dot v v <= maxspeedsq).

(** The invariant of the loop, before index [i]. *)
Record loop_inv (s : State) (maxspeedsq : Q) (i : nat) (r : Removal) : Prop := {
  inv_length : length (isRemoved r) = length (POSITION (_markerParticles (boundary s)));
  inv_size : width (countGrid r) = _isize /\ height (countGrid r) = _jsize
             /\ depth (countGrid r) = _ksize;
  inv_cap : forall g, (0 <= cell (countGrid r) g
                       <= Z.max 0 (_maxMarkerParticlesPerCell s))%Z;
  inv_count : forall g,
      (Z.of_nat (kept g (take i (isRemoved r))
                      (take i (POSITION (_markerParticles (boundary s)))))
       <= cell (countGrid r) g)%Z;
  inv_passed : forall j p v,
      (j < i)%nat -> isRemoved r !! j = Some false ->
      POSITION (_markerParticles (boundary s)) !! j = Some p ->
      VELOCITY (_markerParticles (boundary s)) !! j = Some v ->
      passed s maxspeedsq p v;
  inv_lifetime : forall j l,
      (j < i)%nat -> isRemoved r !! j = Some false ->
      _isSurfaceLifetimeAttributeEnabled s || _isFluidParticleLifetimeAttributeEnabled s
      = true ->
      LIFETIME s !! j = Some l ->
      _surfaceLifetimeAttributeDeathTime s < l
}.

Lemma inBand_closed (s : Boundary.State) (p : vec3) :
  isBoundaryAllClosed s = true -> inBand _isize _jsize _ksize _dx s p.
Proof.
  intros H. apply beyond_false.
  unfold isBoundaryAllClosed in H. repeat (apply andb_prop in H as [H ?]).
  unfold beyond, openBoundaries. cbn.
  repeat match goal with
         | H : negb ?b = true |- _ => apply negb_true_iff in H; rewrite H
         end.
  reflexivity.
Qed.

(** A step that leaves the particle at [i] marked, and the grid as it is. *)
Lemma inv_marked (s : State) (maxspeedsq : Q) (i : nat) (r : Removal)
    (mask : list bool) (n : Z) :
  loop_inv s maxspeedsq i r ->
  (i < length (POSITION (_markerParticles (boundary s))))%nat ->
  length mask = length (isRemoved r) ->
  take i mask = take i (isRemoved r) ->
  mask !! i = Some true ->
  (forall j, (j < i)%nat -> mask !! j = isRemoved r !! j) ->
  loop_inv s maxspeedsq (S i) (mkRemoval (countGrid r) mask n).
Proof.
  intros [Hlen Hsize Hcap Hcount Hpassed Hlifetime] Hi Hmask Htake Htrue Hsame.
  destruct (lookup_lt_is_Some_2 (POSITION (_markerParticles (boundary s))) i Hi)
    as [p Hp].
  split; cbn [countGrid isRemoved].
  - congruence.
  - exact Hsize.
  - exact Hcap.
  - intros g. rewrite (take_S_r _ _ _ Htrue), (take_S_r _ _ _ Hp).
    rewrite kept_snoc by (rewrite !length_take; lia).
    cbn [negb andb]. rewrite Htake, Nat.add_0_r. apply Hcount.
  - intros j q v Hj Hm Hq Hv.
    destruct (decide (j = i)) as [->|Hne]; [congruence|].
    apply (Hpassed j); auto; [lia|]. rewrite <- Hsame by lia. exact Hm.
  - intros j l Hj Hm Hon Hl.
    destruct (decide (j = i)) as [->|Hne]; [congruence|].
    apply (Hlifetime j); auto; [lia|]. rewrite <- Hsame by lia. exact Hm.
Qed.

(** A step that counts the particle at [i] in its cell. *)
Lemma inv_counted (s : State) (maxspeedsq : Q) (i : nat) (r : Removal)
    (p v : vec3) (m : bool) (mask : list bool) (n : Z) :
  let g := positionToGridIndex p _dx in
  loop_inv s maxspeedsq i r ->
  POSITION (_markerParticles (boundary s)) !! i = Some p ->
  VELOCITY (_markerParticles (boundary s)) !! i = Some v ->
  (cell (countGrid r) g < _maxMarkerParticlesPerCell s)%Z ->
  length mask = length (isRemoved r) ->
  take i mask = take i (isRemoved r) ->
  mask !! i = Some m ->
  (forall j, (j < i)%nat -> mask !! j = isRemoved r !! j) ->
  (m = false -> passed s maxspeedsq p v) ->
  (forall l,
     _isSurfaceLifetimeAttributeEnabled s || _isFluidParticleLifetimeAttributeEnabled s
     = true ->
     LIFETIME s !! i = Some l -> _surfaceLifetimeAttributeDeathTime s < l) ->
  loop_inv s maxspeedsq (S i)
    (mkRemoval
       (mkArray3d (width (countGrid r)) (height (countGrid r)) (depth (countGrid r))
                  (fun g' => if bool_decide (g' = g) then (cell (countGrid r) g' + 1)%Z
                             else cell (countGrid r) g'))
       mask n).
Proof.
  intros g [Hlen Hsize Hcap Hcount Hpassed Hlifetime] Hp Hv Hlt Hmask Htake Hm Hsame
         Hpass Hlive.
  split; cbn [countGrid isRemoved width height depth cell].
  - congruence.
  - exact Hsize.
  - intros g'. specialize (Hcap g'). destruct (bool_decide_reflect (g' = g)) as [->|]; lia.
  - intros g'. rewrite (take_S_r _ _ _ Hm), (take_S_r _ _ _ Hp).
    rewrite kept_snoc by (rewrite !length_take; lia).
    rewrite Htake. specialize (Hcount g'). fold g.
    destruct (bool_decide_reflect (g = g')) as [->|Hne].
    + rewrite bool_decide_eq_true_2 by reflexivity. destruct m; cbn [negb andb]; lia.
    + rewrite andb_false_r.
      rewrite bool_decide_eq_false_2 by congruence. lia.
  - intros j q w Hj Hmj Hq Hw.
    destruct (decide (j = i)) as [->|Hne].
    + assert (m = false) by congruence. assert (q = p) by congruence.
      assert (w = v) by congruence. subst. by apply Hpass.
    + apply (Hpassed j); auto; [lia|]. rewrite <- Hsame by lia. exact Hmj.
  - intros j l Hj Hmj Hon Hl.
    destruct (decide (j = i)) as [->|Hne].
    + by apply Hlive.
    + apply (Hlifetime j); auto; [lia|]. rewrite <- Hsame by lia. exact Hmj.
Qed.

Lemma step_inv (s : State) (maxspeedsq : Q) (i : nat) (r : Removal) :
  let ps := _markerParticles (boundary s) in
  length (VELOCITY ps) = length (POSITION ps) ->
  (_isSurfaceLifetimeAttributeEnabled s || _isFluidParticleLifetimeAttributeEnabled s = true ->
   length (LIFETIME s) = length (POSITION ps)) ->
  Forall (fun p => inGrid _isize _jsize _ksize _dx p = true) (POSITION ps) ->
  (i < length (POSITION ps))%nat ->
  loop_inv s maxspeedsq i r ->
  exists r',
    remove_step s (openBoundaries _isize _jsize _ksize _dx (boundary s))
                (isBoundaryAllClosed (boundary s)) maxspeedsq (Z.of_nat i) r = inr r'
    /\ loop_inv s maxspeedsq (S i) r'.
Proof.
  intros ps Hvel Hlife Hgrid Hi Hinv.
  pose proof Hinv as [Hlen Hsize Hcap Hcount Hpassed Hlifetime].
  fold ps in Hlen, Hcount, Hpassed.
  assert (Hread : forall (A : Type) (l : list A) (a : A),
            l !! i = Some a -> read l (Z.of_nat i) = inr a).
  { intros A l a Ha. unfold read. rewrite Kernels.at_lookup by lia.
    by rewrite Nat2Z.id, Ha. }
  destruct (lookup_lt_is_Some_2 (isRemoved r) i) as [m Hm]; [lia|].
  destruct (lookup_lt_is_Some_2 (POSITION ps) i Hi) as [p Hp].
  destruct (lookup_lt_is_Some_2 (VELOCITY ps) i) as [v Hv]; [lia|].
  assert (Hinsert : length (<[i := true]> (isRemoved r)) = length (isRemoved r)
                    /\ take i (<[i := true]> (isRemoved r)) = take i (isRemoved r)
                    /\ <[i := true]> (isRemoved r) !! i = Some true
                    /\ (forall j, (j < i)%nat ->
                                  <[i := true]> (isRemoved r) !! j = isRemoved r !! j)).
  { split; [by rewrite length_insert|]. split; [apply take_insert_ge; lia|].
    split; [apply list_lookup_insert_eq; lia|].
    intros j Hj. apply list_lookup_insert_ne. lia. }
  destruct Hinsert as (Hi1 & Hi2 & Hi3 & Hi4).
  assert (Hmark : forall n,
            loop_inv s maxspeedsq (S i)
              (mkRemoval (countGrid r) (<[i := true]> (isRemoved r)) n)).
  { intros n. by apply inv_marked. }
  unfold remove_step. fold ps. cbn zeta.
  rewrite (Hread _ _ _ Hm). cbn [bind].
  destruct m.
  { (* already removed *)
    exists r. split; [reflexivity|].
    assert (Hr : r = mkRemoval (countGrid r) (isRemoved r)
                               (numExtremeVelocityParticlesRemoved r)) by (by destruct r).
    rewrite Hr. by apply inv_marked. }
  set (b := openBoundaries _isize _jsize _ksize _dx (boundary s)).
  assert (Hrest :
    (forall l,
       _isSurfaceLifetimeAttributeEnabled s || _isFluidParticleLifetimeAttributeEnabled s
       = true ->
       LIFETIME s !! i = Some l -> _surfaceLifetimeAttributeDeathTime s < l) ->
    exists r',
      (try position := read (POSITION ps) (Z.of_nat i) in
       if negb (isBoundaryAllClosed (boundary s)) && beyond b position
       then inr (mark (Z.of_nat i) r)
       else
         let g := positionToGridIndex position _dx in
         try count := get (countGrid r) g in
         if (_maxMarkerParticlesPerCell s <=? count)%Z then inr (mark (Z.of_nat i) r)
         else
           try counted := add (countGrid r) g 1 in
           let r0 := mkRemoval counted (isRemoved r)
                               (numExtremeVelocityParticlesRemoved r) in
           try velocity := read (VELOCITY ps) (Z.of_nat i) in
           if _isExtremeVelocityRemovalEnabled s && Qltb maxspeedsq (dot velocity velocity)
           then inr (mkRemoval counted (<[Z.to_nat (Z.of_nat i) := true]> (isRemoved r0))
                               (numExtremeVelocityParticlesRemoved r0 + 1))
           else inr r0) = inr r'
      /\ loop_inv s maxspeedsq (S i) r').
  { intros Hlive. rewrite (Hread _ _ _ Hp). cbn [bind]. unfold mark. rewrite Nat2Z.id.
    destruct (negb (isBoundaryAllClosed (boundary s)) && beyond b p) eqn:Eb.
    { eexists. split; [reflexivity | apply Hmark]. }
    cbn zeta.
    assert (Hin : isGridIndexInRange (positionToGridIndex p _dx) _isize _jsize _ksize = true).
    { rewrite Forall_forall in Hgrid. apply Hgrid. by eapply list_elem_of_lookup_2. }
    destruct Hsize as (Hw & Hh & Hd).
    unfold get, add. rewrite Hw, Hh, Hd, Hin. cbn [bind].
    destruct (Z.leb_spec (_maxMarkerParticlesPerCell s)
                         (cell (countGrid r) (positionToGridIndex p _dx))) as [Hfull|Hroom].
    { eexists. split; [reflexivity | apply Hmark]. }
    rewrite (Hread _ _ _ Hv). cbn [bind isRemoved numExtremeVelocityParticlesRemoved].
    rewrite <- Hw, <- Hh, <- Hd.
    destruct (_isExtremeVelocityRemovalEnabled s && Qltb maxspeedsq (dot v v)) eqn:Eext.
    - eexists. split; [reflexivity|].
      apply (inv_counted s maxspeedsq i r p v true); auto. discriminate.
    - eexists. split; [reflexivity|].
      apply (inv_counted s maxspeedsq i r p v false); auto.
      intros _. split.
      + apply andb_false_iff in Eb as [Eb|Eb].
        * apply inBand_closed. by apply negb_false_iff.
        * by apply beyond_false.
      + intros Hon. rewrite Hon in Eext. cbn in Eext. by apply Qltb_false. }
  destruct (_isSurfaceLifetimeAttributeEnabled s
            || _isFluidParticleLifetimeAttributeEnabled s) eqn:Elife.
  - destruct (lookup_lt_is_Some_2 (LIFETIME s) i) as [l Hl];
      [rewrite Hlife by reflexivity; lia|].
    rewrite (Hread _ _ _ Hl). cbn [bind].
    destruct (Qleb l (_surfaceLifetimeAttributeDeathTime s)) eqn:Elive.
    + eexists. split; [reflexivity|]. unfold mark. rewrite Nat2Z.id. apply Hmark.
    + apply Hrest. intros l' _ Hl'. apply Qleb_false in Elive. congruence.
  - cbn [bind]. apply Hrest. intros l' Hon _. discriminate.
Qed.

Lemma loop_inv_run (s : State) (maxspeedsq : Q) (n i : nat) (r : Removal) :
  let ps := _markerParticles (boundary s) in
  length (VELOCITY ps) = length (POSITION ps) ->
  (_isSurfaceLifetimeAttributeEnabled s || _isFluidParticleLifetimeAttributeEnabled s = true ->
   length (LIFETIME s) = length (POSITION ps)) ->
  Forall (fun p => inGrid _isize _jsize _ksize _dx p = true) (POSITION ps) ->
  (i + n <= length (POSITION ps))%nat ->
  loop_inv s maxspeedsq i r ->
  exists r',
    remove_loop n (remove_step s (openBoundaries _isize _jsize _ksize _dx (boundary s))
                               (isBoundaryAllClosed (boundary s)) maxspeedsq)
                (Z.of_nat i) r = inr r'
    /\ loop_inv s maxspeedsq (i + n) r'.
Proof.
  intros ps Hvel Hlife Hgrid. subst ps. revert i r.
  induction n as [|n IH]; intros i r Hn Hinv; cbn [remove_loop].
  - exists r. by rewrite Nat.add_0_r.
  - destruct (step_inv s maxspeedsq i r Hvel Hlife Hgrid) as (r1 & -> & Hinv1);
      [lia | exact Hinv |].
    cbn [bind]. replace (Z.of_nat i + 1)%Z with (Z.of_nat (S i)) by lia.
    destruct (IH (S i) r1) as (r' & Hrun & Hinv'); [lia | exact Hinv1 |].
    exists r'. split; [exact Hrun|]. by replace (i + S n)%nat with (S i + n)%nat by lia.
Qed.

(** X16.  After [_removeMarkerParticles] no cell of the grid holds more
    than [_maxMarkerParticlesPerCell] marker particles.  The particles
    that stay are particles that were there, in their order and with
    their velocities; each of them is inside the band of the open sides,
    with extreme velocity removal on its squared speed is at most the
    square of the speed limit, and with a lifetime attribute on its
    lifetime is above the death time.  The open boundaries are left as
    they were. *)
Theorem X16_remove_marker_particles (dt : Q) (s : State) :
  let ps := _markerParticles (boundary s) in
  let maxspeed := _getMarkerParticleSpeedLimit s dt in
  length (trilinearInterpolateSolidPoints (POSITION ps)) = length (POSITION ps) ->
  length (VELOCITY ps) = length (POSITION ps) ->
  (_isSurfaceLifetimeAttributeEnabled s || _isFluidParticleLifetimeAttributeEnabled s = true ->
   length (LIFETIME s) = length (POSITION ps)) ->
  Forall (fun p => inGrid _isize _jsize _ksize _dx p = true) (POSITION ps) ->
  exists s',
    _removeMarkerParticles dt s = Returns tt s'
    /\ (forall g,
          (Z.of_nat (length (List.filter
                               (fun p => bool_decide (positionToGridIndex p _dx = g))
                               (POSITION (_markerParticles (boundary s')))))
           <= Z.max 0 (_maxMarkerParticlesPerCell s))%Z)
    /\ sublist (zip (POSITION (_markerParticles (boundary s')))
                    (VELOCITY (_markerParticles (boundary s'))))
               (zip (POSITION ps) (VELOCITY ps))
    /\ (forall p v,
          (p, v) ∈ zip (POSITION (_markerParticles (boundary s')))
                       (VELOCITY (_markerParticles (boundary s'))) ->
          inBand _isize _jsize _ksize _dx (boundary s) p
          /\ (_isExtremeVelocityRemovalEnabled s = true ->
              dot v v <= maxspeed * maxspeed))
    /\ (_isSurfaceLifetimeAttributeEnabled s || _isFluidParticleLifetimeAttributeEnabled s
        = true ->
        Forall (fun l => _surfaceLifetimeAttributeDeathTime s < l) (LIFETIME s'))
    /\ getFluidBoundaryCollisions (boundary s') = getFluidBoundaryCollisions (boundary s).
Proof.
  intros ps maxspeed Hsolid Hvel Hlife Hgrid. subst ps.
  set (r0 := mkRemoval (mkArray3d _isize _jsize _ksize (fun _ => 0%Z))
                       (trilinearInterpolateSolidPoints
                          (POSITION (_markerParticles (boundary s)))) 0).
  assert (Hinv0 : loop_inv s (maxspeed * maxspeed) 0 r0).
  { split; cbn [r0 isRemoved countGrid width height depth cell].
    - exact Hsolid.
    - auto.
    - intros g. lia.
    - intros g. unfold kept. rewrite !take_0. cbn. lia.
    - intros j p v Hj. lia.
    - intros j l Hj. lia. }
  destruct (loop_inv_run s (maxspeed * maxspeed)
              (length (POSITION (_markerParticles (boundary s)))) 0 r0
              Hvel Hlife Hgrid) as (r & Hrun & Hinv); [lia | exact Hinv0 |].
  cbn [Nat.add] in Hinv. destruct Hinv as [Hlen Hsize Hcap Hcount Hpassed Hlifetime].
  unfold _removeMarkerParticles. cbn zeta. fold maxspeed.
  unfold ParticleIO.size. rewrite Nat2Z.id. fold r0.
  change (Z.of_nat 0) with 0%Z in Hrun. rewrite Hrun.
  eexists. split; [reflexivity|].
  cbn [boundary LIFETIME set_currentExtremeVelocityParticlesRemoved removeParticles
       _markerParticles set_markerParticles Outflow.removeParticles POSITION VELOCITY].
  split; [|split; [|split; [|split]]].
  - intros g. specialize (Hcount g). specialize (Hcap g).
    rewrite take_ge in Hcount by lia. rewrite take_ge in Hcount by lia.
    unfold kept in Hcount. lia.
  - rewrite <- remove_masked_zip. apply remove_masked_sublist.
  - intros p v Hpv. rewrite <- remove_masked_zip in Hpv.
    apply remove_masked_lookup in Hpv as (j & Hm & Hpv).
    apply lookup_zip_with_Some in Hpv as (p' & v' & Heq & Hp & Hv).
    injection Heq as <- <-.
    apply (Hpassed j p v); auto.
    apply lookup_lt_Some in Hp. lia.
  - intros Hon. apply Forall_forall. intros l Hl.
    apply remove_masked_lookup in Hl as (j & Hm & Hl).
    apply (Hlifetime j l); auto.
    apply lookup_lt_Some in Hm. lia.
  - reflexivity.
Qed.

End Domain.

(** Three particles in one cell of a closed 2 x 2 x 2 domain that allows
    two per cell. *)
Definition crowded : State :=
  let p := mkvec3 (1 # 2) (1 # 2) (1 # 2) in
  let v := mkvec3 0 0 0 in
  mkState (Boundary.mkState false false false false false false 1
                            (mkParticleSystem [p; p; p] [v; v; v]) [])
          [] false false 0 2 false 0.

Lemma X16_witness :
  exists s',
    _removeMarkerParticles 2 2 2 1 (map (fun _ => false)) (fun _ _ => 10) 1 crowded
    = Returns tt s'
    /\ forall g,
         (Z.of_nat (length (List.filter
                              (fun p => bool_decide (positionToGridIndex p 1 = g))
                              (POSITION (_markerParticles (boundary s')))))
          <= 2)%Z.
Proof.
  destruct (X16_remove_marker_particles 2 2 2 1 (map (fun _ => false)) (fun _ _ => 10)
              1 crowded) as (s' & Hrun & Hcap & _).
  - reflexivity.
  - reflexivity.
  - discriminate.
  - repeat constructor.
  - exists s'. split; [exact Hrun | exact Hcap].
Defined.

End Removal.

(** ** Colour conversion (lines 6836-6938) *)

Module Colour.

(** [(int)hh]: the conversion of a [float] to [int] drops the fraction.
    (A value outside the range of [int] has no defined conversion; the
    model truncates it like the others.) *)
Definition trunc (q : Q) : Z := Z.quot (Qnum q) (Zpos (Qden q)).

(** [_RGBToHSV] (lines 6837-6880); [out] starts as the zero vector. *)
Definition _RGBToHSV (c : vec3) : vec3 :=
  let min := if Qltb (x c) (y c) then x c else y c in
  let min := if Qltb min (z c) then min else z c in
  let max := if Qltb (y c) (x c) then x c else y c in
  let max := if Qltb (z c) max then max else z c in
  let delta := max - min in
  if Qltb delta (1 # 100000) then mkvec3 0 0 max
  else if Qltb 0 max then
    let s := delta / max in
    let h :=
      if Qleb max (x c) then (y c - z c) / delta
      else if Qleb max (y c) then 2 + (z c - x c) / delta
      else 4 + (x c - y c) / delta in
    let h := h * 60 in
    let h := if Qltb h 0 then h + 360 else h in
    mkvec3 h s max
  else mkvec3 0 0 max.

(** The six cases of the [switch] of [_HSVToRGB]. *)
Definition sector (i : Z) (v p q t : Q) : vec3 :=
  if (i =? 0)%Z then mkvec3 v t p
  else if (i =? 1)%Z then mkvec3 q v p
  else if (i =? 2)%Z then mkvec3 p v t
  else if (i =? 3)%Z then mkvec3 p q v
  else if (i =? 4)%Z then mkvec3 t p v
  else mkvec3 v p q.

(** [_HSVToRGB] (lines 6883-6938). *)
Definition _HSVToRGB (c : vec3) : vec3 :=
  if Qleb (y c) 0 then mkvec3 (z c) (z c) (z c)
  else
    let hh := x c in
    let hh := if Qleb 360 hh then 0 else hh in
    let hh := hh / 60 in
    let i := trunc hh in
    let ff := hh - inject_Z i in
    let p := z c * (1 - y c) in
    let q := z c * (1 - (y c * ff)) in
    let t := z c * (1 - (y c * (1 - ff))) in
    sector i (z c) p q t.

(** *** Properties *)

(** The largest and the smallest component of a colour. *)
Definition maxComponent (c : vec3) : Q := Qmax (x c) (Qmax (y c) (z c)).
Definition minComponent (c : vec3) : Q := Qmin (x c) (Qmin (y c) (z c)).

Lemma trunc_nonneg (q : Q) : 0 <= q -> trunc q = Qfloor q.
Proof.
  destruct q as [n d]. unfold Qle, trunc, Qfloor. cbn. intros Hn.
  apply Z.quot_div_nonneg; lia.
Qed.

Lemma Qdiv_bounds (a d lo hi : Q) :
  0 < d -> lo * d <= a -> a <= hi * d -> lo <= a / d /\ a / d <= hi.
Proof.
  intros Hd Hlo Hhi. split.
  - by apply Qle_shift_div_l.
  - by apply Qle_shift_div_r.
Qed.

Lemma HSVToRGB_sector (h s v : Q) :
  0 < s -> 0 <= h -> h < 360 ->
  let k := Qfloor (h / 60) in
  let ff := h / 60 - inject_Z k in
  (0 <= k <= 5)%Z /\ 0 <= ff /\ ff < 1
  /\ _HSVToRGB (mkvec3 h s v)
     = sector k v (v * (1 - s)) (v * (1 - (s * ff))) (v * (1 - (s * (1 - ff)))).
Proof.
  intros Hs Hh0 Hh1. cbn zeta.
  assert (H60 : 0 <= h / 60 /\ h / 60 < 6).
  { split; [apply Qle_shift_div_l; lra | apply Qlt_shift_div_r; lra]. }
  pose proof (Qfloor_le (h / 60)) as Hlo. pose proof (Qlt_floor (h / 60)) as Hhi.
  rewrite inject_Z_plus in Hhi. change (inject_Z 1) with 1 in Hhi.
  assert (Hk : (0 <= Qfloor (h / 60) <= 5)%Z).
  { split.
    - change 0%Z with (Qfloor 0). apply Qfloor_resp_le. tauto.
    - assert (inject_Z (Qfloor (h / 60)) < inject_Z 6) by (change (inject_Z 6) with 6; lra).
      rewrite <- Zlt_Qlt in H. lia. }
  split; [exact Hk|]. split; [lra|]. split; [lra|].
  unfold _HSVToRGB. cbn [x y z].
  assert (E1 : Qleb s 0 = false) by (by apply Qleb_false).
  assert (E2 : Qleb 360 h = false) by (by apply Qleb_false).
  rewrite E1, E2. cbn zeta. rewrite trunc_nonneg by tauto. reflexivity.
Qed.

Ltac Qltb_case a b :=
  let E := fresh "E" in
  destruct (Qltb a b) eqn:E; [apply Qltb_true in E | apply Qltb_false in E].

Ltac Qleb_case a b :=
  let E := fresh "E" in
  destruct (Qleb a b) eqn:E; [apply Qleb_true in E | apply Qleb_false in E].

Ltac below_case b := match goal with |- context [Qltb ?a b] => Qltb_case a b end.
Ltac above_case b := match goal with |- context [Qltb b ?a] => Qltb_case b a end.
Ltac largest_case r g :=
  match goal with
  | |- context [Qleb ?M r] =>
      Qleb_case M r; [|Qleb_case M g]
  end.

(** What [_RGBToHSV] returns: the value is the largest component [M]; a
    colour whose components lie within 1e-5 of each other, or with no
    positive component, gets hue and saturation 0; any other gets the
    saturation [(M - m) / M] and a hue in [0, 360) in the sector of the
    largest component. *)
Lemma RGBToHSV_spec (r g b : Q) :
  exists M m,
    (r <= M /\ g <= M /\ b <= M) /\ (M = r \/ M = g \/ M = b)
    /\ (m <= r /\ m <= g /\ m <= b) /\ (m = r \/ m = g \/ m = b)
    /\ (((M - m < 1 # 100000 \/ M <= 0)
         /\ _RGBToHSV (mkvec3 r g b) = mkvec3 0 0 M)
        \/ ((1 # 100000) <= M - m /\ 0 < M
            /\ exists h,
                 _RGBToHSV (mkvec3 r g b) = mkvec3 h ((M - m) / M) M
                 /\ 0 <= h /\ h < 360
                 /\ ((M == r
                      /\ ((h / 60) * (M - m) == g - b
                          \/ (h / 60) * (M - m) == g - b + 6 * (M - m)))
                     \/ (M == g /\ r < M /\ (h / 60) * (M - m) == 2 * (M - m) + (b - r))
                     \/ (M == b /\ r < M /\ g < M
                         /\ (h / 60) * (M - m) == 4 * (M - m) + (r - g))))).
Proof.
  unfold _RGBToHSV. cbn [x y z]. cbv zeta.
  destruct (Qltb r g) eqn:E1; [apply Qltb_true in E1 | apply Qltb_false in E1];
    (destruct (Qltb g r) eqn:E2; [apply Qltb_true in E2 | apply Qltb_false in E2]);
    cbv iota; try lra.
  all: below_case b; cbv iota.
  all: above_case b; cbv iota; try lra.
  all: match goal with
       | |- context [Qltb (?M - ?m) (1 # 100000)] => exists M, m
       end.
  all: split; [lra|]; split; [tauto|]; split; [lra|]; split; [tauto|].
  all: match goal with
       | |- context [Qltb (?M - ?m) (1 # 100000)] =>
           let E := fresh "E" in
           destruct (Qltb (M - m) (1 # 100000)) eqn:E;
           [apply Qltb_true in E; left; split; [by left | reflexivity]
           | apply Qltb_false in E];
           let E' := fresh "E" in
           destruct (Qltb 0 M) eqn:E';
           [apply Qltb_true in E'
           | apply Qltb_false in E'; left; split; [by right | reflexivity]];
           assert (Hd : 0 < M - m) by lra;
           assert (Hne : ~ M - m == 0) by lra
       end.
  all: right; split; [assumption|]; split; [assumption|].
  all: largest_case r g; try lra.
  all: match goal with
       | |- context [Qltb ((?n / ?d) * 60) 0] =>
           destruct (Qdiv_bounds n d (-(1)) 1) as [Hlo Hhi]; [lra | lra | lra |]
       | |- context [Qltb ((?k + ?n / ?d) * 60) 0] =>
           destruct (Qdiv_bounds n d (-(1)) 1) as [Hlo Hhi]; [lra | lra | lra |]
       end.
  all: match goal with
       | |- context [Qltb ?h 0] =>
           let E := fresh "E" in
           destruct (Qltb h 0) eqn:E; [apply Qltb_true in E | apply Qltb_false in E]
       end; try lra.
  all: eexists; split; [reflexivity|]; split; [lra|]; split; [lra|].
  all: first [ left; split; [lra|]; first [left; field; exact Hne | right; field; exact Hne]
             | right; left; split; [lra|]; split; [lra|]; field; exact Hne
             | right; right; split; [lra|]; split; [lra|]; split; [lra|]; field; exact Hne ].
Qed.

(** X17.  [_RGBToHSV] gives every colour a hue from 0 to 360 and its
    largest component as value.  A colour whose components lie within
    1e-5 of each other gets the hue 0 and the saturation 0, and
    [_HSVToRGB] turns the result into the grey of its largest component.
    In exact arithmetic, that is without the rounding of [float], a
    colour with a positive component whose components spread over 1e-5 or
    more comes back from [_HSVToRGB] as the colour it was. *)
Theorem X17_colour_round_trip (c : vec3) :
  let hsv := _RGBToHSV c in
  let back := _HSVToRGB hsv in
  0 <= x hsv <= 360 /\ z hsv == maxComponent c
  /\ (maxComponent c - minComponent c < 1 # 100000 ->
      x hsv = 0 /\ y hsv = 0
      /\ x back = z hsv /\ y back = z hsv /\ z back = z hsv)
  /\ ((1 # 100000) <= maxComponent c - minComponent c -> 0 < maxComponent c ->
      back =v= c).
Proof.
  destruct c as [r g b]. cbn zeta. unfold maxComponent, minComponent. cbn [x y z].
  destruct (RGBToHSV_spec r g b)
    as (M & m & (HM1 & HM2 & HM3) & HM & (Hm1 & Hm2 & Hm3) & Hm & Hcases).
  assert (Hmax : M == Qmax r (Qmax g b)).
  { apply Qle_antisym.
    - destruct HM as [-> | [-> | ->]].
      + apply Q.le_max_l.
      + eapply Qle_trans; [apply Q.le_max_l | apply Q.le_max_r].
      + eapply Qle_trans; [apply Q.le_max_r | apply Q.le_max_r].
    - repeat apply Q.max_lub; assumption. }
  assert (Hmin : m == Qmin r (Qmin g b)).
  { apply Qle_antisym.
    - repeat apply Q.min_glb; assumption.
    - destruct Hm as [-> | [-> | ->]].
      + apply Q.le_min_l.
      + eapply Qle_trans; [apply Q.le_min_r | apply Q.le_min_l].
      + eapply Qle_trans; [apply Q.le_min_r | apply Q.le_min_r]. }
  rewrite <- Hmax, <- Hmin.
  destruct Hcases as [[Hgrey ->] | (Hd & Hpos & h & -> & Hh0 & Hh1 & Hhue)]; cbn [x y z].
  - split; [split; lra|]. split; [reflexivity|].
    split; [|intros; lra]. intros _. unfold _HSVToRGB. cbn [x y z].
    assert (E : Qleb 0 0 = true) by (by apply Qleb_true).
    rewrite E. repeat split.
  - split; [split; [exact Hh0 | lra]|]. split; [reflexivity|].
    split; [intros; lra|]. intros _ _.
    assert (Hs : 0 < (M - m) / M) by (apply Qlt_shift_div_l; lra).
    destruct (HSVToRGB_sector h ((M - m) / M) M Hs Hh0 Hh1) as (Hk & Hf0 & Hf1 & ->).
    set (k := Qfloor (h / 60)) in *.
    set (ff := h / 60 - inject_Z k) in *.
    assert (Hw : h / 60 == inject_Z k + ff) by (unfold ff; ring).
    set (fd := ff * (M - m)).
    assert (Hfd : 0 <= fd /\ fd < M - m) by (unfold fd; nra).
    assert (HP : M * (1 - (M - m) / M) == m) by (field; lra).
    assert (HQ : M * (1 - (M - m) / M * ff) == M - fd) by (unfold fd; field; lra).
    assert (HT : M * (1 - (M - m) / M * (1 - ff)) == m + fd) by (unfold fd; field; lra).
    assert (Hhue' :
              (M == r /\ ((inject_Z k) * (M - m) + fd == g - b
                          \/ (inject_Z k) * (M - m) + fd == g - b + 6 * (M - m)))
              \/ (M == g /\ r < M /\ (inject_Z k) * (M - m) + fd == 2 * (M - m) + (b - r))
              \/ (M == b /\ r < M /\ g < M
                  /\ (inject_Z k) * (M - m) + fd == 4 * (M - m) + (r - g))).
    { assert (Hmul : h / 60 * (M - m) == inject_Z k * (M - m) + fd)
        by (rewrite Hw; unfold fd; ring).
      rewrite Hmul in Hhue. exact Hhue. }
    clear Hhue Hw. clearbody fd. clearbody ff.
    assert (Hk6 : k = 0%Z \/ k = 1%Z \/ k = 2%Z \/ k = 3%Z \/ k = 4%Z \/ k = 5%Z) by lia.
    clearbody k.
    unfold veq, sector. cbn [x y z].
    destruct Hk6 as [-> | [-> | [-> | [-> | [-> | ->]]]]]; cbn [Z.eqb Pos.eqb x y z];
      rewrite ?HP, ?HQ, ?HT; unfold inject_Z in Hhue';
      destruct Hhue' as [(HMr & [Hu | Hu]) | [(HMg & Hr & Hu) | (HMb & Hr & Hg & Hu)]];
      destruct Hm as [-> | [-> | ->]];
      repeat split; lra.
Qed.

End Colour.

(** ** Counting the fluid cells (lines 7929-7963) *)

Module FluidCells.

Import Std Particles Grid3d.

Section Count.

Variable _isize _jsize _ksize : Z.
Variable _dx : Q.

(** [_liquidSDF.get(i, j, k)], the liquid level set at a cell; the class
    is declared in another file. *)
Variable _liquidSDF_get : GridIndex -> Q.

(** [for (k = 1; k < _ksize - 1; k++) for (j = 1; j < _jsize - 1; j++)
    for (i = 1; i < _isize - 1; i++)]: the indices in the order the loop
    visits them. *)
Definition interior : list GridIndex :=
  k ← seqZ 1 (_ksize - 2); j ← seqZ 1 (_jsize - 2); i ← seqZ 1 (_isize - 2);
  [mkGridIndex i j k].

(** [for (cells) { if (test) count++; }] *)
Definition count_if (test : GridIndex -> bool) (cells : list GridIndex) (count : Z) : Z :=
  fold_left (fun count g => if test g then (count + 1)%Z else count) cells count.

(** [_getNumFluidCells] (lines 7929-7963); [_markerParticles.empty()] is
    read as a size of 0, and [isFluidCell.set] refuses an index outside
    the grid. *)
Definition _getNumFluidCells (ps : ParticleSystem) : exception + Z :=
  let count := count_if (fun g => Qltb (_liquidSDF_get g) 0) interior 0 in
  if (count =? 0)%Z && negb (ParticleIO.size ps =? 0)%Z
  then
    let isFluidCell := Outflow.mkArray3d _isize _jsize _ksize (fun _ => false) in
    match Outflow.set_all (map (fun p => positionToGridIndex p _dx) (POSITION ps))
                          true isFluidCell with
    | None => inl (out_of_range "Error: index out of range.")
    | Some isFluidCell =>
        inr (count_if (Outflow.cell isFluidCell)
                      (BodyForces.for_kji _isize _jsize _ksize) count)
    end
  else inr count.

(** *** Properties *)

Lemma count_if_length (test : GridIndex -> bool) (cells : list GridIndex) (count : Z) :
  count_if test cells count = (count + Z.of_nat (length (List.filter test cells)))%Z.
Proof.
  unfold count_if. revert count.
  induction cells as [|g cells IH]; intros count; cbn [fold_left List.filter].
  - cbn. lia.
  - rewrite IH. destruct (test g); cbn [length]; lia.
Qed.

(** The cells that hold a marker particle. *)
Definition occupied (ps : ParticleSystem) : gset GridIndex :=
  list_to_set (map (fun p => positionToGridIndex p _dx) (POSITION ps)).

(** X18.  When every marker particle lies in the grid,
    [_getNumFluidCells] returns the number of interior cells with a
    negative liquid level set value, and when there is none, the number
    of cells that hold a marker particle.  So it returns 0 only if no
    interior cell is liquid and there is no marker particle. *)
Theorem X18_num_fluid_cells (ps : ParticleSystem) :
  Forall (fun p => inGrid _isize _jsize _ksize _dx p = true) (POSITION ps) ->
  let liquid := List.filter (fun g => Qltb (_liquidSDF_get g) 0) interior in
  exists n,
    _getNumFluidCells ps = inr n
    /\ (liquid <> [] -> n = Z.of_nat (length liquid))
    /\ (liquid = [] -> n = Z.of_nat (size (occupied ps)))
    /\ (n = 0%Z <-> liquid = [] /\ POSITION ps = []).
Proof.
  intros Hgrid liquid. unfold _getNumFluidCells. cbn zeta.
  rewrite count_if_length. fold liquid. rewrite Z.add_0_l.
  assert (Hsize : (ParticleIO.size ps =? 0)%Z
                  = match POSITION ps with [] => true | _ => false end).
  { unfold ParticleIO.size. destruct (POSITION ps); [reflexivity|].
    apply Z.eqb_neq. cbn [length]. lia. }
  destruct liquid as [|g liquid'] eqn:Eliquid.
  - cbn [length Z.of_nat Z.eqb andb].
    assert (Hin : forall q, q ∈ POSITION ps ->
                    isGridIndexInRange (positionToGridIndex q _dx) _isize _jsize _ksize
                    = true).
    { intros q Hq. rewrite Forall_forall in Hgrid. by apply Hgrid. }
    assert (Hcase : POSITION ps = [] \/ exists p positions, POSITION ps = p :: positions).
    { destruct (POSITION ps) as [|p positions]; eauto. }
    destruct Hcase as [Epos | (p & positions & Epos)]; rewrite Epos in Hsize; rewrite Hsize.
    + exists 0%Z. cbn [negb]. split; [reflexivity|]. split; [congruence|].
      split; [|tauto]. intros _. unfold occupied. rewrite Epos. reflexivity.
    + cbn [negb].
      set (cells := map (fun p => positionToGridIndex p _dx) (POSITION ps)).
      destruct (Outflow.set_all_spec cells true
                  (Outflow.mkArray3d _isize _jsize _ksize (fun _ => false)))
        as (a & -> & _ & _ & _ & Hcell).
      { intros c Hc. unfold cells in Hc.
        apply list_elem_of_In, in_map_iff in Hc as (q & <- & Hq).
        apply Hin. by apply list_elem_of_In. }
      rewrite count_if_length, Z.add_0_l.
      set (marked := List.filter (Outflow.cell a) (BodyForces.for_kji _isize _jsize _ksize)).
      assert (Hmarked : forall c, c ∈ marked <-> c ∈ cells).
      { intros c. unfold marked. rewrite list_elem_of_In, filter_In, <- list_elem_of_In.
        rewrite Hcell. cbn [Outflow.cell].
        destruct (decide (c ∈ cells)) as [Hc|Hc].
        - rewrite bool_decide_eq_true_2 by exact Hc. split; [tauto|]. intros _.
          split; [|reflexivity]. apply BodyForces.elem_of_for_kji.
          unfold cells in Hc.
          apply list_elem_of_In, in_map_iff in Hc as (q & <- & Hq).
          apply Hin. by apply list_elem_of_In.
        - rewrite bool_decide_eq_false_2 by exact Hc. split; [|tauto].
          intros [_ ?]. discriminate. }
      assert (Hnd : NoDup marked).
      { unfold marked. apply NoDup_ListNoDup, List.NoDup_filter, NoDup_ListNoDup.
        apply BodyForces.NoDup_for_kji. }
      assert (Hset : occupied ps = list_to_set marked).
      { unfold occupied. fold cells. apply set_eq. intros c.
        rewrite !elem_of_list_to_set. by rewrite Hmarked. }
      exists (Z.of_nat (length marked)). split; [reflexivity|].
      split; [congruence|].
      split; [intros _; by rewrite Hset, size_list_to_set|].
      split; [|intros [_ ?]; congruence].
      intros Hzero. exfalso.
      assert (Hp : positionToGridIndex p _dx ∈ marked).
      { apply Hmarked. unfold cells. rewrite Epos. cbn. apply list_elem_of_here. }
      destruct marked; [by apply elem_of_nil in Hp | cbn [length] in Hzero; lia].
  - assert (Hpos : (Z.of_nat (length (g :: liquid')) =? 0)%Z = false).
    { apply Z.eqb_neq. cbn [length]. lia. }
    rewrite Hpos. cbn [andb].
    exists (Z.of_nat (length (g :: liquid'))). split; [reflexivity|].
    split; [reflexivity|]. split; [congruence|].
    split; [cbn [length]; lia | intros [? _]; congruence].
Qed.

End Count.

(** Two particles in one cell of a 4 x 4 x 4 grid without liquid cells. *)
Lemma X18_witness :
  _getNumFluidCells 4 4 4 1 (fun _ => 1)
    (mkParticleSystem [mkvec3 (3 # 2) (3 # 2) (3 # 2); mkvec3 (7 # 4) (3 # 2) (3 # 2)]
                      [mkvec3 0 0 0; mkvec3 0 0 0])
  = inr 1%Z.
Proof.
  destruct (X18_num_fluid_cells 4 4 4 1 (fun _ => 1)
              (mkParticleSystem
                 [mkvec3 (3 # 2) (3 # 2) (3 # 2); mkvec3 (7 # 4) (3 # 2) (3 # 2)]
                 [mkvec3 0 0 0; mkvec3 0 0 0]))
    as (n & Hrun & _ & Hcount & _).
  - repeat constructor.
  - rewrite Hrun, Hcount by reflexivity. reflexivity.
Defined.

End FluidCells.

(** ** Fluid added as a box (lines 7549-7609) *)

Module BoxEmission.

Import Particles Grid3d Inflow.

Section Emission.

Variable _isize _jsize _ksize : Z.
Variable _dx : Q.
Variable _markerParticleJitterFactor : Q.
Variable _isJitterSurfaceMarkerParticlesEnabled : bool.

(** The solid level set and the random number generator belong to other
    files, as for the mesh sources. *)
Variable _solidSDF_trilinearInterpolate : vec3 -> Q.
Variable Rng : Type.
Variable _randomDouble : Q -> Q -> Rng -> Q * Rng.

(** [for (k = g1.k; k <= g2.k; k++) for (j = g1.j; j <= g2.j; j++)
    for (i = g1.i; i <= g2.i; i++)]: the cells in the order the loop
    visits them. *)
Definition block (g1 g2 : GridIndex) : list GridIndex :=
  kk ← seqZ (k g1) (k g2 - k g1 + 1);
  jj ← seqZ (j g1) (j g2 - j g1 + 1);
  ii ← seqZ (i g1) (i g2 - i g1 + 1);
  [mkGridIndex ii jj kk].

(** The body of the loop over the eight offsets, at one candidate. *)
Definition boxCandidate (velocity : vec3) (isSurfaceParticle : bool)
    (st : list MarkerParticle * ParticleMaskGrid * Rng) (p : vec3)
  : list MarkerParticle * ParticleMaskGrid * Rng :=
  let '(newParticles, maskgrid, rng) := st in
  if isSubCellSet maskgrid p then st
  else
    let '(p, rng) :=
      if _isJitterSurfaceMarkerParticlesEnabled || negb isSurfaceParticle
      then _jitterMarkerParticlePosition Rng _randomDouble p
             (_getMarkerParticleJitter _dx _markerParticleJitterFactor) rng
      else (p, rng) in
    if Qltb 0 (_solidSDF_trilinearInterpolate p)
    then (newParticles ++ [mkMarkerParticle p velocity], addParticle maskgrid p, rng)
    else (newParticles, maskgrid, rng).

(** The body of the loop over the cells. *)
Definition boxCell (velocity : vec3) (g1 g2 : GridIndex)
    (st : list MarkerParticle * ParticleMaskGrid * Rng) (g : GridIndex)
  : list MarkerParticle * ParticleMaskGrid * Rng :=
  let c := GridIndexToCellCenter g _dx in
  let isSurfaceParticle :=
    (i g =? i g1)%Z || (j g =? j g1)%Z || (k g =? k g1)%Z
    || (i g =? i g2)%Z || (j g =? j g2)%Z || (k g =? k g2)%Z in
  fold_left (fun st offset => boxCandidate velocity isSurfaceParticle st (c + offset)%vec)
            (particleOffsets _dx) st.

(** The block of cells that the box covers, cut down to the cells that
    are not in the outermost layer of the grid. *)
Definition boxCorners (bbox : AABB.t) : GridIndex * GridIndex :=
  let p1 := AABB.getMinPoint bbox in
  let p2 := AABB.getMaxPoint bbox in
  let g1 := positionToGridIndex p1 _dx in
  let g2 := positionToGridIndex p2 _dx in
  (mkGridIndex (Z.max (i g1) 1) (Z.max (j g1) 1) (Z.max (k g1) 1),
   mkGridIndex (Z.min (i g2) (_isize - 2)) (Z.min (j g2) (_jsize - 2))
               (Z.min (k g2) (_ksize - 2))).

(** [_addNewFluidCellsAABB] (lines 7549-7609): the particles it creates
    and the state it leaves. *)
Definition newFluidCellsAABB (bbox : AABB.t) (velocity : vec3)
    (maskgrid : ParticleMaskGrid) (rng : Rng)
  : list MarkerParticle * ParticleMaskGrid * Rng :=
  let '(g1, g2) := boxCorners bbox in
  fold_left (boxCell velocity g1 g2) (block g1 g2) ([], maskgrid, rng).

Definition _addNewFluidCellsAABB (bbox : AABB.t) (velocity : vec3)
    (st : ParticleSystem * ParticleMaskGrid * Rng)
  : ParticleSystem * ParticleMaskGrid * Rng :=
  let '(markerParticles, maskgrid, rng) := st in
  let '(newParticles, maskgrid, rng) := newFluidCellsAABB bbox velocity maskgrid rng in
  (_addMarkerParticles _isize _jsize _ksize _dx newParticles markerParticles,
   maskgrid, rng).

(** *** Properties *)

Lemma elem_of_block (g1 g2 g : GridIndex) :
  g ∈ block g1 g2
  <-> (i g1 <= i g <= i g2)%Z /\ (j g1 <= j g <= j g2)%Z /\ (k g1 <= k g <= k g2)%Z.
Proof.
  unfold block. rewrite list_elem_of_bind. split.
  - intros (c & Hg & Hc). apply list_elem_of_bind in Hg as (b & Hg & Hb).
    apply list_elem_of_bind in Hg as (a & Hg & Ha).
    apply list_elem_of_singleton in Hg. subst g. cbn.
    apply elem_of_seqZ in Ha, Hb, Hc. lia.
  - intros (Hi & Hj & Hk). destruct g as [a b c]. cbn in *.
    exists c. split; [|apply elem_of_seqZ; lia].
    apply list_elem_of_bind. exists b. split; [|apply elem_of_seqZ; lia].
    apply list_elem_of_bind. exists a. split; [|apply elem_of_seqZ; lia].
    apply list_elem_of_singleton. reflexivity.
Qed.

(** On one axis: a jitter below a quarter of a cell keeps a candidate in
    its cell. *)
Lemma cell_axis (a : Z) (s jit J : Q) :
  0 < _dx ->
  s = - ((1 # 4) * _dx) \/ s = (1 # 4) * _dx ->
  0 <= J < (1 # 4) * _dx -> - J <= jit <= J ->
  Qfloor ((inject_Z a * _dx + (1 # 2) * _dx + s + jit) / _dx) = a.
Proof.
  intros Hdx Hs HJ Hjit. apply Qfloor_unique.
  split; [apply Qle_shift_div_l | apply Qlt_shift_div_r]; try exact Hdx;
    destruct Hs as [-> | ->]; lra.
Qed.

(** A particle that the emission may create for the block from [g1] to
    [g2]: it has the velocity of the fluid, is outside the solid, and
    its cell is a cell of the block. *)
Definition created (velocity : vec3) (g1 g2 : GridIndex) (mp : MarkerParticle) : Prop :=
  velocity = Particles.velocity mp
  /\ 0 < _solidSDF_trilinearInterpolate (position mp)
  /\ positionToGridIndex (position mp) _dx ∈ block g1 g2.

Lemma boxCandidate_created (velocity : vec3) (g1 g2 g : GridIndex) (surface : bool)
    (offset : vec3) (newParticles : list MarkerParticle) (maskgrid : ParticleMaskGrid)
    (rng : Rng) :
  0 < _dx -> draws_in_range Rng _randomDouble ->
  jitter_in_subcell _dx _markerParticleJitterFactor ->
  g ∈ block g1 g2 -> offset ∈ particleOffsets _dx ->
  Forall (created velocity g1 g2) newParticles ->
  Forall (created velocity g1 g2)
         (boxCandidate velocity surface (newParticles, maskgrid, rng)
                       (GridIndexToCellCenter g _dx + offset)%vec).1.1.
Proof.
  intros Hdx Hdraw HJ Hg Hoff Hall. unfold boxCandidate.
  destruct (isSubCellSet maskgrid _); [exact Hall|].
  destruct (offset_components _dx Rng _randomDouble offset Hoff) as (Hx & Hy & Hz).
  set (J := _getMarkerParticleJitter _dx _markerParticleJitterFactor).
  assert (HJJ : - J <= J) by (unfold jitter_in_subcell in HJ; fold J in HJ; lra).
  assert (Hzero : - 0 <= 0 <= 0) by lra.
  assert (Hcell : forall jx jy jz,
            - J <= jx <= J -> - J <= jy <= J -> - J <= jz <= J ->
            positionToGridIndex
              (mkvec3 (x (GridIndexToCellCenter g _dx + offset)%vec + jx)
                      (y (GridIndexToCellCenter g _dx + offset)%vec + jy)
                      (z (GridIndexToCellCenter g _dx + offset)%vec + jz)) _dx = g).
  { intros jx jy jz H1 H2 H3. unfold positionToGridIndex.
    cbn [x y z vmath.add GridIndexToCellCenter].
    rewrite (cell_axis _ _ _ J Hdx Hx HJ H1), (cell_axis _ _ _ J Hdx Hy HJ H2),
            (cell_axis _ _ _ J Hdx Hz HJ H3).
    by destruct g. }
  destruct (_isJitterSurfaceMarkerParticlesEnabled || negb surface).
  - unfold _jitterMarkerParticlePosition. fold J.
    destruct (_randomDouble (- J) J rng) as [jx r1] eqn:E1.
    destruct (_randomDouble (- J) J r1) as [jy r2] eqn:E2.
    destruct (_randomDouble (- J) J r2) as [jz r3] eqn:E3.
    pose proof (Hdraw _ _ rng HJJ) as H1. rewrite E1 in H1.
    pose proof (Hdraw _ _ r1 HJJ) as H2. rewrite E2 in H2.
    pose proof (Hdraw _ _ r2 HJJ) as H3. rewrite E3 in H3.
    cbn [fst] in *.
    destruct (Qltb 0 (_solidSDF_trilinearInterpolate _)) eqn:Esolid; [|exact Hall].
    cbn [fst]. apply Forall_app. split; [exact Hall|].
    apply Forall_singleton. split; [reflexivity|]. cbn [position].
    split; [by apply Qltb_true|]. by rewrite Hcell.
  - destruct (Qltb 0 (_solidSDF_trilinearInterpolate _)) eqn:Esolid; [|exact Hall].
    cbn [fst]. apply Forall_app. split; [exact Hall|].
    apply Forall_singleton. split; [reflexivity|]. cbn [position].
    split; [by apply Qltb_true|].
    assert (HJ0 : - J <= 0 <= J) by (unfold jitter_in_subcell in HJ; fold J in HJ; lra).
    pose proof (Hcell 0 0 0 HJ0 HJ0 HJ0) as H0.
    assert (Hsame : positionToGridIndex (GridIndexToCellCenter g _dx + offset)%vec _dx
                    = positionToGridIndex
                        (mkvec3 (x (GridIndexToCellCenter g _dx + offset)%vec + 0)
                                (y (GridIndexToCellCenter g _dx + offset)%vec + 0)
                                (z (GridIndexToCellCenter g _dx + offset)%vec + 0)) _dx).
    { unfold positionToGridIndex. cbn [x y z].
      f_equal; apply Qfloor_comp; apply Qdiv_comp; try reflexivity; ring. }
    by rewrite Hsame, H0.
Qed.

Lemma boxCell_created (velocity : vec3) (g1 g2 g : GridIndex)
    (st : list MarkerParticle * ParticleMaskGrid * Rng) :
  0 < _dx -> draws_in_range Rng _randomDouble ->
  jitter_in_subcell _dx _markerParticleJitterFactor ->
  g ∈ block g1 g2 ->
  Forall (created velocity g1 g2) st.1.1 ->
  Forall (created velocity g1 g2) (boxCell velocity g1 g2 st g).1.1.
Proof.
  intros Hdx Hdraw HJ Hg. unfold boxCell. cbn zeta.
  set (surface := (_ || _)%bool). clearbody surface.
  assert (Hgen : forall offsets,
            (forall o, o ∈ offsets -> o ∈ particleOffsets _dx) ->
            forall st0,
              Forall (created velocity g1 g2) st0.1.1 ->
              Forall (created velocity g1 g2)
                     (fold_left
                        (fun st offset =>
                           boxCandidate velocity surface st
                                        (GridIndexToCellCenter g _dx + offset)%vec)
                        offsets st0).1.1).
  { induction offsets as [|offset offsets IH]; intros Hoffsets st0 Hall;
      cbn [fold_left]; [exact Hall|].
    apply IH.
    - intros o Ho. apply Hoffsets. by apply list_elem_of_further.
    - destruct st0 as [[newParticles maskgrid] rng].
      apply boxCandidate_created; auto. apply Hoffsets, list_elem_of_here. }
  intros Hall. apply Hgen; auto.
Qed.

(** X19.  [_addNewFluidCellsAABB] creates particles only in cells of the
    box that are not in the outermost layer of the grid: with a jitter
    amplitude below a quarter of a cell, every particle it creates lies
    in a cell with indices in [1, size - 2] on each axis and between the
    cells of the corners of the box, is outside the solid and has the
    velocity given.  All of them are appended to the marker particles.
    A box whose cells are all in the outermost layer or outside the grid
    adds nothing. *)
Theorem X19_box_emission_interior (bbox : AABB.t) (velocity : vec3)
    (markerParticles : ParticleSystem) (maskgrid : ParticleMaskGrid) (rng : Rng) :
  0 < _dx -> draws_in_range Rng _randomDouble ->
  jitter_in_subcell _dx _markerParticleJitterFactor ->
  let created := (newFluidCellsAABB bbox velocity maskgrid rng).1.1 in
  let after := (_addNewFluidCellsAABB bbox velocity (markerParticles, maskgrid, rng)).1.1 in
  let low := positionToGridIndex (AABB.getMinPoint bbox) _dx in
  let high := positionToGridIndex (AABB.getMaxPoint bbox) _dx in
  Forall (fun mp =>
            let g := positionToGridIndex (position mp) _dx in
            (1 <= i g <= _isize - 2)%Z /\ (1 <= j g <= _jsize - 2)%Z
            /\ (1 <= k g <= _ksize - 2)%Z
            /\ (i low <= i g <= i high)%Z /\ (j low <= j g <= j high)%Z
            /\ (k low <= k g <= k high)%Z
            /\ 0 < _solidSDF_trilinearInterpolate (position mp)
            /\ Particles.velocity mp = velocity)
         created
  /\ POSITION after = POSITION markerParticles ++ map position created
  /\ VELOCITY after = VELOCITY markerParticles ++ map Particles.velocity created
  /\ ((i high < 1 \/ j high < 1 \/ k high < 1
       \/ _isize - 2 < i low \/ _jsize - 2 < j low \/ _ksize - 2 < k low)%Z ->
      created = []).
Proof.
  intros Hdx Hdraw HJ. cbn zeta.
  unfold _addNewFluidCellsAABB, newFluidCellsAABB, boxCorners. cbn zeta.
  set (low := positionToGridIndex (AABB.getMinPoint bbox) _dx).
  set (high := positionToGridIndex (AABB.getMaxPoint bbox) _dx).
  set (g1 := mkGridIndex (Z.max (i low) 1) (Z.max (j low) 1) (Z.max (k low) 1)).
  set (g2 := mkGridIndex (Z.min (i high) (_isize - 2)) (Z.min (j high) (_jsize - 2))
                         (Z.min (k high) (_ksize - 2))).
  assert (Hall : forall cells st,
            (forall g, g ∈ cells -> g ∈ block g1 g2) ->
            Forall (created velocity g1 g2) st.1.1 ->
            Forall (created velocity g1 g2) (fold_left (boxCell velocity g1 g2) cells st).1.1).
  { induction cells as [|g cells IH]; intros st Hcells Hst; cbn [fold_left]; [exact Hst|].
    apply IH.
    - intros c Hc. apply Hcells. by apply list_elem_of_further.
    - apply boxCell_created; auto. apply Hcells, list_elem_of_here. }
  specialize (Hall (block g1 g2) ([], maskgrid, rng) (fun g Hg => Hg) (Forall_nil_2 _)).
  destruct (fold_left (boxCell velocity g1 g2) (block g1 g2) ([], maskgrid, rng))
    as [[newParticles maskgrid'] rng'] eqn:Erun.
  cbn [fst] in *.
  assert (Hinterior : Forall (fun mp =>
            let g := positionToGridIndex (position mp) _dx in
            (1 <= i g <= _isize - 2)%Z /\ (1 <= j g <= _jsize - 2)%Z
            /\ (1 <= k g <= _ksize - 2)%Z
            /\ (i low <= i g <= i high)%Z /\ (j low <= j g <= j high)%Z
            /\ (k low <= k g <= k high)%Z
            /\ 0 < _solidSDF_trilinearInterpolate (position mp)
            /\ Particles.velocity mp = velocity) newParticles).
  { eapply Forall_impl; [exact Hall|]. intros mp (Hv & Hsolid & Hg). cbn zeta.
    apply elem_of_block in Hg. unfold g1, g2 in Hg. cbn [i j k] in Hg.
    repeat split; try lia; auto. }
  split; [exact Hinterior|].
  assert (Hkeep : List.filter (fun mp => inGrid _isize _jsize _ksize _dx (position mp))
                              newParticles = newParticles).
  { apply forallb_filter_id, forallb_forall. intros mp Hmp.
    rewrite Forall_forall in Hinterior. apply list_elem_of_In in Hmp.
    destruct (Hinterior mp Hmp) as (Hi & Hj & Hk & _). cbn zeta in *.
    unfold inGrid, isGridIndexInRange.
    repeat (apply andb_true_intro; split); lia. }
  destruct (addMarkerParticles_columns _isize _jsize _ksize _dx newParticles markerParticles)
    as [HP HV].
  rewrite Hkeep in HP, HV.
  split; [exact HP|]. split; [exact HV|].
  intros Hout.
  assert (Hempty : block g1 g2 = []).
  { destruct (block g1 g2) as [|g cells] eqn:Eblock; [reflexivity|].
    assert (Hg : g ∈ block g1 g2) by (rewrite Eblock; apply list_elem_of_here).
    apply elem_of_block in Hg. unfold g1, g2 in Hg. cbn [i j k] in Hg. lia. }
  rewrite Hempty in Erun. cbn in Erun. congruence.
Qed.

End Emission.

(** A box over the whole of a 4 x 4 x 4 grid of unit cells, with no solid:
    the particles are created in the cells 1 and 2 of each axis. *)
Lemma X19_witness :
  Forall (fun mp => (1 <= i (positionToGridIndex (position mp) 1) <= 2)%Z)
         (newFluidCellsAABB 4 4 4 1 1 false (fun _ => 1) nat
            (fun lo hi n => ((1 # 2) * (lo + hi), S n))
            (AABB.mk (mkvec3 0 0 0) 4 4 4) (mkvec3 0 0 1) (mkMask 1 ∅) 0%nat).1.1.
Proof.
  destruct (X19_box_emission_interior 4 4 4 1 1 false (fun _ => 1) nat
              (fun lo hi n => ((1 # 2) * (lo + hi), S n))
              (AABB.mk (mkvec3 0 0 0) 4 4 4) (mkvec3 0 0 1)
              (mkParticleSystem [] []) (mkMask 1 ∅) 0%nat)
    as [Hcreated _].
  - reflexivity.
  - exact midpoint_draws_in_range.
  - unfold jitter_in_subcell, _getMarkerParticleJitter. simpl. lra.
  - eapply Forall_impl; [exact Hcreated|]. cbn zeta. intros mp (Hi & _). lia.
Defined.

End BoxEmission.

(** ** The times at which an inflow emits (lines 7653-7702) *)

Module InflowSchedule.

Import Engine Timing.

#[local] Arguments update_body : simpl never.
#[local] Arguments chooseTimeStep : simpl never.
#[local] Arguments stabilityLimit : simpl never.
#[local] Arguments maximumSpeed : simpl never.
#[local] Arguments _stepFluid : simpl never.

Section Source.

(** What an emission works on (the particles, the mask grid, the source
    object), the two values read from the source before the loop, and the
    body of the loop at [frameInterpolation]: the source is moved there
    by [setFrame] and [update], and its cells are filled by one of the
    overloads of [_addNewFluidCells]. *)
Variable S : Type.
Variable isEnabled : bool.
Variable getSubstepEmissions : Z.
Variable emit : Q -> S -> S.


End Source.

(** *** Properties *)





Section WithWorld.

Context {W : Type} {collaborators : Collaborators W}.


End WithWorld.

Import Scenario.
#[local] Existing Instance scene.


End InflowSchedule.

(** ** The speed limit of the extreme velocity removal (lines 7232-7280) *)

Module SpeedLimit.

Import Engine.

(** [std::max(a, b)] is [(a < b) ? b : a] and [std::min(a, b)] is
    [(b < a) ? b : a]. *)
Definition std_max (a b : Q) : Q := if Qltb a b then b else a.
Definition std_min (a b : Q) : Q := if Qltb b a then b else a.

(** [counts[index]++] on a [std::vector<int>].  An index outside the
    vector is undefined in the source; it has no result here. *)
Definition increment (index : Z) (counts : list Z) : option (list Z) :=
  if (index <? 0)%Z then None
  else
    match counts !! Z.to_nat index with
    | Some c => Some (<[Z.to_nat index := (c + 1)%Z]> counts)
    | None => None
    end.

(** [counts[index(v)]++] as the body of a loop over [v]. *)
Definition bump {A : Type} (index : A -> Z) (acc : option (list Z)) (v : A)
    : option (list Z) :=
  match acc with
  | None => None
  | Some counts => increment (index v) counts
  end.

Section Limit.

Context {W : Type} {collaborators : Collaborators W}.

(** The members of the class that only this function and its caller
    read. *)
Variable _maxExtremeVelocityRemovalPercent : Q.
Variable _maxExtremeVelocityRemovalAbsolute : Z.
Variable _minTimeStepIncreaseForRemoval : Z.
Variable _extremeParticleVelocityThresholdLower : Q.
Variable _extremeParticleVelocityThreshold : Q.
Variable _maxExtremeVelocityOutlierRemovalAbsolute : Z.

(** The body of the first loop (lines 7239-7244).  [fmin] of the floor and
    of [_maxFrameTimeSteps - 1] is a whole number, which the conversion to
    [int] keeps. *)
Definition count_speed (speedLimitStep : Q) (maxFrameTimeSteps : Z)
    (acc : option (list Z * Q)) (v : vec3) : option (list Z * Q) :=
  match acc with
  | None => None
  | Some (speedLimitCounts, maxParticleSpeed) =>
      let speed := vlength v in
      let speedLimitIndex :=
        Z.min (Qfloor (speed / speedLimitStep)) (maxFrameTimeSteps - 1) in
      match increment speedLimitIndex speedLimitCounts with
      | None => None
      | Some speedLimitCounts => Some (speedLimitCounts, std_max speed maxParticleSpeed)
      end
  end.

(** The second loop (lines 7251-7258), by recursion on its counter [i],
    which runs down to 1. *)
Fixpoint limit_loop (speedLimitStep : Q) (maxFrameTimeSteps maxRemovalCount : Z)
    (speedLimitCounts : list Z) (i : nat) (currentRemovalCount : Z) (maxspeed : Q)
    : option Q :=
  match i with
  | O => Some maxspeed
  | S i' =>
      match speedLimitCounts !! i with
      | None => None
      | Some c =>
          if (maxRemovalCount <? currentRemovalCount + c)%Z then Some maxspeed
          else
            limit_loop speedLimitStep maxFrameTimeSteps maxRemovalCount speedLimitCounts i'
                       (currentRemovalCount + c)%Z
                       (inject_Z (Z.max (Z.of_nat i + _minTimeStepIncreaseForRemoval)
                                        maxFrameTimeSteps)
                        * speedLimitStep)
      end
  end.

(** The body of the third loop (lines 7264-7272); the pair is
    [(extremeParticleVelocityOutlierCountLower,
      extremeParticleVelocityOutlierCount)]. *)
Definition count_outlier (extremeSpeedOutlierThresholdLower extremeSpeedOutlierThreshold : Q)
    (acc : Z * Z) (v : vec3) : Z * Z :=
  let speed := vlength v in
  let lower :=
    if Qleb extremeSpeedOutlierThresholdLower speed && Qltb speed extremeSpeedOutlierThreshold
    then (fst acc + 1)%Z else fst acc in
  let upper :=
    if Qleb extremeSpeedOutlierThreshold speed then (snd acc + 1)%Z else snd acc in
  (lower, upper).

(** [_getMarkerParticleSpeedLimit] (lines 7232-7280).  The particle system
    has as many particles as velocities.  [std::vector<int>(n, 0)] with a
    negative [n] throws; that has no result here either. *)
Definition _getMarkerParticleSpeedLimit (s : Sim W) (dt : Q) : option Q :=
  let c := cfg s in
  let velocities := VELOCITY (world s) in
  let speedLimitStep := inject_Z (_CFLConditionNumber c) * _dx c / dt in
  if (_maxFrameTimeSteps c <? 0)%Z then None
  else
    match fold_left (count_speed speedLimitStep (_maxFrameTimeSteps c)) velocities
                    (Some (replicate (Z.to_nat (_maxFrameTimeSteps c)) 0%Z, 0)) with
    | None => None
    | Some (speedLimitCounts, maxParticleSpeed) =>
        let maxpct := _maxExtremeVelocityRemovalPercent in
        let maxabs := _maxExtremeVelocityRemovalAbsolute in
        let maxRemovalCount :=
          Z.min (Colour.trunc (inject_Z (Z.of_nat (length velocities)) * maxpct)) maxabs in
        match limit_loop speedLimitStep (_maxFrameTimeSteps c) maxRemovalCount
                         speedLimitCounts
                         (Z.to_nat (Z.of_nat (length speedLimitCounts) - 1)) 0%Z
                         (inject_Z (_maxFrameTimeSteps c) * speedLimitStep) with
        | None => None
        | Some maxspeed =>
            let extremeSpeedOutlierThresholdLower :=
              _extremeParticleVelocityThresholdLower * maxParticleSpeed in
            let extremeSpeedOutlierThreshold :=
              _extremeParticleVelocityThreshold * maxParticleSpeed in
            let '(extremeParticleVelocityOutlierCountLower,
                  extremeParticleVelocityOutlierCount) :=
              fold_left (count_outlier extremeSpeedOutlierThresholdLower
                                       extremeSpeedOutlierThreshold)
                        velocities (0%Z, 0%Z) in
            if (extremeParticleVelocityOutlierCount
                <=? _maxExtremeVelocityOutlierRemovalAbsolute)%Z
               && (extremeParticleVelocityOutlierCountLower
                   <=? _maxExtremeVelocityOutlierRemovalAbsolute)%Z
            then Some (std_min extremeSpeedOutlierThreshold maxspeed)
            else Some maxspeed
        end
    end.

(** *** Properties *)

(** The largest speed, as the first loop computes it. *)
Definition maxParticleSpeed (velocities : list vec3) : Q :=
  fold_left (fun m v => std_max (vlength v) m) velocities 0.

(** The particles that the first loop counts in the last entry of
    [speedLimitCounts]. *)
Definition fastest (speedLimitStep : Q) (maxFrameTimeSteps : Z) (velocities : list vec3)
    : list vec3 :=
  List.filter
    (fun v => (maxFrameTimeSteps - 1 <=? Qfloor (vlength v / speedLimitStep))%Z)
    velocities.

Lemma increment_spec (index : Z) (counts : list Z) :
  (0 <= index < Z.of_nat (length counts))%Z ->
  exists c, counts !! Z.to_nat index = Some c
            /\ increment index counts = Some (<[Z.to_nat index := (c + 1)%Z]> counts).
Proof.
  intros Hi. unfold increment.
  destruct (Z.ltb_spec index 0) as [?|_]; [lia|].
  destruct (lookup_lt_is_Some_2 counts (Z.to_nat index) ltac:(lia)) as [c Hc].
  exists c. by rewrite Hc.
Qed.

(** A loop of increments fills a histogram of the indices. *)
Lemma bump_histogram {A : Type} (index : A -> Z) (values : list A) (counts0 : list Z) :
  Forall (fun v => (0 <= index v < Z.of_nat (length counts0))%Z) values ->
  exists counts,
    fold_left (bump index) values (Some counts0) = Some counts
    /\ length counts = length counts0
    /\ forall j c0,
         counts0 !! j = Some c0 ->
         counts !! j
         = Some (c0 + Z.of_nat (length (List.filter
                                          (fun v => (index v =? Z.of_nat j)%Z)
                                          values)))%Z.
Proof.
  revert counts0.
  induction values as [|v values IH]; intros counts0 Hall.
  - exists counts0. cbn. split; [reflexivity|]. split; [reflexivity|].
    intros j c0 ->. f_equal. lia.
  - apply Forall_cons in Hall as [Hv Hall].
    destruct (increment_spec (index v) counts0 Hv) as (c & Hc & Hinc).
    cbn [fold_left]. unfold bump at 2. rewrite Hinc.
    destruct (IH (<[Z.to_nat (index v) := (c + 1)%Z]> counts0))
      as (counts & -> & Hlen & Hcounts).
    { by rewrite length_insert. }
    exists counts. split; [reflexivity|].
    split; [by rewrite Hlen, length_insert|].
    intros j c0 Hj. cbn [List.filter].
    destruct (Z.eqb_spec (index v) (Z.of_nat j)) as [E|E].
    + rewrite (Hcounts j (c0 + 1)%Z).
      * f_equal. cbn [length]. lia.
      * assert (Hto : Z.to_nat (index v) = j) by lia. rewrite Hto in *.
        rewrite list_lookup_insert_eq by (by eapply lookup_lt_Some).
        congruence.
    + rewrite (Hcounts j c0); [reflexivity|].
      rewrite list_lookup_insert_ne by lia. exact Hj.
Qed.

(** The first loop is a loop of increments, with the largest speed beside
    it. *)
Lemma count_speed_bump (step : Q) (n : Z) (velocities : list vec3)
    (acc : option (list Z)) (m0 : Q) :
  fold_left (count_speed step n) velocities (option_map (fun c => (c, m0)) acc)
  = option_map
      (fun c => (c, fold_left (fun m v => std_max (vlength v) m) velocities m0))
      (fold_left (bump (fun v => Z.min (Qfloor (vlength v / step)) (n - 1)))
                 velocities acc).
Proof.
  revert acc m0. induction velocities as [|v velocities IH]; intros acc m0.
  - reflexivity.
  - cbn [fold_left]. rewrite <- IH. f_equal.
    destruct acc as [counts|]; [|reflexivity].
    cbn [option_map bump count_speed].
    by destruct (increment _ counts).
Qed.

Lemma count_speed_histogram (step : Q) (n : Z) (velocities : list vec3)
    (counts0 : list Z) (m0 : Q) :
  let index v := Z.min (Qfloor (vlength v / step)) (n - 1) in
  Forall (fun v => (0 <= index v < Z.of_nat (length counts0))%Z) velocities ->
  exists counts,
    fold_left (count_speed step n) velocities (Some (counts0, m0))
    = Some (counts, fold_left (fun m v => std_max (vlength v) m) velocities m0)
    /\ length counts = length counts0
    /\ forall j c0,
         counts0 !! j = Some c0 ->
         counts !! j
         = Some (c0 + Z.of_nat (length (List.filter
                                          (fun v => (index v =? Z.of_nat j)%Z)
                                          velocities)))%Z.
Proof.
  intros index Hall.
  destruct (bump_histogram index velocities counts0 Hall) as (counts & Hrun & Hrest).
  exists counts. split; [|exact Hrest].
  change (Some (counts0, m0)) with (option_map (fun c => (c, m0)) (Some counts0)).
  rewrite count_speed_bump. fold index. by rewrite Hrun.
Qed.

(** The second loop keeps the limit between its first value and the value
    of the largest counter. *)
Lemma limit_loop_bounds (step : Q) (n maxRemovalCount : Z) (counts : list Z)
    (i : nat) (current : Z) (maxspeed : Q) :
  0 < step ->
  (Z.of_nat i <= n - 1)%Z -> (i < length counts)%nat ->
  inject_Z n * step <= maxspeed
  <= inject_Z (Z.max (n - 1 + _minTimeStepIncreaseForRemoval) n) * step ->
  exists limit,
    limit_loop step n maxRemovalCount counts i current maxspeed = Some limit
    /\ inject_Z n * step <= limit
       <= inject_Z (Z.max (n - 1 + _minTimeStepIncreaseForRemoval) n) * step.
Proof.
  intros Hstep. revert current maxspeed.
  induction i as [|i IH]; intros current maxspeed Hi Hlen Hm.
  - exists maxspeed. by split.
  - cbn [limit_loop].
    destruct (lookup_lt_is_Some_2 counts (S i) Hlen) as [c ->].
    destruct (maxRemovalCount <? current + c)%Z; [exists maxspeed; by split|].
    apply IH; [lia | lia |].
    split.
    + apply Qmult_le_compat_r; [|lra]. rewrite <- Zle_Qle. lia.
    + apply Qmult_le_compat_r; [|lra]. rewrite <- Zle_Qle. lia.
Qed.

Lemma vlength_nonneg (v : vec3) : sqrt_laws -> 0 <= vlength v.
Proof.
  intros [Hs _]. apply Hs. unfold vmath.dot. nra.
Qed.

(** X21.  The speed limit of the extreme velocity removal.  For a positive
    time step the function returns a limit.  Before the outlier threshold
    is applied the limit is at least the speed of [_maxFrameTimeSteps]
    times the CFL distance per [dt], whatever the removal counts allow, and
    it is exactly that when more particles than [maxRemovalCount] fall in
    the last entry of the histogram.  The value returned is that limit or,
    when it is smaller, the outlier threshold. *)
Theorem X21_speed_limit (s : Sim W) (dt : Q) :
  sqrt_laws ->
  well_configured (cfg s) ->
  0 < dt ->
  let c := cfg s in
  let velocities := VELOCITY (world s) in
  let step := inject_Z (_CFLConditionNumber c) * _dx c / dt in
  let lowest := inject_Z (_maxFrameTimeSteps c) * step in
  let highest :=
    inject_Z (Z.max (_maxFrameTimeSteps c - 1 + _minTimeStepIncreaseForRemoval)
                    (_maxFrameTimeSteps c)) * step in
  let threshold := _extremeParticleVelocityThreshold * maxParticleSpeed velocities in
  let maxRemovalCount :=
    Z.min (Colour.trunc (inject_Z (Z.of_nat (length velocities))
                         * _maxExtremeVelocityRemovalPercent))
          _maxExtremeVelocityRemovalAbsolute in
  exists limit maxspeed,
    _getMarkerParticleSpeedLimit s dt = Some limit
    /\ lowest <= maxspeed <= highest
    /\ ((maxRemovalCount
         < Z.of_nat (length (fastest step (_maxFrameTimeSteps c) velocities)))%Z ->
        maxspeed = lowest)
    /\ (limit = maxspeed \/ limit = threshold /\ threshold <= maxspeed)
    /\ (maxspeed < threshold -> limit = maxspeed).
Proof.
  intros Hsq Hwf Hdt c velocities step lowest highest threshold maxRemovalCount.
  pose proof Hwf as (Hdx & Hcfl & _ & _ & _ & Hmax). fold c in Hdx, Hcfl, Hmax.
  assert (Hstep : 0 < step).
  { unfold step. pose proof (inject_Z_pos _ Hcfl).
    apply Qlt_shift_div_l; [exact Hdt|]. nra. }
  unfold _getMarkerParticleSpeedLimit. cbv zeta. fold c velocities step.
  destruct (Z.ltb_spec (_maxFrameTimeSteps c) 0) as [?|_]; [lia|].
  set (n := _maxFrameTimeSteps c) in *.
  destruct (count_speed_histogram step n velocities (replicate (Z.to_nat n) 0%Z) 0)
    as (counts & -> & Hlen & Hcounts).
  { apply Forall_forall. intros v _. rewrite length_replicate.
    assert (0 <= Qfloor (vlength v / step))%Z.
    { rewrite <- (Qfloor_Z 0). apply Qfloor_resp_le.
      change (inject_Z 0) with 0.
      apply Qle_shift_div_l; [exact Hstep|]. pose proof (vlength_nonneg v Hsq). lra. }
    lia. }
  rewrite length_replicate in Hlen.
  fold (maxParticleSpeed velocities). fold threshold. fold maxRemovalCount.
  rewrite Hlen.
  replace (Z.to_nat (Z.of_nat (Z.to_nat n) - 1)) with (Z.to_nat (n - 1)) by lia.
  assert (Hrun : exists maxspeed,
             limit_loop step n maxRemovalCount counts (Z.to_nat (n - 1)) 0 lowest
             = Some maxspeed
             /\ lowest <= maxspeed <= highest
             /\ ((maxRemovalCount < Z.of_nat (length (fastest step n velocities)))%Z ->
                 maxspeed = lowest)).
  { destruct (limit_loop_bounds step n maxRemovalCount counts (Z.to_nat (n - 1)) 0 lowest
                Hstep ltac:(lia) ltac:(lia)) as (maxspeed & Hloop & Hb).
    { split; [unfold lowest; lra|]. unfold lowest, highest.
      apply Qmult_le_compat_r; [|lra]. rewrite <- Zle_Qle. lia. }
    exists maxspeed. split; [exact Hloop|]. split; [exact Hb|].
    intros Hover. destruct (Z.to_nat (n - 1)) as [|i] eqn:Ei.
    - cbn in Hloop. congruence.
    - cbn [limit_loop] in Hloop.
      rewrite (Hcounts (S i) 0%Z) in Hloop.
      2:{ apply lookup_replicate_2. lia. }
      assert (Hsame : List.filter
                        (fun v => (Z.min (Qfloor (vlength v / step)) (n - 1)
                                   =? Z.of_nat (S i))%Z) velocities
                      = fastest step n velocities).
      { unfold fastest. apply List.filter_ext. intros v.
        destruct (Z.leb_spec (n - 1) (Qfloor (vlength v / step)));
          [apply Z.eqb_eq | apply Z.eqb_neq]; lia. }
      rewrite Hsame in Hloop.
      destruct (Z.ltb_spec maxRemovalCount
                  (0 + (0 + Z.of_nat (length (fastest step n velocities))))) as [_|?];
        [congruence | lia]. }
  destruct Hrun as (maxspeed & Hloop & Hb & Hover).
  change (inject_Z n * step) with lowest. rewrite Hloop.
  destruct (fold_left _ velocities (0%Z, 0%Z)) as [lower upper].
  destruct ((upper <=? _)%Z && (lower <=? _)%Z).
  - exists (std_min threshold maxspeed), maxspeed.
    split; [reflexivity|]. split; [exact Hb|]. split; [exact Hover|].
    unfold std_min. destruct (Qltb maxspeed threshold) eqn:E.
    + split; [by left | reflexivity].
    + apply Qltb_false in E. split; [right; by split|]. intros. lra.
  - exists maxspeed, maxspeed.
    split; [reflexivity|]. split; [exact Hb|]. split; [exact Hover|].
    split; [by left | reflexivity].
Qed.

End Limit.

Import Scenario Timing.
#[local] Existing Instance scene.

(** The particle of [three_step_state], at speed 3/4 with steps of 1/2:
    it falls in entry 1 of 8 and may not be removed, so that the loop
    stops there with the speed of 8 steps, 4; the outlier threshold, twice
    the largest speed, is smaller. *)
Lemma X21_witness :
  exists limit,
    _getMarkerParticleSpeedLimit (1 # 2) 100 2 (3 # 2) 2 10 three_step_state 1 = Some limit
    /\ limit == 3 # 2.
Proof.
  destruct (X21_speed_limit (1 # 2) 100 2 (3 # 2) 2 10 three_step_state 1
              scene_sqrt_laws three_step_well_configured ltac:(lra))
    as (limit & maxspeed & Hrun & _).
  exists limit. split; [exact Hrun|].
  vm_compute in Hrun. injection Hrun as <-. reflexivity.
Defined.

End SpeedLimit.

(** ** The speed below which 99.5% of the particles move (lines 9354-9382) *)

Module Percentile.

Import Engine SpeedLimit.

Section Threshold.

Context {W : Type} {collaborators : Collaborators W}.






(** *** Properties *)









End Threshold.

Import Scenario Timing.
#[local] Existing Instance scene.


End Percentile.
